(** * Offer and segment seeding: a shallow embedding of [data/offers.ts]

    The development follows the source file top-down: the segment
    identifier ([segmentId]), the segment and offer writers
    ([createSegments], [createOffers] with its inner [commitBatch]) and the
    synthetic generator ([randomSegment], [randomOffer], [randomOffers]).
    It then turns to the functions of [data/queries.ts] that use them or
    stand beside them: [seedCityWithOffers], [schemaObjects] and
    [hasSchema], [getPipelineSQL], [pipelineStatus] and [resetSchema] with
    [createCity].

    JavaScript values are modelled as the program has them:
    - a [number] that takes part in floating-point arithmetic is an IEEE 754
      binary64 value ([spec_float] with precision 53 and [emax] 1024, the
      executable specification of the Rocq core library);
    - the 32-bit results of bitwise operators are integers in [Z] with the
      wrap-around written out;
    - strings are [string]s, whose characters stand for UTF-16 code units
      below 256. *)

From Stdlib Require Import ZArith String Ascii List Lia Bool.
From Stdlib Require Import DecimalString DecimalN DecimalFacts.
From Corelib Require Import SpecFloat.
From stdpp Require Import base list gmap.
Import ListNotations.

Local Open Scope string_scope.
Local Open Scope list_scope.
Local Open Scope Z_scope.

(** ** The [string-hash] package

    [segmentId] calls the default export of the npm package [string-hash],
    which is not part of the repository.  Its body is

    <<
      var hash = 5381, i = str.length;
      while (i) { hash = (hash * 33) ^ str.charCodeAt(--i); }
      return hash >>> 0;
    >>

    The product is exact in binary64 (the operand is a 32-bit integer), the
    xor converts it with ToInt32, and the final unsigned shift by zero
    reinterprets the signed 32-bit value as unsigned. *)

Module StringHash.

Definition ToInt32 (z : Z) : Z := (z + 2 ^ 31) mod 2 ^ 32 - 2 ^ 31.

Definition ToUint32 (z : Z) : Z := z mod 2 ^ 32.

Definition charCode (c : ascii) : Z := Z.of_N (N_of_ascii c).

(** One iteration of the loop for the code unit [c]. *)
Definition step (c : ascii) (hash : Z) : Z :=
  Z.lxor (ToInt32 (hash * 33)) (charCode c).

(** The loop walks the string from its last code unit to its first. *)
Fixpoint loop (str : string) (hash : Z) : Z :=
  match str with
  | EmptyString => hash
  | String c rest => step c (loop rest hash)
  end.

Definition stringHash (str : string) : Z := ToUint32 (loop str 5381).

End StringHash.

Export StringHash (stringHash).

(** ** Segments *)

(** [SegmentKinds] and [SegmentIntervals]: the two [as const] arrays and the
    string-literal unions derived from them. *)

Inductive SegmentKind := olc_8 | olc_6 | purchase | request.

Inductive SegmentInterval := minute | hour | day | week | month.

Definition SegmentKinds : list SegmentKind := [olc_8; olc_6; purchase; request].

Definition SegmentIntervals : list SegmentInterval :=
  [minute; hour; day; week; month].

Definition kind_string (k : SegmentKind) : string :=
  match k with
  | olc_8 => "olc_8"
  | olc_6 => "olc_6"
  | purchase => "purchase"
  | request => "request"
  end.

Definition interval_string (i : SegmentInterval) : string :=
  match i with
  | minute => "minute"
  | hour => "hour"
  | day => "day"
  | week => "week"
  | month => "month"
  end.

Record Segment := {
  interval : SegmentInterval;
  kind : SegmentKind;
  value : string
}.

(** The template literal [`${interval}-${kind}-${value}`]. *)
Definition segmentKey (s : Segment) : string :=
  (interval_string (interval s) ++ "-" ++ kind_string (kind s) ++ "-"
     ++ value s)%string.

Definition segmentId (s : Segment) : Z := stringHash (segmentKey s).

(** ** Numbers

    A JavaScript [number] is a binary64 value.  The operations are those of
    [SpecFloat] at precision 53. *)

Module Number.

Definition t := spec_float.

Definition prec : Z := 53.
Definition emax : Z := 1024.

Definition add : t -> t -> t := SFadd prec emax.
Definition sub : t -> t -> t := SFsub prec emax.
Definition mul : t -> t -> t := SFmul prec emax.
Definition div : t -> t -> t := SFdiv prec emax.
Definition ltb : t -> t -> bool := SFltb.
Definition leb : t -> t -> bool := SFleb.
Definition eqb : t -> t -> bool := SFeqb.

(** The number denoted by an integer literal (exact below [2 ^ 53]). *)
Definition of_Z (z : Z) : t := binary_normalize prec emax z 0 false.

(** [Math.floor]: the largest integral number not above the argument;
    zeros, infinities and NaN are returned unchanged. *)
Definition floor (x : t) : t :=
  match x with
  | S754_finite s m e =>
      if 0 <=? e then x
      else
        let q := Z.pos m / 2 ^ (- e) in
        let exact := Z.pos m mod 2 ^ (- e) =? 0 in
        let n := if s then - (if exact then q else q + 1) else q in
        binary_normalize prec emax n 0 s
  | _ => x
  end.

(** The mathematical integer of an integral finite number; [None] for a
    number that is not an integer (fractions, infinities, NaN). *)
Definition to_Z (x : t) : option Z :=
  match x with
  | S754_zero _ => Some 0
  | S754_finite s m e =>
      if 0 <=? e then Some (cond_Zopp s (Z.pos m * 2 ^ e))
      else if Z.pos m mod 2 ^ (- e) =? 0
           then Some (cond_Zopp s (Z.pos m / 2 ^ (- e)))
           else None
  | _ => None
  end.

(** Neither an infinity nor NaN. *)
Definition is_finite (x : t) : bool :=
  match x with
  | S754_zero _ | S754_finite _ _ _ => true
  | _ => false
  end.

(** A draw of [Math.random]: a valid binary64 value in [[0, 1)]. *)
Definition unit_interval (x : t) : bool :=
  valid_binary prec emax x && leb (of_Z 0) x && ltb x (of_Z 1).

End Number.

Abbreviation number := Number.t.

(** The format exponent of binary64. *)
Definition fexp64 (x : Z) : Z := Z.max (x - 53) (- 1074).

(** [x] is the non-negative number [v * 2 ^ -1200], of at most 53 digits;
    the unit lies below every exponent met in the generator. *)
Definition has_value (x : number) (v : Z) : Prop :=
  ((exists s, x = S754_zero s) /\ v = 0)
  \/ exists m e,
       x = S754_finite false m e
       /\ - 1200 <= e
       /\ v = Z.pos m * 2 ^ (e + 1200)
       /\ Z.pos m < 2 ^ 53.

(** ** JSON text of an array of integers

    [JSON.stringify] of an array of integral numbers below [10 ^ 21] writes
    the decimal numerals separated by commas between brackets, with no white
    space.  [JSON.parse] is modelled on the texts of that shape: an array of
    integer literals, a literal being an optional minus sign and either [0]
    or a numeral without leading zero. *)

Module JSON.

Definition numeral (n : N) : string := NilEmpty.string_of_uint (N.to_uint n).

Definition number_text (z : Z) : string :=
  match z with
  | Zneg p => String "-" (numeral (Npos p))
  | _ => numeral (Z.to_N z)
  end.

Fixpoint elements_text (zs : list Z) : string :=
  match zs with
  | [] => ""
  | [z] => number_text z
  | z :: rest => (number_text z ++ "," ++ elements_text rest)%string
  end.

Definition stringify (zs : list Z) : string :=
  ("[" ++ elements_text zs ++ "]")%string.

Definition digit_value (c : ascii) : option N :=
  let n := N_of_ascii c in
  if ((48 <=? n) && (n <=? 57))%N then Some (n - 48)%N else None.

(** What the parser has read of the current literal. *)
Inductive literal :=
| Nothing
| Sign
| Digits (negative : bool) (n : N).

Definition literal_value (negative : bool) (n : N) : Z :=
  if negative then - Z.of_N n else Z.of_N n.

(** The elements after the opening bracket; [seen] holds the values read
    so far, last first. *)
Fixpoint parse_elements (s : string) (cur : literal) (seen : list Z)
  : option (list Z) :=
  match s with
  | EmptyString => None
  | String c rest =>
      match digit_value c, cur with
      | Some d, Nothing => parse_elements rest (Digits false d) seen
      | Some d, Sign => parse_elements rest (Digits true d) seen
      | Some d, Digits neg n =>
          if (n =? 0)%N then None
          else parse_elements rest (Digits neg (10 * n + d)%N) seen
      | None, Digits neg n =>
          if Ascii.eqb c "," then
            parse_elements rest Nothing (literal_value neg n :: seen)
          else if Ascii.eqb c "]" then
            match rest with
            | EmptyString => Some (rev (literal_value neg n :: seen))
            | _ => None
            end
          else None
      | None, Nothing =>
          if Ascii.eqb c "-" then parse_elements rest Sign seen else None
      | None, Sign => None
      end
  end.

Definition parse (s : string) : option (list Z) :=
  match s with
  | String "[" (String "]" EmptyString) => Some []
  | String "[" rest => parse_elements rest Nothing []
  | _ => None
  end.

End JSON.

(** ** The database client and the statement builder *)

(** A value bound to a statement placeholder: a binary64 number, an integer
    produced by a 32-bit operator, or a string. *)
Inductive SQLValue :=
| SqlNumber (n : number)
| SqlInteger (z : Z)
| SqlString (s : string).

(** What reaches the database in one call of [Exec]: the statement text
    together with its parameters.  The text of a [MultiReplace] statement is
    determined by the relation, the column names and the number of row
    placeholders, and its parameter list is the concatenation of the rows;
    the call is kept in that structured form. *)
Record Statement := {
  target : string;
  fields : list string;
  rows : list (list SQLValue)
}.

(** Modelled from the spec: the class [MultiReplace] of [data/sqlbuilder] is
    not among the sources.  The builder accumulates row tuples for one target
    relation and a fixed ordered list of column names; [append] adds one row,
    [clear] discards all accumulated rows without altering the relation or
    the columns, and building renders a single statement that replaces all
    accumulated rows in one round trip. *)
Module MultiReplace.

Record t := {
  table : string;
  columns : list string;
  tuples : list (list SQLValue)
}.

Definition new (table : string) (columns : list string) : t :=
  {| table := table; columns := columns; tuples := [] |}.

Definition append (values : list SQLValue) (b : t) : t :=
  {| table := table b; columns := columns b; tuples := tuples b ++ [values] |}.

Definition clear (b : t) : t :=
  {| table := table b; columns := columns b; tuples := [] |}.

(** The pair [(sql(), params())] handed to [Exec]. *)
Definition build (b : t) : Statement :=
  {| target := table b; fields := columns b; rows := tuples b |}.

End MultiReplace.

(** How a promise settles. *)
Inductive Outcome := Fulfilled | Rejected.

(** The statements issued to the database so far, oldest first. *)
Definition Trace := list Statement.

Record Offer := {
  segments : list Segment;
  notificationZone : string;
  notificationContent : string;
  notificationTarget : string;
  maximumBidCents : number
}.

Definition DEFAULT_CUSTOMER_ID : number := Number.of_Z 0.

Definition MAX_OFFERS_PER_BATCH : nat := 500.

(** The local variables of one call of [createOffers]. *)
Record Batch := {
  stmt : MultiReplace.t;
  numOffers : nat;
  pending : list Segment   (* the variable [segments] *)
}.

Section Writers.

(** [Exec] of [data/client] is an external collaborator: it sends the
    statement and its promise is fulfilled or rejected.  [rejects] is the
    verdict of the database on a statement, given the statements issued
    before it. *)
Variable rejects : Trace -> Statement -> bool.

Definition Exec (st : Statement) (tr : Trace) : Outcome * Trace :=
  (if rejects tr st then Rejected else Fulfilled, tr ++ [st]).

Definition segment_row (s : Segment) : list SQLValue :=
  [SqlInteger (segmentId s);
   SqlString (interval_string (interval s));
   SqlString (kind_string (kind s));
   SqlString (value s)].

Definition segments_stmt (segs : list Segment) : MultiReplace.t :=
  fold_left (fun b s => MultiReplace.append (segment_row s) b) segs
    (MultiReplace.new "segments"
       ["segment_id"; "valid_interval"; "filter_kind"; "filter_value"]).

Definition createSegments (segs : list Segment) (tr : Trace)
  : Outcome * Trace :=
  Exec (MultiReplace.build (segments_stmt segs)) tr.

Definition offer_row (customerId : number) (offer : Offer) : list SQLValue :=
  [SqlNumber customerId;
   SqlString (notificationZone offer);
   SqlString (JSON.stringify (map segmentId (segments offer)));
   SqlString (notificationContent offer);
   SqlString (notificationTarget offer);
   SqlNumber (maximumBidCents offer)].

(** [commitBatch]: both writes are issued, the offers statement first, and
    [Promise.all] is awaited.  The three assignments after the [await] run
    only when it is fulfilled; a rejection leaves the variables as they
    are and propagates. *)
Definition commitBatch (b : Batch) (tr : Trace) : Outcome * Batch * Trace :=
  let '(r1, tr1) := Exec (MultiReplace.build (stmt b)) tr in
  let '(r2, tr2) := createSegments (pending b) tr1 in
  match r1, r2 with
  | Fulfilled, Fulfilled =>
      (Fulfilled,
       {| stmt := MultiReplace.clear (stmt b); numOffers := 0; pending := [] |},
       tr2)
  | _, _ => (Rejected, b, tr2)
  end.

(** The body of the [for] loop for one offer, up to the test. *)
Definition accumulate (customerId : number) (offer : Offer) (b : Batch)
  : Batch :=
  {| stmt := MultiReplace.append (offer_row customerId offer) (stmt b);
     numOffers := S (numOffers b);
     pending := pending b ++ segments offer |}.

Fixpoint offers_loop (customerId : number) (offers : list Offer)
    (b : Batch) (tr : Trace) : Outcome * Batch * Trace :=
  match offers with
  | [] => (Fulfilled, b, tr)
  | offer :: rest =>
      let b1 := accumulate customerId offer b in
      if (MAX_OFFERS_PER_BATCH <=? numOffers b1)%nat then
        match commitBatch b1 tr with
        | (Fulfilled, b2, tr2) => offers_loop customerId rest b2 tr2
        | failed => failed
        end
      else offers_loop customerId rest b1 tr
  end.

Definition offers_stmt : MultiReplace.t :=
  MultiReplace.new "offers"
    ["customer_id"; "notification_zone"; "segment_ids";
     "notification_content"; "notification_target"; "maximum_bid_cents"].

(** [customerId] is [None] when the caller omits the argument. *)
Definition createOffers (offers : list Offer) (customerId : option number)
    (tr : Trace) : Outcome * Batch * Trace :=
  let customerId := default DEFAULT_CUSTOMER_ID customerId in
  let b0 := {| stmt := offers_stmt; numOffers := 0; pending := [] |} in
  match offers_loop customerId offers b0 tr with
  | (Fulfilled, b, tr1) =>
      if (0 <? numOffers b)%nat then commitBatch b tr1
      else (Fulfilled, b, tr1)
  | failed => failed
  end.

End Writers.

(** ** The synthetic generator *)

Record CityConfig := {
  name : string;
  lonlat : number * number;
  diameter : number
}.

(** [DEFAULT_CITY]: the literals [-73.993562], [40.727063] and [0.15] denote
    the nearest binary64 values. *)
Definition DEFAULT_CITY : CityConfig :=
  {| name := "New York";
     lonlat := (S754_finite true 5206834035172120 (-46),
                S754_finite false 5731824554709210 (-47));
     diameter := S754_finite false 5404319552844595 (-55) |}.

(** An entry of [static-data/vendors.json]. *)
Record Vendor := {
  vendor : string;
  tld : string
}.

(** [Bounds] of [pigeon-maps] and the [CodeArea] returned by
    [OpenLocationCode.decode]. *)
Record Bounds := {
  ne : number * number;
  sw : number * number
}.

Record CodeArea := {
  latitudeLo : number;
  longitudeLo : number;
  latitudeHi : number;
  longitudeHi : number
}.

(** [String.prototype.toLowerCase] on code units below 256: the letters
    [A]-[Z] and the Latin-1 capitals move up by 32. *)
Definition lower_char (c : ascii) : ascii :=
  let n := N_of_ascii c in
  if (((65 <=? n) && (n <=? 90))
      || ((192 <=? n) && (n <=? 222) && negb (n =? 215)))%N
  then ascii_of_N (n + 32) else c.

Fixpoint toLowerCase (s : string) : string :=
  match s with
  | EmptyString => EmptyString
  | String c rest => String (lower_char c) (toLowerCase rest)
  end.

(** The successive results of [Math.random]. *)
Definition Source := nat -> number.

(** Every draw is a binary64 value in [[0, 1)]. *)
Definition unit_draws (src : Source) : Prop :=
  forall i, Number.unit_interval (src i) = true.

(** A computation that draws from [Math.random].  It either returns a value
    or reads an array past its end, which yields [undefined], a value
    outside the element type; the model stops there with [None]. *)
Definition Gen (A : Type) := Source -> option A * Source.

Definition ret {A} (a : A) : Gen A := fun src => (Some a, src).

Definition bind {A B} (g : Gen A) (k : A -> Gen B) : Gen B :=
  fun src =>
    match g src with
    | (Some a, src') => k a src'
    | (None, src') => (None, src')
    end.

Definition undefined {A} : Gen A := fun src => (None, src).

Declare Scope gen_scope.
Delimit Scope gen_scope with gen.
Notation "'let*' x ':=' g 'in' k" := (bind g (fun x => k))
  (at level 10, x pattern, g at level 100, k at level 200) : gen_scope.

(** [Math.random()]. *)
Definition random : Gen number :=
  fun src => (Some (src 0%nat), fun i => src (S i)).

(** [ToLength]: the number of elements [Array.from] builds for the
    array-like [{ length: x }]. *)
Definition ToLength (x : number) : nat :=
  match x with
  | S754_finite false m e =>
      Z.to_nat (Z.min (2 ^ 53 - 1)
                  (if 0 <=? e then Z.pos m * 2 ^ e else Z.pos m / 2 ^ (- e)))
  | S754_infinity false => Z.to_nat (2 ^ 53 - 1)
  | _ => 0%nat
  end.

(** [Array.from({ length: n }, f)]: [n] successive calls of [f]. *)
Fixpoint array_from {A} (n : nat) (f : Gen A) : Gen (list A) :=
  match n with
  | O => ret []
  | S n' => (let* x := f in let* xs := array_from n' f in ret (x :: xs))%gen
  end.

(** [arr[x]] for a number [x]: the element at an integral index in range,
    [undefined] otherwise. *)
Definition element {A} (arr : list A) (x : number) : option A :=
  match Number.to_Z x with
  | Some z => if 0 <=? z then nth_error arr (Z.to_nat z) else None
  | None => None
  end.

Definition randomChoice {A} (arr : list A) : Gen A :=
  (let* r := random in
   match element arr
           (Number.floor (Number.mul r (Number.of_Z (Z.of_nat (length arr)))))
   with
   | Some x => ret x
   | None => undefined
   end)%gen.

Definition randomFloatInRange (min max : number) : Gen number :=
  (let* r := random in
   ret (Number.add (Number.mul r (Number.sub max min)) min))%gen.

Definition randomIntegerInRange (min max : number) : Gen number :=
  (let* x := randomFloatInRange min max in ret (Number.floor x))%gen.

Definition randomSegmentKind : Gen SegmentKind := randomChoice SegmentKinds.

Definition randomSegmentInterval : Gen SegmentInterval :=
  randomChoice SegmentIntervals.

Definition vendorDomain (v : Vendor) : string :=
  (toLowerCase (vendor v) ++ "." ++ tld v)%string.

Definition randomPointInCity (city : CityConfig) : Gen (number * number) :=
  let '(lon, lat) := lonlat city in
  let radius := Number.div (diameter city) (Number.of_Z 2) in
  let '(minLon, maxLon) := (Number.sub lon radius, Number.add lon radius) in
  let '(minLat, maxLat) := (Number.sub lat radius, Number.add lat radius) in
  (let* x := randomFloatInRange minLon maxLon in
   let* y := randomFloatInRange minLat maxLat in
   ret (x, y))%gen.

Section Generator.

(** The vendor catalogue [VENDORS], the Open Location Code library
    ([encode] with its code length, [decode]), [boundsToWKTPolygon] of
    [geo] and the conversion of a number to its string in a template
    literal are external to the file. *)
Variable VENDORS : list Vendor.
Variable encode : number -> number -> nat -> string.
Variable decode : string -> CodeArea.
Variable boundsToWKTPolygon : Bounds -> string.
Variable ToString : number -> string.

Definition randomVendor : Gen Vendor := randomChoice VENDORS.

Definition olcLen (k : SegmentKind) : nat :=
  match k with olc_8 => 8 | _ => 6 end.

Definition randomSegment (city : CityConfig) : Gen Segment :=
  (let* kind := randomSegmentKind in
   let* interval := randomSegmentInterval in
   match kind with
   | olc_8 | olc_6 =>
       let* (lon, lat) := randomPointInCity city in
       let olc := substring 0 (olcLen kind) (encode lat lon (olcLen kind)) in
       ret {| kind := kind; interval := interval; value := olc |}
   | purchase =>
       let* v := randomVendor in
       ret {| kind := kind; interval := interval; value := vendor v |}
   | request =>
       let* v := randomVendor in
       ret {| kind := kind; interval := interval; value := vendorDomain v |}
   end)%gen.

Definition randomOffer (city : CityConfig) : Gen Offer :=
  (let* numSegments := randomIntegerInRange (Number.of_Z 1) (Number.of_Z 3) in
   let* segments := array_from (ToLength numSegments) (randomSegment city) in
   let* chosen := randomVendor in
   let domain := vendorDomain chosen in
   let* pctOff := randomIntegerInRange (Number.of_Z 10) (Number.of_Z 50) in
   let* vendorOfferId :=
     randomIntegerInRange (Number.of_Z 1) (Number.of_Z 1000) in
   let notificationContent :=
     (ToString pctOff ++ "% off at " ++ vendor chosen)%string in
   let notificationTarget :=
     ("https://" ++ domain ++ "/s2cellular?offerId="
        ++ ToString vendorOfferId)%string in
   let* (lon, lat) := randomPointInCity city in
   let* codeLength := randomChoice [8; 10]%nat in
   let olc := encode lat lon codeLength in
   let area := decode olc in
   let bounds :=
     {| ne := (latitudeHi area, longitudeHi area);
        sw := (latitudeLo area, longitudeLo area) |} in
   let zone := boundsToWKTPolygon bounds in
   let* bid := randomIntegerInRange (Number.of_Z 2) (Number.of_Z 15) in
   ret {| segments := segments;
          notificationZone := zone;
          notificationContent := notificationContent;
          notificationTarget := notificationTarget;
          maximumBidCents := bid |})%gen.

Definition randomOffers (city : CityConfig) (numOffers : number)
  : Gen (list Offer) :=
  array_from (ToLength numOffers) (randomOffer city).

End Generator.

(** What holds of every offer drawn: one to three segments, and a bid that
    is an integer from [2] to [14]. *)
Definition drawn (offer : Offer) : Prop :=
  (1 <= length (segments offer) <= 3)%nat
  /\ exists bid,
       Number.to_Z (maximumBidCents offer) = Some bid /\ 2 <= bid < 15.

(** ** Reading a trace *)

Definition is_offers (st : Statement) : bool := String.eqb (target st) "offers".

Definition is_segments (st : Statement) : bool :=
  String.eqb (target st) "segments".

(** The rows sent to the offers relation, in the order they were sent. *)
Definition offers_rows (tr : Trace) : list (list SQLValue) :=
  concat (map rows (List.filter is_offers tr)).

(** The statements a call added to the trace it started from. *)
Definition issued (before after : Trace) : Trace :=
  skipn (length before) after.

(** The statements among [new], issued one after the other after [before],
    that the database accepted: a refused statement changes nothing, an
    accepted one is committed, each on its own verdict. *)
Fixpoint committed (rejects : Trace -> Statement -> bool)
    (before new : Trace) : Trace :=
  match new with
  | [] => []
  | st :: rest =>
      (if rejects before st then [] else [st])
      ++ committed rejects (before ++ [st]) rest
  end.

(** The two statements of the flush of one batch of offers. *)
Definition offers_write (customerId : number) (batch : list Offer) : Statement :=
  {| target := "offers";
     fields := ["customer_id"; "notification_zone"; "segment_ids";
                "notification_content"; "notification_target";
                "maximum_bid_cents"];
     rows := map (offer_row customerId) batch |}.

Definition segments_write (segs : list Segment) : Statement :=
  {| target := "segments";
     fields := ["segment_id"; "valid_interval"; "filter_kind"; "filter_value"];
     rows := map segment_row segs |}.

Definition flush (customerId : number) (batch : list Offer) : Trace :=
  [offers_write customerId batch; segments_write (concat (map segments batch))].

(** The input cut into batches the way the loop fills them: [cur] is the
    batch being filled. *)
Fixpoint batches_from (cur : list Offer) (offers : list Offer)
  : list (list Offer) :=
  match offers with
  | [] => match cur with [] => [] | _ => [cur] end
  | offer :: rest =>
      let cur' := cur ++ [offer] in
      if (MAX_OFFERS_PER_BATCH <=? length cur')%nat
      then cur' :: batches_from [] rest
      else batches_from cur' rest
  end.

Definition batches (offers : list Offer) : list (list Offer) :=
  batches_from [] offers.

(** The batch record holds exactly the offers [cur] gathered since the
    last flush. *)
Definition holds (customerId : number) (cur : list Offer) (b : Batch) : Prop :=
  stmt b = MultiReplace.Build_t "offers"
             ["customer_id"; "notification_zone"; "segment_ids";
              "notification_content"; "notification_target";
              "maximum_bid_cents"]
             (map (offer_row customerId) cur)
  /\ numOffers b = length cur
  /\ pending b = concat (map segments cur).

Section Flushes.

Variable rejects : Trace -> Statement -> bool.

(** The flush of [batch] fails when either of its two writes is rejected. *)
Definition flush_rejected (customerId : number) (batch : list Offer)
    (tr : Trace) : bool :=
  rejects tr (offers_write customerId batch)
  || rejects (tr ++ [offers_write customerId batch])
       (segments_write (concat (map segments batch))).

(** Flushing the batches one after the other until a flush fails; the
    second component is the batch of the failed flush. *)
Fixpoint run_batches (customerId : number) (bs : list (list Offer))
    (tr : Trace) : Outcome * list Offer * Trace :=
  match bs with
  | [] => (Fulfilled, [], tr)
  | batch :: rest =>
      if flush_rejected customerId batch tr
      then (Rejected, batch, tr ++ flush customerId batch)
      else run_batches customerId rest (tr ++ flush customerId batch)
  end.

(** What [createOffers] does once the loop has ended. *)
Definition finish (res : Outcome * Batch * Trace) : Outcome * Batch * Trace :=
  match res with
  | (Fulfilled, b, tr) =>
      if (0 <? numOffers b)%nat then commitBatch rejects b tr
      else (Fulfilled, b, tr)
  | failed => failed
  end.

End Flushes.

(** [ceil (n / 500)]. *)
Definition ceil_batches (n : nat) : nat :=
  ((n + (MAX_OFFERS_PER_BATCH - 1)) / MAX_OFFERS_PER_BATCH)%nat.

(** The value of a numeral read after the digits worth [acc]. *)
Fixpoint uint_value (d : Decimal.uint) (acc : N) : N :=
  match d with
  | Decimal.Nil => acc
  | Decimal.D0 l => uint_value l (10 * acc)
  | Decimal.D1 l => uint_value l (10 * acc + 1)
  | Decimal.D2 l => uint_value l (10 * acc + 2)
  | Decimal.D3 l => uint_value l (10 * acc + 3)
  | Decimal.D4 l => uint_value l (10 * acc + 4)
  | Decimal.D5 l => uint_value l (10 * acc + 5)
  | Decimal.D6 l => uint_value l (10 * acc + 6)
  | Decimal.D7 l => uint_value l (10 * acc + 7)
  | Decimal.D8 l => uint_value l (10 * acc + 8)
  | Decimal.D9 l => uint_value l (10 * acc + 9)
  end%N.

(** The integers read back from the [segment_ids] column of an offers row. *)
Definition segment_ids_column (row : list SQLValue) : option (list Z) :=
  match nth_error row 2 with
  | Some (SqlString text) => JSON.parse text
  | _ => None
  end.

(** The number of rows of a statement keyed by the identifier of [s]. *)
Definition times_written (s : Segment) (st : Statement) : nat :=
  length (List.filter (fun row => match row with
                             | SqlInteger key :: _ => key =? segmentId s
                             | _ => false
                             end) (rows st)).

(** The largest binary64 value below one, [1 - 2 ^ -53], printed
    [0.9999999999999999]. *)
Definition below_one : number := S754_finite false (2 ^ 53 - 1) (-53).

(** The alphabet of Open Location Codes. *)
Definition olc_digit (c : ascii) : bool :=
  existsb (Ascii.eqb c) (list_ascii_of_string "23456789CFGHJMPQRVWX").

(** The shape of a full Open Location Code of [n] digits, [n] at most 8:
    the digits, zeros padding them to eight characters, and the separator. *)
Definition olc_code (n : nat) (code : string) : bool :=
  let chars := list_ascii_of_string code in
  (length chars =? 9)%nat
  && forallb olc_digit (firstn n chars)
  && forallb (Ascii.eqb "0") (firstn (8 - n) (skipn n chars))
  && match nth_error chars 8 with
     | Some c => Ascii.eqb c "+"
     | None => false
     end.

(** Modelled from the spec: the relations live in the database, outside the
    sources.  The segments relation has [segment_id] as its primary key, and
    on a primary-key conflict an existing row is replaced by the new row's
    values; a relation is the finite map from the key to its row. *)
Definition replace_row (rel : gmap Z (list SQLValue)) (row : list SQLValue)
  : gmap Z (list SQLValue) :=
  match row with
  | SqlInteger key :: _ => <[key := row]> rel
  | _ => rel
  end.

Definition replace_rows (rel : gmap Z (list SQLValue))
    (new_rows : list (list SQLValue)) : gmap Z (list SQLValue) :=
  fold_left replace_row new_rows rel.


(** The rows sent to the segments relation, in the order they were sent. *)
Definition segments_rows (tr : Trace) : list (list SQLValue) :=
  concat (map rows (List.filter is_segments tr)).

(** ** Seeding a city with offers

    [seedCityWithOffers] of [data/queries] draws [100 * partitions] offers
    for a city and writes them for the default customer.  [ScaleFactor] is a
    type of [scalefactors]; the record holds the fields the queries read. *)
Module ScaleFactor.

Record t := {
  prefix : string;
  partitions : number
}.

End ScaleFactor.

Section Seeding.

Variable rejects : Trace -> Statement -> bool.
Variable VENDORS : list Vendor.
Variable encode : number -> number -> nat -> string.
Variable decode : string -> CodeArea.
Variable boundsToWKTPolygon : Bounds -> string.
Variable ToString : number -> string.

(** The offers are drawn before [createOffers] is called; the result is the
    promise of [createOffers], settled here with the statements issued. *)
Definition seedCityWithOffers (city : CityConfig)
    (scaleFactor : ScaleFactor.t) (tr : Trace)
  : Gen (Outcome * Batch * Trace) :=
  let numOffers :=
    Number.mul (Number.of_Z 100) (ScaleFactor.partitions scaleFactor) in
  (let* offers :=
     randomOffers VENDORS encode decode boundsToWKTPolygon ToString city
       numOffers in
   ret (createOffers rejects offers None tr))%gen.

End Seeding.

(** ** The queries of [data/queries]

    The client of [data/client] is external: a query settles to the rows the
    database returns or to the value it throws.  [SQLError] is the error
    class of the client; the record holds what the queries ask of one. *)
Record SQLError := {
  isUnknownDatabase : bool;
  isDatabaseRecovering : bool
}.

(** A thrown value: an [SQLError] of the client, the [TypeError] of a call
    on [undefined], or an [Error] with its message. *)
Inductive Thrown :=
| ThrownSQLError (e : SQLError)
| ThrownTypeError
| ThrownError (message : string).

Inductive Settled (A : Type) :=
| Returned (a : A)
| Threw (e : Thrown).

Arguments Returned {A} a.
Arguments Threw {A} e.

(** An entry of [TABLES], [PROCEDURES] or [FUNCTIONS] of [data/sql], with
    the fields the queries read; the name is a string. *)
Module SchemaObject.

Record t := {
  name : string;
  statement : string
}.

End SchemaObject.

Record schemaObjInfo := {
  tables : list string;
  procedures : list string;
  functions : list string
}.

(** The callback of [reduce]: [acc[type].push(name)].  For a [type] that is
    none of the three keys [acc[type]] is no array and the call throws a
    [TypeError]. *)
Definition push_object (acc : schemaObjInfo) (row : string * string)
  : option schemaObjInfo :=
  let '(type, name) := row in
  if String.eqb type "tables" then
    Some {| tables := tables acc ++ [name];
            procedures := procedures acc;
            functions := functions acc |}
  else if String.eqb type "procedures" then
    Some {| tables := tables acc;
            procedures := procedures acc ++ [name];
            functions := functions acc |}
  else if String.eqb type "functions" then
    Some {| tables := tables acc;
            procedures := procedures acc;
            functions := functions acc ++ [name] |}
  else None.

Fixpoint reduce_objects (rows : list (string * string)) (acc : schemaObjInfo)
  : option schemaObjInfo :=
  match rows with
  | [] => Some acc
  | row :: rest =>
      match push_object acc row with
      | Some acc' => reduce_objects rest acc'
      | None => None
      end
  end.

(** A value of the object [schemaObjects] returns: [name && list.includes(name)]
    is the name itself when the name is empty, and the boolean otherwise. *)
Inductive Presence :=
| EmptyName
| Includes (b : bool).

Definition truthy (v : Presence) : bool :=
  match v with
  | EmptyName => false
  | Includes b => b
  end.

Definition includes (list : list string) (name : string) : bool :=
  existsb (String.eqb name) list.

Definition presence (list : list string) (name : string) : Presence :=
  if String.eqb name "" then EmptyName else Includes (includes list name).

(** [Object.fromEntries]: a later entry replaces an earlier one with the
    same key. *)
Definition fromEntries {V} (entries : list (string * V)) : gmap string V :=
  fold_left (fun m entry => <[fst entry := snd entry]> m) entries ∅.

Section Schema.

Variable TABLES PROCEDURES FUNCTIONS : list SchemaObject.t.

Definition schema_entries (objs : schemaObjInfo) : list (string * Presence) :=
  concat
    [map (fun o => (SchemaObject.name o,
                    presence (tables objs) (SchemaObject.name o))) TABLES;
     map (fun o => (SchemaObject.name o,
                    presence (procedures objs) (SchemaObject.name o)))
       PROCEDURES;
     map (fun o => (SchemaObject.name o,
                    presence (functions objs) (SchemaObject.name o)))
       FUNCTIONS].

(** [schemaObjects], given what the query on [information_schema] settles
    to.  An [SQLError] for an unknown or recovering database is swallowed
    and leaves the three lists empty; any other thrown value, also the
    [TypeError] of the reducer, is thrown again. *)
Definition schemaObjects (query : Settled (list (string * string)))
  : Settled (gmap string Presence) :=
  let empty := {| tables := []; procedures := []; functions := [] |} in
  let objs :=
    match query with
    | Returned rows =>
        match reduce_objects rows empty with
        | Some objs => Returned objs
        | None => Threw ThrownTypeError
        end
    | Threw (ThrownSQLError e) =>
        if isUnknownDatabase e || isDatabaseRecovering e
        then Returned empty
        else Threw (ThrownSQLError e)
    | Threw e => Threw e
    end in
  match objs with
  | Returned objs => Returned (fromEntries (schema_entries objs))
  | Threw e => Threw e
  end.

(** [hasSchema]: [Object.values(objects).every((x) => x)]. *)
Definition hasSchema (query : Settled (list (string * string)))
  : Settled bool :=
  match schemaObjects query with
  | Returned objects =>
      Returned (forallb truthy (map snd (map_to_list objects)))
  | Threw e => Threw e
  end.

End Schema.

(** Every expected object has a name and is reported by the database under
    its type. *)
Definition schema_present (TABLES PROCEDURES FUNCTIONS : list SchemaObject.t)
    (rows : list (string * string)) : Prop :=
  (forall o, In o TABLES ->
     SchemaObject.name o <> "" /\ In ("tables", SchemaObject.name o) rows)
  /\ (forall o, In o PROCEDURES ->
        SchemaObject.name o <> ""
        /\ In ("procedures", SchemaObject.name o) rows)
  /\ (forall o, In o FUNCTIONS ->
        SchemaObject.name o <> ""
        /\ In ("functions", SchemaObject.name o) rows).

(** ** The statement of a pipeline

    [getPipelineSQL] fills the variables of the statement of a pipeline.
    The statement comes from [findPipelineByName] of [data/sql] and is an
    argument here. *)

(** [Math.min] of two numbers: [NaN] when either is, and [-0] before
    [+0]. *)
Module Math.

Definition min (x y : number) : number :=
  match x, y with
  | S754_nan, _ | _, S754_nan => S754_nan
  | _, _ =>
      match SFcompare x y with
      | Some Lt => x
      | Some Gt => y
      | _ => match x with S754_zero true => x | _ => y end
      end
  end.

End Math.

(** What the scan of [replaceAll] has read of a possible match of
    [/\$\{([^}]+)\}/g]: nothing, the dollar, or the dollar, the brace and the
    characters of the key so far. *)
Inductive Scan :=
| Outside
| Dollar
| Key (key : string).

(** The text read for a match that did not complete. *)
Definition unmatched (st : Scan) : string :=
  match st with
  | Outside => ""
  | Dollar => "$"
  | Key key => ("${" ++ key)%string
  end.

(** [text.replaceAll(/\$\{([^}]+)\}/g, (_, key) => replacer(key))].  The
    matches are taken from left to right; a match is a dollar, an opening
    brace, the longest run of characters other than the closing brace, one
    at least, and the closing brace.  The replacer is called on the key of
    each match in turn and its result is inserted as it is; what it throws
    is thrown by [replaceAll]. *)
Fixpoint replaceAll (replacer : string -> Settled string) (text : string)
    (st : Scan) : Settled string :=
  let emit prefix rest st' :=
    match replaceAll replacer rest st' with
    | Returned out => Returned (prefix ++ out)%string
    | Threw e => Threw e
    end in
  match text with
  | EmptyString => Returned (unmatched st)
  | String c rest =>
      match st with
      | Outside =>
          if Ascii.eqb c "$" then replaceAll replacer rest Dollar
          else emit (String c "") rest Outside
      | Dollar =>
          if Ascii.eqb c "{" then replaceAll replacer rest (Key "")
          else if Ascii.eqb c "$" then emit "$" rest Dollar
          else emit (String "$" (String c "")) rest Outside
      | Key key =>
          if Ascii.eqb c "}" then
            if String.eqb key "" then emit "${}" rest Outside
            else
              match replacer key with
              | Returned value => emit value rest Outside
              | Threw e => Threw e
              end
          else replaceAll replacer rest (Key (key ++ String c "")%string)
      end
  end.

Section Pipelines.

Variable ToString : number -> string.

(** The callback of [getPipelineSQL]. *)
Definition pipeline_variable (scaleFactor : ScaleFactor.t)
    (maxPartitions : number) (key : string) : Settled string :=
  if String.eqb key "SCALE_FACTOR" then
    Returned (ScaleFactor.prefix scaleFactor)
  else if String.eqb key "PARTITIONS" then
    Returned (ToString (Math.min maxPartitions
                          (ScaleFactor.partitions scaleFactor)))
  else Threw (ThrownError ("Unknown variable: " ++ key)%string).

Definition getPipelineSQL (statement : string) (scaleFactor : ScaleFactor.t)
    (maxPartitions : number) : Settled string :=
  replaceAll (pipeline_variable scaleFactor maxPartitions) statement Outside.

End Pipelines.

(** Whether the character [c] occurs in [text]. *)
Fixpoint occurs (c : ascii) (text : string) : bool :=
  match text with
  | EmptyString => false
  | String x rest => Ascii.eqb x c || occurs c rest
  end.

(** ** The state of the pipelines

    [pipelineStatus] asks [information_schema] for the pipelines of the
    database and answers for each of the three pipeline names. *)
Record PipelineStatus := {
  pipelineName : string;
  needsUpdate : bool
}.

Definition pipelineNames : list string := ["locations"; "requests"; "purchases"].

(** The part of [pipelineStatus] after the query: [status] is the rows the
    query returned. *)
Definition pipelineStatus (status : list PipelineStatus)
  : list PipelineStatus :=
  map (fun name =>
         let row := find (fun x => String.eqb (pipelineName x) name) status in
         {| pipelineName := name;
            needsUpdate := match row with
                           | Some row => needsUpdate row
                           | None => true
                           end |})
    pipelineNames.

(** ** Resetting the schema

    What [resetSchema] does that can be observed: the messages it passes to
    [progress] and the statements it sends, with [Exec] on the database of
    the configuration or with [ExecNoDb] on none. *)
Inductive Event :=
| Progress (message status : string)
| Sql (onDatabase : bool) (text : string) (params : list SQLValue).

Definition is_sql (ev : Event) : bool :=
  match ev with
  | Sql _ _ _ => true
  | Progress _ _ => false
  end.

(** An asynchronous function on the events so far: how its promise settles,
    and the events after it. *)
Definition Task := list Event -> Outcome * list Event.

Section Reset.

(** The verdict of the database on a statement, given the events before
    it. *)
Variable refuses : list Event -> Event -> bool.

(** The schema and the seed of [data/sql], the name of the database of the
    configuration, and the conversion of a number to its string in a
    template literal. *)
Variable FUNCTIONS TABLES PROCEDURES SEED : list SchemaObject.t.
Variable database : string.
Variable ToString : number -> string.

Definition send (ev : Event) : Task :=
  fun log => (if refuses log ev then Rejected else Fulfilled, log ++ [ev]).

Definition progress (message status : string) : Task :=
  fun log => (Fulfilled, log ++ [Progress message status]).

Definition skip : Task := fun log => (Fulfilled, log).

(** [await first; second]: a rejection of [first] propagates and [second]
    does not start. *)
Definition andThen (first second : Task) : Task :=
  fun log =>
    match first log with
    | (Fulfilled, log') => second log'
    | failed => failed
    end.

(** [for (const x of xs) { await body(x) }]. *)
Fixpoint forEach {A} (body : A -> Task) (xs : list A) : Task :=
  match xs with
  | [] => skip
  | x :: rest => andThen (body x) (forEach body rest)
  end.

(** [Promise.all] of calls of [Exec]: every statement is sent, in the order
    of the array, and the promise is rejected when one of them is. *)
Fixpoint all (statements : list Event) : Task :=
  match statements with
  | [] => skip
  | ev :: rest =>
      fun log =>
        match send ev log, all rest (log ++ [ev]) with
        | (Fulfilled, _), settled => settled
        | (Rejected, _), (_, log') => (Rejected, log')
        end
  end.

(** The statement and the parameters of [createCity]. *)
Definition city_statement (city : CityConfig) : Event :=
  Sql true
    "
      INSERT INTO cities (city_name, center, diameter)
      VALUES (?, ?, ?)
      ON DUPLICATE KEY UPDATE
        center = VALUES(center),
        diameter = VALUES(diameter)
    "
    [SqlString (name city);
     SqlString ("POINT(" ++ ToString (fst (lonlat city)) ++ " "
                  ++ ToString (snd (lonlat city)) ++ ")")%string;
     SqlNumber (diameter city)].

Definition createCity (city : CityConfig) : Task :=
  send (city_statement city).

Definition dropDatabase : Task :=
  send (Sql false ("DROP DATABASE IF EXISTS `" ++ database ++ "`")%string []).

Definition truncateData : Task :=
  all (map (fun text => Sql true text [])
         ["TRUNCATE TABLE cities";
          "TRUNCATE TABLE locations";
          "TRUNCATE TABLE notifications";
          "TRUNCATE TABLE offers";
          "TRUNCATE TABLE purchases";
          "TRUNCATE TABLE requests";
          "TRUNCATE TABLE segments";
          "TRUNCATE TABLE sessions";
          "TRUNCATE TABLE subscriber_segments";
          "TRUNCATE TABLE subscribers";
          "TRUNCATE TABLE subscribers_last_notification"]).

Definition dropPipelines : Task :=
  andThen (send (Sql true "STOP ALL PIPELINES" []))
    (all (map (fun pipeline =>
                 Sql true ("DROP PIPELINE IF EXISTS " ++ pipeline)%string [])
            pipelineNames)).

Definition insertSeedData : Task :=
  forEach (fun obj => send (Sql true (SchemaObject.statement obj) [])) SEED.

Definition create (what : string) (obj : SchemaObject.t) : Task :=
  andThen
    (progress ("Creating " ++ what ++ ": " ++ SchemaObject.name obj)%string
       "info")
    (send (Sql true (SchemaObject.statement obj) [])).

Definition resetSchema (includeSeedData resetDataOnly : bool) : Task :=
  andThen
    (if negb resetDataOnly then
       andThen (progress "Dropping existing schema" "info")
         (andThen dropDatabase
            (andThen (progress "Creating database" "info")
               (send (Sql false
                        ("CREATE DATABASE `" ++ database ++ "`")%string []))))
     else skip)
    (andThen
       (if resetDataOnly then
          andThen
            (progress
               "Resetting data. This might take a while. Thanks for your patience"
               "info")
            (andThen dropPipelines truncateData)
        else skip)
       (andThen (forEach (create "function") FUNCTIONS)
          (andThen (forEach (create "table") TABLES)
             (andThen (forEach (create "procedure") PROCEDURES)
                (andThen (progress "Creating New York" "info")
                   (andThen (createCity DEFAULT_CITY)
                      (andThen
                         (if includeSeedData then
                            andThen (progress "Creating sample data" "info")
                              insertSeedData
                          else skip)
                         (progress "Schema initialized" "success")))))))).

(** The statements of a run on which nothing is refused, in the order they
    are sent. *)
Definition reset_plan (includeSeedData resetDataOnly : bool) : list Event :=
  (if resetDataOnly then
     Sql true "STOP ALL PIPELINES" []
     :: map (fun pipeline =>
               Sql true ("DROP PIPELINE IF EXISTS " ++ pipeline)%string [])
          pipelineNames
     ++ map (fun text => Sql true text [])
          ["TRUNCATE TABLE cities";
           "TRUNCATE TABLE locations";
           "TRUNCATE TABLE notifications";
           "TRUNCATE TABLE offers";
           "TRUNCATE TABLE purchases";
           "TRUNCATE TABLE requests";
           "TRUNCATE TABLE segments";
           "TRUNCATE TABLE sessions";
           "TRUNCATE TABLE subscriber_segments";
           "TRUNCATE TABLE subscribers";
           "TRUNCATE TABLE subscribers_last_notification"]
   else
     [Sql false ("DROP DATABASE IF EXISTS `" ++ database ++ "`")%string [];
      Sql false ("CREATE DATABASE `" ++ database ++ "`")%string []])
  ++ map (fun obj => Sql true (SchemaObject.statement obj) [])
       (FUNCTIONS ++ TABLES ++ PROCEDURES)
  ++ [city_statement DEFAULT_CITY]
  ++ (if includeSeedData
      then map (fun obj => Sql true (SchemaObject.statement obj) []) SEED
      else []).

(** A statement among [new] that the database refused, after [log]. *)
Definition refused (log new : list Event) : Prop :=
  exists before ev after,
    new = before ++ ev :: after
    /\ is_sql ev = true
    /\ refuses (log ++ before) ev = true.

(** A task that sends the statements of [plan] in order, stops when a
    statement outside a [Promise.all] is refused, and is rejected exactly
    when a statement it sent was refused; a rejected task ends on a
    statement. *)
Definition follows (task : Task) (plan : list Event) : Prop :=
  forall log,
    exists new,
      snd (task log) = log ++ new
      /\ (fst (task log) = Fulfilled ->
          ~ refused log new /\ List.filter is_sql new = plan)
      /\ (fst (task log) = Rejected ->
          refused log new
          /\ (exists k, List.filter is_sql new = firstn k plan)
          /\ exists ev, last new = Some ev /\ is_sql ev = true).

(** A task whose last event, when it is fulfilled, is [ev]. *)
Definition announces (task : Task) (ev : Event) : Prop :=
  forall log,
    fst (task log) = Fulfilled ->
    exists new, snd (task log) = log ++ new ++ [ev].

End Reset.
(** ** The segment identifier *)

Lemma stringHash_range (str : string) : 0 <= stringHash str < 2 ^ 32.
Proof. unfold stringHash, StringHash.ToUint32. apply Z.mod_pos_bound. lia. Qed.

Lemma ToInt32_range (z : Z) : - 2 ^ 31 <= StringHash.ToInt32 z < 2 ^ 31.
Proof.
  unfold StringHash.ToInt32.
  pose proof (Z.mod_pos_bound (z + 2 ^ 31) (2 ^ 32) ltac:(lia)). lia.
Qed.

Lemma segmentId_range (s : Segment) : 0 <= segmentId s < 2 ^ 32.
Proof. apply stringHash_range. Qed.

(** C2: [segmentId] is the hash of [interval-kind-value], a non-negative
    integer (below [2 ^ 32]), and two segments with the same interval, kind
    and value have the same identifier. *)
Theorem segmentId_deterministic (s s' : Segment) :
  interval s = interval s' -> kind s = kind s' -> value s = value s' ->
  segmentId s
    = stringHash (interval_string (interval s) ++ "-"
                    ++ kind_string (kind s) ++ "-" ++ value s)%string
  /\ 0 <= segmentId s < 2 ^ 32
  /\ segmentId s' = segmentId s.
Proof.
  intros Hi Hk Hv. split; [reflexivity|]. split; [apply segmentId_range|].
  unfold segmentId, segmentKey. rewrite Hi, Hk, Hv. reflexivity.
Qed.

Lemma segmentId_deterministic_witness :
  let s := {| interval := hour; kind := purchase; value := "Acme" |} in
  let s' := {| interval := hour; kind := purchase; value := "Acme" |} in
  segmentId s = 1380002564 /\ 0 <= segmentId s < 2 ^ 32
  /\ segmentId s' = segmentId s.
Proof.
  intros s s'.
  destruct (segmentId_deterministic s s' eq_refl eq_refl eq_refl)
    as (H1 & H2 & H3).
  split; [|split; assumption].
  rewrite H1. vm_compute. reflexivity.
Defined.

(** ** The JSON text of the segment identifiers reads back *)

Lemma of_uint_acc_value (d : Decimal.uint) (acc : positive) :
  Npos (Pos.of_uint_acc d acc) = uint_value d (Npos acc).
Proof.
  revert acc. induction d; intros acc; simpl; try reflexivity;
    rewrite IHd; f_equal; lia.
Qed.

Lemma of_uint_value (d : Decimal.uint) : N.of_uint d = uint_value d 0.
Proof.
  unfold N.of_uint.
  induction d; simpl; try reflexivity; try assumption;
    rewrite of_uint_acc_value; reflexivity.
Qed.

Lemma parse_digit_step (c : ascii) (d : N) (rest : string) (neg : bool)
    (acc : N) (seen : list Z) :
  JSON.digit_value c = Some d -> acc <> 0%N ->
  JSON.parse_elements (String c rest) (JSON.Digits neg acc) seen
  = JSON.parse_elements rest (JSON.Digits neg (10 * acc + d)%N) seen.
Proof.
  intros Hc Hacc. simpl. rewrite Hc.
  destruct (N.eqb_spec acc 0); [contradiction | reflexivity].
Qed.

Lemma parse_digits (d : Decimal.uint) :
  forall neg acc rest seen, acc <> 0%N ->
    JSON.parse_elements (NilEmpty.string_of_uint d ++ rest)
      (JSON.Digits neg acc) seen
    = JSON.parse_elements rest (JSON.Digits neg (uint_value d acc)) seen.
Proof.
  induction d; intros neg acc rest seen Hacc; [reflexivity|..].
  all: change (NilEmpty.string_of_uint (?D d) ++ rest)%string
         with (String (match NilEmpty.string_of_uint (D Decimal.Nil) with
                       | String c _ => c
                       | EmptyString => "0"%char
                       end) (NilEmpty.string_of_uint d ++ rest)).
  all: erewrite parse_digit_step by (reflexivity || assumption).
  all: match goal with
       | |- context [(N_of_ascii ?c - 48)%N] =>
           let v := eval vm_compute in (N_of_ascii c - 48)%N in
           change (N_of_ascii c - 48)%N with v
       end.
  all: rewrite IHd by lia; cbn [uint_value]; f_equal; f_equal; f_equal; lia.
Qed.

Lemma to_uint_shape (n : N) :
  N.to_uint n = Decimal.D0 Decimal.Nil
  \/ exists l, In (N.to_uint n)
                 [Decimal.D1 l; Decimal.D2 l; Decimal.D3 l; Decimal.D4 l;
                  Decimal.D5 l; Decimal.D6 l; Decimal.D7 l; Decimal.D8 l;
                  Decimal.D9 l].
Proof.
  pose proof (DecimalN.Unsigned.to_of (N.to_uint n)) as H.
  rewrite DecimalN.Unsigned.of_to in H.
  destruct (N.to_uint n) as [|l|l|l|l|l|l|l|l|l|l] eqn:E;
    try (right; exists l; simpl; tauto).
  - exfalso. symmetry in H. revert H. apply unorm_nonnil.
  - left. unfold Decimal.unorm in H.
    destruct (Decimal.nzhead (Decimal.D0 l)) eqn:Hz;
      try discriminate H; try exact H.
    exfalso. eapply nzhead_nonzero. exact Hz.
Qed.

Lemma parse_first_digit (c : ascii) (d : N) (rest : string) (neg : bool)
    (seen : list Z) :
  JSON.digit_value c = Some d ->
  JSON.parse_elements (String c rest)
    (if neg then JSON.Sign else JSON.Nothing) seen
  = JSON.parse_elements rest (JSON.Digits neg d) seen.
Proof. intros Hc. destruct neg; simpl; rewrite Hc; reflexivity. Qed.

Lemma parse_numeral (n : N) (neg : bool) (rest : string) (seen : list Z) :
  JSON.parse_elements (JSON.numeral n ++ rest)
    (if neg then JSON.Sign else JSON.Nothing) seen
  = JSON.parse_elements rest (JSON.Digits neg n) seen.
Proof.
  unfold JSON.numeral.
  pose proof (DecimalN.Unsigned.of_to n) as Hn. rewrite of_uint_value in Hn.
  destruct (to_uint_shape n) as [E | [l Hl]].
  - rewrite E in *. simpl in Hn. subst n. destruct neg; reflexivity.
  - simpl in Hl.
    repeat (destruct Hl as [E | Hl]; [rewrite <- E in *; clear E|]);
      try contradiction.
    all: change (NilEmpty.string_of_uint (?D l) ++ rest)%string
           with (String (match NilEmpty.string_of_uint (D Decimal.Nil) with
                         | String c _ => c
                         | EmptyString => "0"%char
                         end) (NilEmpty.string_of_uint l ++ rest)).
    all: erewrite parse_first_digit by reflexivity.
    all: match goal with
         | |- context [(N_of_ascii ?c - 48)%N] =>
             let v := eval vm_compute in (N_of_ascii c - 48)%N in
             change (N_of_ascii c - 48)%N with v
         end.
    all: rewrite parse_digits by lia; rewrite <- Hn; reflexivity.
Qed.

Lemma parse_number_text (z : Z) (rest : string) (seen : list Z) :
  JSON.parse_elements (JSON.number_text z ++ rest) JSON.Nothing seen
  = JSON.parse_elements rest
      (JSON.Digits (z <? 0) (Z.to_N (Z.abs z))) seen
  /\ JSON.literal_value (z <? 0) (Z.to_N (Z.abs z)) = z.
Proof.
  destruct z as [|p|p]; simpl JSON.number_text.
  - split; [apply (parse_numeral 0 false) | reflexivity].
  - split; [apply (parse_numeral (Npos p) false) | reflexivity].
  - split; [|reflexivity].
    change (String "-" (JSON.numeral (N.pos p)) ++ rest)%string
      with (String "-" (JSON.numeral (N.pos p) ++ rest)).
    change (JSON.parse_elements (String "-" ?s) JSON.Nothing seen)
      with (JSON.parse_elements s JSON.Sign seen).
    apply (parse_numeral (Npos p) true).
Qed.

Lemma string_app_cons (x : ascii) (a b : string) :
  (String x a ++ b)%string = String x (a ++ b).
Proof. reflexivity. Qed.

Lemma string_app_assoc (a b c : string) :
  ((a ++ b) ++ c = a ++ (b ++ c))%string.
Proof.
  induction a as [|x a IH]; [reflexivity|].
  rewrite !string_app_cons, IH. reflexivity.
Qed.

Lemma parse_elements_text (zs : list Z) :
  forall seen, zs <> [] ->
    JSON.parse_elements (JSON.elements_text zs ++ "]") JSON.Nothing seen
    = Some (rev seen ++ zs).
Proof.
  induction zs as [|z rest IH]; intros seen Hne; [contradiction|].
  destruct rest as [|z' rest'].
  - simpl JSON.elements_text.
    destruct (parse_number_text z "]" seen) as [-> Hz].
    simpl. rewrite Hz. reflexivity.
  - change (JSON.elements_text (z :: z' :: rest'))
      with (JSON.number_text z ++ "," ++ JSON.elements_text (z' :: rest'))%string.
    rewrite !string_app_assoc.
    destruct (parse_number_text z
                ("," ++ JSON.elements_text (z' :: rest') ++ "]")%string seen)
      as [-> Hz].
    change (("," ++ ?s)%string) with (String "," s).
    change (JSON.parse_elements (String "," ?s) (JSON.Digits ?b ?n) seen)
      with (JSON.parse_elements s JSON.Nothing (JSON.literal_value b n :: seen)).
    rewrite Hz, IH by discriminate.
    simpl. rewrite <- app_assoc. reflexivity.
Qed.

Lemma elements_text_first (z : Z) (rest : list Z) :
  exists c s, (JSON.elements_text (z :: rest) ++ "]")%string = String c s
              /\ c <> "]"%char.
Proof.
  assert (Hnum : forall n, exists c s,
             JSON.numeral n = String c s /\ c <> "]"%char).
  { intros n. unfold JSON.numeral.
    destruct (to_uint_shape n) as [E | [l Hl]].
    - rewrite E. eexists _, _. split; [reflexivity | discriminate].
    - simpl in Hl.
      repeat (destruct Hl as [E | Hl]; [rewrite <- E|]); try contradiction;
        eexists _, _; (split; [reflexivity | discriminate]). }
  assert (Hz : exists c s, JSON.number_text z = String c s /\ c <> "]"%char).
  { destruct z as [|p|p]; simpl; [apply Hnum | apply Hnum |].
    eexists _, _. split; [reflexivity | discriminate]. }
  destruct Hz as (c & s & E & Hc).
  destruct rest as [|z' rest'].
  - simpl. rewrite E. eexists _, _. split; [reflexivity | exact Hc].
  - change (JSON.elements_text (z :: z' :: rest'))
      with (JSON.number_text z ++ "," ++ JSON.elements_text (z' :: rest'))%string.
    rewrite E. eexists _, _. split; [reflexivity | exact Hc].
Qed.

(** [JSON.parse] reads back what [JSON.stringify] wrote. *)
Lemma parse_stringify (zs : list Z) : JSON.parse (JSON.stringify zs) = Some zs.
Proof.
  destruct zs as [|z rest]; [reflexivity|].
  unfold JSON.stringify.
  change ("[" ++ ?s)%string with (String "[" s).
  destruct (elements_text_first z rest) as (c & s & E & Hc).
  pose proof (parse_elements_text (z :: rest) [] ltac:(discriminate)) as H.
  rewrite E in *. unfold JSON.parse.
  destruct s as [|c' s'].
  - destruct (Ascii.eqb_spec c "]"); [contradiction|].
    destruct c as [[] [] [] [] [] [] [] []]; try exact H; contradiction.
  - destruct c as [[] [] [] [] [] [] [] []]; exact H.
Qed.

(** ** The writers *)

Lemma segments_stmt_tuples (segs : list Segment) (b : MultiReplace.t) :
  fold_left (fun b s => MultiReplace.append (segment_row s) b) segs b
  = MultiReplace.Build_t (MultiReplace.table b) (MultiReplace.columns b)
      (MultiReplace.tuples b ++ map segment_row segs).
Proof.
  revert b. induction segs as [|s segs IH]; intros b; simpl.
  - rewrite app_nil_r. destruct b; reflexivity.
  - rewrite IH. simpl. rewrite <- app_assoc. reflexivity.
Qed.

Lemma segments_stmt_build (segs : list Segment) :
  MultiReplace.build (segments_stmt segs) = segments_write segs.
Proof. unfold segments_stmt. rewrite segments_stmt_tuples. reflexivity. Qed.

Lemma holds_empty (c : number) :
  holds c [] {| stmt := offers_stmt; numOffers := 0; pending := [] |}.
Proof. repeat split. Qed.

Lemma holds_accumulate (c : number) (cur : list Offer) (o : Offer) (b : Batch) :
  holds c cur b -> holds c (cur ++ [o]) (accumulate c o b).
Proof.
  intros (Hs & Hn & Hp). unfold accumulate, holds. simpl.
  rewrite Hs, Hn, Hp, !map_app, concat_app, length_app. simpl.
  rewrite app_nil_r. repeat split. lia.
Qed.

Lemma holds_build (c : number) (cur : list Offer) (b : Batch) :
  holds c cur b -> MultiReplace.build (stmt b) = offers_write c cur.
Proof. intros (Hs & _). rewrite Hs. reflexivity. Qed.

Section WritersFacts.

Variable rejects : Trace -> Statement -> bool.

(** One flush: both statements join the trace whatever the verdicts, and
    the batch is emptied only when neither write is rejected. *)
Lemma commitBatch_holds (c : number) (cur : list Offer) (b : Batch)
    (tr : Trace) :
  holds c cur b ->
  commitBatch rejects b tr
  = if flush_rejected rejects c cur tr
    then (Rejected, b, tr ++ flush c cur)
    else (Fulfilled,
          {| stmt := MultiReplace.clear (stmt b); numOffers := 0;
             pending := [] |},
          tr ++ flush c cur).
Proof.
  intros H. unfold commitBatch, createSegments, Exec, flush_rejected, flush.
  rewrite segments_stmt_build, (holds_build c cur b H).
  destruct H as (_ & _ & ->). rewrite <- app_assoc. simpl.
  destruct (rejects tr _), (rejects (tr ++ _) _); reflexivity.
Qed.

Lemma holds_cleared (c : number) (cur : list Offer) (b : Batch) :
  holds c cur b ->
  holds c [] {| stmt := MultiReplace.clear (stmt b); numOffers := 0;
                pending := [] |}.
Proof. intros (Hs & _). rewrite Hs. repeat split. Qed.

(** The loop followed by the final flush runs the batches of the input. *)
Lemma offers_loop_run (c : number) (offers : list Offer) :
  forall cur b tr,
    holds c cur b -> (length cur < MAX_OFFERS_PER_BATCH)%nat ->
    exists b',
      finish rejects (offers_loop rejects c offers b tr)
      = (fst (fst (run_batches rejects c (batches_from cur offers) tr)),
         b',
         snd (run_batches rejects c (batches_from cur offers) tr))
      /\ holds c (snd (fst (run_batches rejects c (batches_from cur offers) tr))) b'.
Proof.
  induction offers as [|o rest IH]; intros cur b tr H Hlen.
  - simpl offers_loop. unfold finish.
    pose proof H as (_ & Hn & _). rewrite Hn.
    destruct cur as [|x cur]; simpl.
    + exists b. split; [reflexivity | exact H].
    + rewrite (commitBatch_holds c _ b tr H).
      destruct (flush_rejected rejects c (x :: cur) tr); simpl.
      * exists b. split; [reflexivity | exact H].
      * eexists. split; [reflexivity | eapply holds_cleared; exact H].
  - pose proof (holds_accumulate c cur o b H) as H1.
    cbn [offers_loop batches_from].
    destruct H1 as (Hs1 & Hn1 & Hp1) eqn:E. clear E.
    rewrite Hn1.
    destruct (MAX_OFFERS_PER_BATCH <=? length (cur ++ [o]))%nat eqn:Hfull.
    + rewrite (commitBatch_holds c (cur ++ [o]) _ tr
                 (conj Hs1 (conj Hn1 Hp1))).
      cbn [run_batches].
      destruct (flush_rejected rejects c (cur ++ [o]) tr).
      * exists (accumulate c o b). split; [reflexivity|].
        exact (conj Hs1 (conj Hn1 Hp1)).
      * apply IH; [eapply holds_cleared; exact (conj Hs1 (conj Hn1 Hp1))|].
        unfold MAX_OFFERS_PER_BATCH. simpl. lia.
    + apply IH; [exact (conj Hs1 (conj Hn1 Hp1))|].
      apply Nat.leb_gt in Hfull. exact Hfull.
Qed.

Lemma createOffers_finish (offers : list Offer) (cid : option number)
    (tr : Trace) :
  createOffers rejects offers cid tr
  = finish rejects (offers_loop rejects (default DEFAULT_CUSTOMER_ID cid) offers
              {| stmt := offers_stmt; numOffers := 0; pending := [] |} tr).
Proof.
  unfold createOffers, finish.
  destruct (offers_loop _ _ _ _ _) as [[[] b] tr']; reflexivity.
Qed.

(** [createOffers] flushes the batches of its input in order and stops at
    the first rejected flush, still holding that batch. *)
Lemma createOffers_run (offers : list Offer) (cid : option number)
    (tr : Trace) :
  let c := default DEFAULT_CUSTOMER_ID cid in
  exists b',
    createOffers rejects offers cid tr
    = (fst (fst (run_batches rejects c (batches offers) tr)), b',
       snd (run_batches rejects c (batches offers) tr))
    /\ holds c (snd (fst (run_batches rejects c (batches offers) tr))) b'.
Proof.
  intros c. rewrite createOffers_finish.
  apply offers_loop_run; [apply holds_empty|].
  unfold MAX_OFFERS_PER_BATCH. simpl. lia.
Qed.

End WritersFacts.

(** ** Batches *)

Lemma batches_from_concat (offers : list Offer) :
  forall cur, concat (batches_from cur offers) = cur ++ offers.
Proof.
  induction offers as [|o rest IH]; intros cur; cbn [batches_from].
  - destruct cur; simpl; rewrite ?app_nil_r; reflexivity.
  - destruct (MAX_OFFERS_PER_BATCH <=? length (cur ++ [o]))%nat;
      cbn [concat]; rewrite IH, <- ?app_assoc; reflexivity.
Qed.

Lemma batches_from_length (offers : list Offer) :
  forall cur, (length cur < MAX_OFFERS_PER_BATCH)%nat ->
    length (batches_from cur offers)
    = ceil_batches (length cur + length offers).
Proof.
  unfold ceil_batches.
  assert (HM : MAX_OFFERS_PER_BATCH = 500%nat) by reflexivity.
  induction offers as [|o rest IH]; intros cur Hcur; cbn [batches_from].
  - destruct cur as [|x cur]; cbn [length] in *; rewrite HM in *.
    + reflexivity.
    + apply (Nat.div_unique _ 500 1 (length cur)%nat); lia.
  - destruct (Nat.leb_spec MAX_OFFERS_PER_BATCH (length (cur ++ [o])))
      as [Hfull | Hroom]; rewrite length_app in *; cbn [length] in *.
    + rewrite IH by (cbn [length]; lia). cbn [length]. rewrite HM in *.
      replace (length cur + S (length rest) + (500 - 1))%nat
        with (1 * 500 + (0 + length rest + (500 - 1)))%nat by lia.
      rewrite Nat.div_add_l by lia. reflexivity.
    + rewrite IH by (rewrite length_app; cbn [length]; lia).
      rewrite length_app. cbn [length]. f_equal. lia.
Qed.

Lemma batches_length (offers : list Offer) :
  length (batches offers) = ceil_batches (length offers).
Proof.
  unfold batches. rewrite batches_from_length; [reflexivity|].
  unfold MAX_OFFERS_PER_BATCH. simpl. lia.
Qed.

Lemma batches_concat (offers : list Offer) : concat (batches offers) = offers.
Proof. apply batches_from_concat. Qed.

(** ** Traces of flushes *)

Lemma issued_app (tr new : Trace) : issued tr (tr ++ new) = new.
Proof.
  unfold issued. induction tr as [|st tr IH]; [reflexivity | exact IH].
Qed.

Lemma flushes_offers (c : number) (bs : list (list Offer)) :
  List.filter is_offers (concat (map (flush c) bs)) = map (offers_write c) bs.
Proof. induction bs as [|b bs IH]; [reflexivity|]. simpl. rewrite <- IH. reflexivity. Qed.

Lemma flushes_segments (c : number) (bs : list (list Offer)) :
  List.filter is_segments (concat (map (flush c) bs))
  = map (fun b => segments_write (concat (map segments b))) bs.
Proof. induction bs as [|b bs IH]; [reflexivity|]. simpl. rewrite <- IH. reflexivity. Qed.

Lemma flushes_rows (c : number) (bs : list (list Offer)) :
  offers_rows (concat (map (flush c) bs)) = map (offer_row c) (concat bs).
Proof.
  unfold offers_rows. rewrite flushes_offers.
  induction bs as [|b bs IH]; [reflexivity|].
  simpl. rewrite IH, map_app. reflexivity.
Qed.

Section RunFacts.

Variable rejects : Trace -> Statement -> bool.

Lemma run_batches_prefix (c : number) (bs : list (list Offer)) :
  forall tr,
  exists k, (k <= length bs)%nat
    /\ snd (run_batches rejects c bs tr)
       = tr ++ concat (map (flush c) (firstn k bs))
    /\ (fst (fst (run_batches rejects c bs tr)) = Fulfilled -> k = length bs).
Proof.
  induction bs as [|b bs IH]; intros tr.
  - exists 0%nat. simpl. rewrite (app_nil_r tr). auto.
  - cbn [run_batches]. destruct (flush_rejected rejects c b tr).
    + exists 1%nat. simpl.
      repeat split; [lia | discriminate].
    + destruct (IH (tr ++ flush c b)) as (k & Hk & Htr & Hok).
      exists (S k). rewrite Htr.
      cbn [firstn map concat length]. rewrite <- app_assoc.
      repeat split; [lia | auto].
Qed.

Lemma run_batches_fulfilled (c : number) (bs : list (list Offer)) (tr : Trace) :
  fst (fst (run_batches rejects c bs tr)) = Fulfilled ->
  snd (run_batches rejects c bs tr) = tr ++ concat (map (flush c) bs).
Proof.
  intros Hok. destruct (run_batches_prefix c bs tr) as (k & _ & Htr & Hk).
  rewrite Htr, (Hk Hok), firstn_all. reflexivity.
Qed.

Lemma run_batches_rejected (c : number) (bs : list (list Offer)) :
  forall tr,
    fst (fst (run_batches rejects c bs tr)) = Rejected ->
    In (snd (fst (run_batches rejects c bs tr))) bs.
Proof.
  induction bs as [|b bs IH]; intros tr; cbn [run_batches].
  - discriminate.
  - destruct (flush_rejected rejects c b tr); simpl.
    + auto.
    + intros H. right. apply IH. exact H.
Qed.

Lemma run_batches_accepting (c : number) (bs : list (list Offer)) :
  (forall tr st, rejects tr st = false) ->
  forall tr, fst (fst (run_batches rejects c bs tr)) = Fulfilled.
Proof.
  intros Hacc. induction bs as [|b bs IH]; intros tr; cbn [run_batches].
  - reflexivity.
  - unfold flush_rejected. rewrite !Hacc. simpl. apply IH.
Qed.

(** With a database that rejects nothing [createOffers] is fulfilled. *)
Lemma createOffers_accepting (offers : list Offer) (cid : option number)
    (tr : Trace) :
  (forall tr st, rejects tr st = false) ->
  fst (fst (createOffers rejects offers cid tr)) = Fulfilled.
Proof.
  intros Hacc. destruct (createOffers_run rejects offers cid tr) as (b' & -> & _).
  simpl. apply run_batches_accepting. exact Hacc.
Qed.

(** A rejected call still holds the batch whose flush failed. *)
Lemma createOffers_rejected_holds (offers : list Offer)
    (cid : option number) (tr : Trace) (b' : Batch) (tr' : Trace) :
  createOffers rejects offers cid tr = (Rejected, b', tr') ->
  exists batch, In batch (batches offers)
                /\ holds (default DEFAULT_CUSTOMER_ID cid) batch b'.
Proof.
  intros Hrun.
  destruct (createOffers_run rejects offers cid tr) as (b'' & E & Hh).
  rewrite Hrun in E. injection E as Hr Hb Ht. subst b''.
  eexists. split; [|exact Hh].
  apply run_batches_rejected. symmetry. exact Hr.
Qed.

End RunFacts.

(** ** What [createOffers] sends *)

(** C1: a fulfilled call of [createOffers] on [N] offers performs exactly
    [ceil (N / 500)] flushes, each one the offers statement of a batch paired
    with the segments write of that batch, and the rows sent to the offers
    relation number exactly [N]; for no offers nothing is issued. *)
Theorem createOffers_batching (rejects : Trace -> Statement -> bool)
    (offers : list Offer) (customerId : option number) (tr : Trace)
    (b : Batch) (tr' : Trace) :
  createOffers rejects offers customerId tr = (Fulfilled, b, tr') ->
  let new := issued tr tr' in
  new = concat (map (flush (default DEFAULT_CUSTOMER_ID customerId))
                  (batches offers))
  /\ length (List.filter is_offers new) = ceil_batches (length offers)
  /\ length (List.filter is_segments new) = ceil_batches (length offers)
  /\ length (offers_rows new) = length offers
  /\ (offers = [] -> new = []).
Proof.
  intros Hrun new.
  destruct (createOffers_run rejects offers customerId tr) as (b' & E & _).
  rewrite Hrun in E. injection E as Hr _ Ht.
  assert (Hnew : new = concat (map (flush (default DEFAULT_CUSTOMER_ID customerId))
                                 (batches offers))).
  { unfold new. rewrite Ht, run_batches_fulfilled by (symmetry; exact Hr).
    apply issued_app. }
  split; [exact Hnew|]. rewrite Hnew.
  rewrite flushes_offers, flushes_segments, flushes_rows, !length_map,
    batches_concat, batches_length.
  repeat split. intros ->. reflexivity.
Qed.

Lemma createOffers_batching_witness :
  let offer :=
    {| segments := [{| interval := day; kind := purchase; value := "Acme" |}];
       notificationZone := "POLYGON((0 0,0 1,1 1,1 0,0 0))";
       notificationContent := "10% off at Acme";
       notificationTarget := "https://acme.com/s2cellular?offerId=1";
       maximumBidCents := Number.of_Z 5 |} in
  let res := createOffers (fun _ _ => false) (repeat offer 1200) None [] in
  fst (fst res) = Fulfilled
  /\ length (List.filter is_offers (issued [] (snd res))) = 3%nat
  /\ length (List.filter is_segments (issued [] (snd res))) = 3%nat
  /\ length (offers_rows (issued [] (snd res))) = 1200%nat.
Proof.
  intros offer res.
  assert (Hok : fst (fst res) = Fulfilled)
    by (apply createOffers_accepting; reflexivity).
  assert (Hres : res = (Fulfilled, snd (fst res), snd res))
    by (rewrite <- Hok; destruct res as [[r b] tr']; reflexivity).
  destruct (createOffers_batching _ _ _ _ _ _ Hres) as (_ & H1 & H2 & H3 & _).
  rewrite repeat_length in *.
  split; [exact Hok|]. split; [exact H1|]. split; [exact H2 | exact H3].
Defined.

(** *** What the database keeps of a flush *)

Lemma committed_app (rejects : Trace -> Statement -> bool)
    (new1 new2 : Trace) :
  forall before,
    committed rejects before (new1 ++ new2)
    = committed rejects before new1
      ++ committed rejects (before ++ new1) new2.
Proof.
  induction new1 as [|st new1 IH]; intros before; cbn [app committed].
  - rewrite app_nil_r. reflexivity.
  - rewrite IH, <- !app_assoc. reflexivity.
Qed.

(** Of the two statements of a flush the database keeps those it accepts,
    each on its own verdict. *)
Lemma committed_flush (rejects : Trace -> Statement -> bool) (c : number)
    (batch : list Offer) (tr : Trace) :
  committed rejects tr (flush c batch)
  = (if rejects tr (offers_write c batch) then []
     else [offers_write c batch])
    ++ (if rejects (tr ++ [offers_write c batch])
             (segments_write (concat (map segments batch)))
        then [] else [segments_write (concat (map segments batch))]).
Proof. unfold flush. cbn [committed]. rewrite app_nil_r. reflexivity. Qed.

Lemma committed_flush_accepted (rejects : Trace -> Statement -> bool)
    (c : number) (batch : list Offer) (tr : Trace) :
  flush_rejected rejects c batch tr = false ->
  committed rejects tr (flush c batch) = flush c batch.
Proof.
  rewrite committed_flush. unfold flush_rejected, flush. intros H.
  apply orb_false_elim in H as [-> ->]. reflexivity.
Qed.

Lemma committed_flush_rejected (rejects : Trace -> Statement -> bool)
    (c : number) (batch : list Offer) (tr : Trace) :
  flush_rejected rejects c batch tr = true ->
  (length (committed rejects tr (flush c batch)) < 2)%nat.
Proof.
  rewrite committed_flush. unfold flush_rejected. intros H.
  destruct (rejects tr _), (rejects (tr ++ _) _); cbn;
    first [lia | discriminate H].
Qed.

Lemma firstn_S_nth_error {A} (l : list A) :
  forall k x, nth_error l k = Some x -> firstn (S k) l = firstn k l ++ [x].
Proof.
  induction l as [|y l IH]; intros [|k] x H; try discriminate.
  - injection H as ->. reflexivity.
  - cbn [nth_error] in H. cbn [firstn app]. f_equal.
    apply (IH k x H).
Qed.

(** The flushes that ran before the one that failed were kept in full, and
    so were all of them when none failed. *)
Lemma run_batches_committed (rejects : Trace -> Statement -> bool)
    (c : number) (bs : list (list Offer)) :
  forall tr,
    match run_batches rejects c bs tr with
    | (Fulfilled, _, tr') =>
        tr' = tr ++ concat (map (flush c) bs)
        /\ committed rejects tr (concat (map (flush c) bs))
           = concat (map (flush c) bs)
    | (Rejected, batch, tr') =>
        exists k,
          nth_error bs k = Some batch
          /\ tr' = tr ++ concat (map (flush c) (firstn k bs)) ++ flush c batch
          /\ committed rejects tr
               (concat (map (flush c) (firstn k bs)) ++ flush c batch)
             = concat (map (flush c) (firstn k bs))
               ++ committed rejects
                    (tr ++ concat (map (flush c) (firstn k bs)))
                    (flush c batch)
          /\ flush_rejected rejects c batch
               (tr ++ concat (map (flush c) (firstn k bs))) = true
    end.
Proof.
  induction bs as [|b bs IH]; intros tr; cbn [run_batches].
  - cbn. rewrite app_nil_r. split; reflexivity.
  - destruct (flush_rejected rejects c b tr) eqn:Hrej.
    + exists 0%nat. cbn [nth_error firstn map concat app].
      rewrite app_nil_r. repeat split. exact Hrej.
    + specialize (IH (tr ++ flush c b)).
      destruct (run_batches rejects c bs (tr ++ flush c b)) as [[[] batch] tr'].
      * destruct IH as [-> Hall]. cbn [map concat].
        rewrite <- app_assoc. split; [reflexivity|].
        rewrite committed_app, Hall, committed_flush_accepted by exact Hrej.
        reflexivity.
      * destruct IH as (k & Hk & -> & Hkept & Hlast).
        exists (S k). cbn [nth_error firstn map concat].
        rewrite <- !app_assoc. split; [exact Hk|]. split; [reflexivity|].
        split; [|rewrite app_assoc; exact Hlast].
        rewrite committed_app, Hkept, committed_flush_accepted by exact Hrej.
        rewrite <- !app_assoc. reflexivity.
Qed.

(** C3: a flush issues the offers statement of the batch and then the
    segments statement of the same batch, whatever the verdict on either,
    and is fulfilled exactly when neither write is rejected.  The two writes
    are independent of each other: the database keeps of a flush the
    statements it accepts, so that a failed flush can leave the offers
    without their segments or the segments without their offers, and
    nothing is taken back.  In a call of [createOffers] the statements
    issued are the flushes of the first batches of the input; a fulfilled
    call has had every statement accepted, and in a rejected call every
    flush but the last was kept in full while the last, the one that
    failed, was kept in part or not at all. *)
Theorem commitBatch_joint (rejects : Trace -> Statement -> bool)
    (b : Batch) (tr : Trace) :
  let offers_st := MultiReplace.build (stmt b) in
  let segments_st := MultiReplace.build (segments_stmt (pending b)) in
  snd (commitBatch rejects b tr) = tr ++ [offers_st; segments_st]
  /\ fst (fst (commitBatch rejects b tr))
     = (if rejects tr offers_st || rejects (tr ++ [offers_st]) segments_st
        then Rejected else Fulfilled)
  /\ committed rejects tr [offers_st; segments_st]
     = (if rejects tr offers_st then [] else [offers_st])
       ++ (if rejects (tr ++ [offers_st]) segments_st then []
           else [segments_st])
  /\ forall offers customerId,
       let res := createOffers rejects offers customerId tr in
       let c := default DEFAULT_CUSTOMER_ID customerId in
       exists k,
         snd res = tr ++ concat (map (flush c) (firstn k (batches offers)))
         /\ (fst (fst res) = Fulfilled ->
             k = length (batches offers)
             /\ committed rejects tr (issued tr (snd res))
                = issued tr (snd res))
         /\ (fst (fst res) = Rejected ->
             exists k' batch,
               k = S k'
               /\ nth_error (batches offers) k' = Some batch
               /\ let kept :=
                    concat (map (flush c) (firstn k' (batches offers))) in
                  committed rejects tr (issued tr (snd res))
                  = kept ++ committed rejects (tr ++ kept) (flush c batch)
                  /\ (length (committed rejects (tr ++ kept) (flush c batch))
                      < 2)%nat).
Proof.
  intros offers_st segments_st.
  unfold commitBatch, createSegments, Exec.
  fold offers_st. fold segments_st.
  split; [|split; [|split]].
  - destruct (rejects tr offers_st), (rejects (tr ++ [offers_st]) segments_st);
      simpl; rewrite <- app_assoc; reflexivity.
  - destruct (rejects tr offers_st), (rejects (tr ++ [offers_st]) segments_st);
      reflexivity.
  - cbn [committed]. rewrite app_nil_r. reflexivity.
  - intros offers customerId.
    set (c := default DEFAULT_CUSTOMER_ID customerId).
    destruct (createOffers_run rejects offers customerId tr) as (b' & -> & _).
    fold c. cbn [fst snd].
    pose proof (run_batches_committed rejects c (batches offers) tr) as Hrun.
    destruct (run_batches rejects c (batches offers) tr) as [[[] batch] tr'];
      cbn [fst snd].
    + destruct Hrun as [-> Hall]. exists (length (batches offers)).
      rewrite firstn_all, issued_app.
      split; [reflexivity|]. split; [auto | discriminate].
    + destruct Hrun as (k' & Hk & -> & Hkept & Hlast). exists (S k').
      assert (Htake : concat (map (flush c) (firstn (S k') (batches offers)))
                      = concat (map (flush c) (firstn k' (batches offers)))
                        ++ flush c batch).
      { rewrite (firstn_S_nth_error _ _ _ Hk), map_app, concat_app.
        cbn [map concat]. rewrite app_nil_r. reflexivity. }
      rewrite Htake, issued_app. split; [reflexivity|].
      split; [discriminate|]. intros _. exists k', batch.
      split; [reflexivity|]. split; [exact Hk|]. cbv zeta.
      split; [exact Hkept|]. apply committed_flush_rejected. exact Hlast.
Qed.

(** A flush that keeps the offers and not their segments, and one that keeps
    the segments and not their offers. *)
Lemma flush_keeps_one_write :
  let offer :=
    {| segments := [{| interval := day; kind := purchase; value := "Acme" |}];
       notificationZone := "POLYGON((0 0,0 1,1 1,1 0,0 0))";
       notificationContent := "10% off at Acme";
       notificationTarget := "https://acme.com/s2cellular?offerId=1";
       maximumBidCents := Number.of_Z 5 |} in
  let b := accumulate DEFAULT_CUSTOMER_ID offer
             {| stmt := offers_stmt; numOffers := 0; pending := [] |} in
  let offers_st := MultiReplace.build (stmt b) in
  let segments_st := MultiReplace.build (segments_stmt (pending b)) in
  let segments_down := fun (_ : Trace) st => is_segments st in
  let offers_down := fun (_ : Trace) st => is_offers st in
  committed segments_down [] (snd (commitBatch segments_down b []))
  = [offers_st]
  /\ committed offers_down [] (snd (commitBatch offers_down b []))
     = [segments_st]
  /\ length (rows offers_st) = 1%nat
  /\ length (rows segments_st) = 1%nat
  /\ committed segments_down []
       (snd (createOffers segments_down [offer] None []))
     = [offers_st].
Proof. repeat split. Qed.

(** C8: when either write of a flush is rejected, [commitBatch] is rejected
    and leaves the builder, the pending segments and the counter as they
    were; a call of [createOffers] that ends rejected therefore still holds
    the rows, the segments and the count of the batch whose flush failed. *)
Theorem commitBatch_rejected_keeps_batch (rejects : Trace -> Statement -> bool)
    (b : Batch) (tr : Trace) :
  let offers_st := MultiReplace.build (stmt b) in
  let segments_st := MultiReplace.build (segments_stmt (pending b)) in
  rejects tr offers_st = true
  \/ rejects (tr ++ [offers_st]) segments_st = true ->
  commitBatch rejects b tr = (Rejected, b, tr ++ [offers_st; segments_st])
  /\ stmt (snd (fst (commitBatch rejects b tr))) = stmt b
  /\ pending (snd (fst (commitBatch rejects b tr))) = pending b
  /\ numOffers (snd (fst (commitBatch rejects b tr))) = numOffers b
  /\ forall offers customerId tr0 b' tr',
       createOffers rejects offers customerId tr0 = (Rejected, b', tr') ->
       exists batch,
         In batch (batches offers)
         /\ holds (default DEFAULT_CUSTOMER_ID customerId) batch b'.
Proof.
  intros offers_st segments_st Hrej.
  assert (E : commitBatch rejects b tr
              = (Rejected, b, tr ++ [offers_st; segments_st])).
  { unfold commitBatch, createSegments, Exec.
    fold offers_st. fold segments_st. rewrite <- app_assoc. simpl.
    destruct (rejects tr offers_st), (rejects (tr ++ [offers_st]) segments_st);
      try reflexivity.
    destruct Hrej; discriminate. }
  rewrite E. repeat split.
  intros offers customerId tr0 b' tr'. apply createOffers_rejected_holds.
Qed.

Lemma commitBatch_rejected_keeps_batch_witness :
  let offer :=
    {| segments := [{| interval := day; kind := purchase; value := "Acme" |}];
       notificationZone := "POLYGON((0 0,0 1,1 1,1 0,0 0))";
       notificationContent := "10% off at Acme";
       notificationTarget := "https://acme.com/s2cellular?offerId=1";
       maximumBidCents := Number.of_Z 5 |} in
  let b := accumulate DEFAULT_CUSTOMER_ID offer
             {| stmt := offers_stmt; numOffers := 0; pending := [] |} in
  let segments_down := fun (_ : Trace) st => is_segments st in
  fst (fst (commitBatch segments_down b [])) = Rejected
  /\ snd (fst (commitBatch segments_down b [])) = b
  /\ numOffers (snd (fst (commitBatch segments_down b []))) = 1%nat.
Proof.
  intros offer b segments_down.
  destruct (commitBatch_rejected_keeps_batch segments_down b [])
    as (E & _ & _ & Hn & _).
  - right. reflexivity.
  - rewrite E. repeat split.
Defined.

(** C9: when [createOffers] is called without a customer id, every row it
    appends to the offers builder, sent or still held at the end, carries
    the default customer id [0] in its first column, [customer_id]. *)
Theorem createOffers_default_customer (rejects : Trace -> Statement -> bool)
    (offers : list Offer) (tr : Trace) :
  let res := createOffers rejects offers None tr in
  let default_id row := nth_error row 0 = Some (SqlNumber DEFAULT_CUSTOMER_ID) in
  DEFAULT_CUSTOMER_ID = S754_zero false
  /\ Forall (fun st => nth_error (fields st) 0 = Some "customer_id")
       (List.filter is_offers (issued tr (snd res)))
  /\ Forall default_id (offers_rows (issued tr (snd res)))
  /\ Forall default_id (MultiReplace.tuples (stmt (snd (fst res)))).
Proof.
  intros res default_id. split; [reflexivity|].
  destruct (createOffers_run rejects offers None tr) as (b' & E & Hheld).
  destruct (run_batches_prefix rejects DEFAULT_CUSTOMER_ID (batches offers) tr)
    as (k & _ & Htr & _).
  unfold res. rewrite E. cbn [fst snd default] in *.
  rewrite Htr, issued_app, flushes_offers, flushes_rows.
  destruct Hheld as (-> & _). cbn [MultiReplace.tuples].
  split; [|split]; apply List.Forall_forall; intros x Hin;
    apply in_map_iff in Hin; destruct Hin as (y & <- & _); reflexivity.
Qed.

(** The [segment_ids] column of the row of an offer reads back as the
    identifiers of its segments, in order. *)
Lemma offer_row_segment_ids (c : number) (o : Offer) :
  segment_ids_column (offer_row c o) = Some (map segmentId (segments o)).
Proof. unfold segment_ids_column, offer_row. simpl. apply parse_stringify. Qed.

Lemma concat_firstn_prefix {A} (k : nat) (bs : list (list A)) :
  firstn (length (concat (firstn k bs))) (concat bs) = concat (firstn k bs).
Proof.
  rewrite <- (firstn_skipn k bs) at 2.
  rewrite concat_app. apply take_app_length.
Qed.

(** C4: the rows [createOffers] sends to the offers relation are those of
    the first offers of its input, all of them when the call is fulfilled,
    and parsing the [segment_ids] column of each yields the identifiers of
    that offer's segments in the offer's own order. *)
Theorem createOffers_segment_ids (rejects : Trace -> Statement -> bool)
    (offers : list Offer) (customerId : option number) (tr : Trace) :
  let res := createOffers rejects offers customerId tr in
  exists n,
    map segment_ids_column (offers_rows (issued tr (snd res)))
    = map (fun o => Some (map segmentId (segments o))) (firstn n offers)
    /\ (fst (fst res) = Fulfilled -> n = length offers).
Proof.
  intros res. unfold res.
  destruct (createOffers_run rejects offers customerId tr) as (b' & E & _).
  set (c := default DEFAULT_CUSTOMER_ID customerId) in *.
  destruct (run_batches_prefix rejects c (batches offers) tr)
    as (k & _ & Htr & Hk).
  rewrite E. cbn [fst snd]. rewrite Htr, issued_app, flushes_rows.
  exists (length (concat (firstn k (batches offers)))). split.
  - rewrite map_map.
    pose proof (concat_firstn_prefix k (batches offers)) as Hp.
    rewrite batches_concat in Hp. rewrite Hp.
    apply map_ext. intros o. apply offer_row_segment_ids.
  - intros Hok. rewrite (Hk Hok), firstn_all, batches_concat. reflexivity.
Qed.

(** ** A segment shared by two offers of a batch *)

Lemma batches_pair (a b : Offer) : batches [a; b] = [[a; b]].
Proof. reflexivity. Qed.

Lemma replace_row_segment (rel : gmap Z (list SQLValue)) (s : Segment) :
  replace_row rel (segment_row s) = <[segmentId s := segment_row s]> rel.
Proof. reflexivity. Qed.

(** C5, as stated, fails: with offers [A] on [s1; s2] and [B] on [s2; s3] in
    one batch, the segments statement of the flush carries the row of [s2]
    twice, not once. *)
Lemma shared_segment_row_sent_twice :
  let s1 := {| interval := day; kind := purchase; value := "Acme" |} in
  let s2 := {| interval := hour; kind := request; value := "acme.com" |} in
  let s3 := {| interval := week; kind := olc_8; value := "87G8P27Q" |} in
  let offer segs :=
    {| segments := segs;
       notificationZone := "POLYGON((0 0,0 1,1 1,1 0,0 0))";
       notificationContent := "10% off at Acme";
       notificationTarget := "https://acme.com/s2cellular?offerId=1";
       maximumBidCents := Number.of_Z 5 |} in
  let res := createOffers (fun _ _ => false)
               [offer [s1; s2]; offer [s2; s3]] None [] in
  exists st,
    List.filter is_segments (snd res) = [st]
    /\ rows st = [segment_row s1; segment_row s2; segment_row s2; segment_row s3]
    /\ times_written s2 st = 2%nat
    /\ times_written s2 st <> 1%nat.
Proof.
  intros s1 s2 s3 offer res. eexists.
  split; [vm_compute; reflexivity|].
  split; [vm_compute; reflexivity|].
  split; [vm_compute; reflexivity|].
  vm_compute. discriminate.
Qed.

(** C5, amended: with offers [A] on [s1; s2] and [B] on [s2; s3] in one
    batch, the flush issues the offers statement and one segments statement
    whose rows are those of [s1], [s2], [s2] and [s3], one per reference and
    in that order; the writers make no duplicate check of their own, the
    call being rejected only when the database rejects one of the two
    statements; and under replace-on-conflict the segments relation ends as
    if each of [s1], [s2] and [s3] had been written once. *)
Theorem createOffers_shared_segment (rejects : Trace -> Statement -> bool)
    (s1 s2 s3 : Segment) (A B : Offer) (customerId : option number)
    (tr : Trace) :
  segments A = [s1; s2] -> segments B = [s2; s3] ->
  let c := default DEFAULT_CUSTOMER_ID customerId in
  let res := createOffers rejects [A; B] customerId tr in
  let write := segments_write [s1; s2; s2; s3] in
  issued tr (snd res) = [offers_write c [A; B]; write]
  /\ rows write
     = [segment_row s1; segment_row s2; segment_row s2; segment_row s3]
  /\ fst (fst res)
     = (if rejects tr (offers_write c [A; B])
           || rejects (tr ++ [offers_write c [A; B]]) write
        then Rejected else Fulfilled)
  /\ forall rel,
       replace_rows rel (rows write)
       = replace_rows rel [segment_row s1; segment_row s2; segment_row s3].
Proof.
  intros HA HB c res write.
  destruct (createOffers_run rejects [A; B] customerId tr) as (b' & E & _).
  fold c in E. fold res in E. rewrite batches_pair in E.
  cbn [run_batches] in E. unfold flush_rejected, flush in E.
  cbn [map concat] in E. rewrite HA, HB in E. cbn [app] in E.
  fold write in E.
  split; [|split; [reflexivity | split]].
  - rewrite E.
    destruct (rejects tr _ || rejects _ _); cbn [snd]; apply issued_app.
  - rewrite E. destruct (rejects tr _ || rejects _ _); reflexivity.
  - intros rel. unfold replace_rows, write. cbn [rows segments_write map fold_left].
    rewrite !replace_row_segment, insert_insert_eq. reflexivity.
Qed.

Lemma createOffers_shared_segment_witness :
  let s1 := {| interval := day; kind := purchase; value := "Acme" |} in
  let s2 := {| interval := hour; kind := request; value := "acme.com" |} in
  let s3 := {| interval := week; kind := olc_8; value := "87G8P27Q" |} in
  let offer segs :=
    {| segments := segs;
       notificationZone := "POLYGON((0 0,0 1,1 1,1 0,0 0))";
       notificationContent := "10% off at Acme";
       notificationTarget := "https://acme.com/s2cellular?offerId=1";
       maximumBidCents := Number.of_Z 5 |} in
  let res := createOffers (fun _ _ => false)
               [offer [s1; s2]; offer [s2; s3]] None [] in
  fst (fst res) = Fulfilled
  /\ size (replace_rows ∅ (rows (segments_write [s1; s2; s2; s3]))) = 3%nat.
Proof.
  intros s1 s2 s3 offer res.
  destruct (createOffers_shared_segment (fun _ _ => false) s1 s2 s3
              (offer [s1; s2]) (offer [s2; s3]) None [] eq_refl eq_refl)
    as (_ & _ & Hr & Hrel).
  split; [exact Hr|].
  rewrite Hrel. vm_compute. reflexivity.
Defined.

(** ** Computations that draw random numbers *)

Lemma gen_bind_Some {A B} (g : Gen A) (k : A -> Gen B) (src src' : Source) (b : B) :
  bind g k src = (Some b, src') ->
  exists a src1, g src = (Some a, src1) /\ k a src1 = (Some b, src').
Proof.
  unfold bind. destruct (g src) as [[a|] src1]; [|discriminate].
  intros H. exists a, src1. split; [reflexivity | exact H].
Qed.

Lemma randomFloatInRange_returns (min max : number) (src : Source) :
  randomFloatInRange min max src
  = (Some (Number.add (Number.mul (src 0%nat) (Number.sub max min)) min),
     fun i => src (S i)).
Proof. reflexivity. Qed.

Lemma randomPointInCity_returns (city : CityConfig) (src : Source) :
  exists p, randomPointInCity city src = (Some p, fun i => src (S (S i))).
Proof.
  unfold randomPointInCity. destruct (lonlat city) as [lon lat].
  eexists. reflexivity.
Qed.

(** ** Degenerate cities *)

Lemma unit_interval_shape (r : number) :
  Number.unit_interval r = true ->
  (exists s, r = S754_zero s) \/ (exists m e, r = S754_finite false m e).
Proof.
  unfold Number.unit_interval.
  intros H. apply andb_prop in H as [H Hlt]. apply andb_prop in H as [_ Hle].
  destruct r as [s|[]| |[] m e]; try discriminate; eauto.
Qed.

Lemma SFcompare_refl (s : bool) (m : positive) (e : Z) :
  SFcompare (S754_finite s m e) (S754_finite s m e) = Some Eq.
Proof.
  simpl. rewrite Z.compare_refl, Pos.compare_cont_refl.
  destruct s; reflexivity.
Qed.

Lemma eqb_refl_finite (x : number) :
  Number.is_finite x = true -> Number.eqb x x = true.
Proof.
  unfold Number.eqb, SFeqb.
  destruct x as [s|s| |s m e]; try discriminate; intros _.
  - reflexivity.
  - rewrite SFcompare_refl. reflexivity.
Qed.

Lemma sub_diag_finite (s : bool) (m : positive) (e : Z) :
  Number.sub (S754_finite s m e) (S754_finite s m e) = S754_zero false.
Proof.
  unfold Number.sub, SFsub. cbv zeta. rewrite Z.sub_diag. reflexivity.
Qed.

(** A sample in a range of zero width around a finite number is that
    number. *)
Lemma sample_zero_width (r x : number) (sd : bool) :
  Number.unit_interval r = true -> Number.is_finite x = true ->
  let radius := Number.div (S754_zero sd) (Number.of_Z 2) in
  let low := Number.sub x radius in
  let high := Number.add x radius in
  Number.eqb (Number.add (Number.mul r (Number.sub high low)) low) x = true.
Proof.
  intros Hr Hx radius low high.
  assert (Hrad : radius = S754_zero sd) by (destruct sd; reflexivity).
  unfold low, high. rewrite Hrad.
  destruct x as [s|s| |s m e]; try discriminate.
  - destruct (unit_interval_shape r Hr) as [[sr ->] | (mr & er & ->)];
      destruct s, sd; try destruct sr; reflexivity.
  - change (Number.sub (S754_finite s m e) (S754_zero sd))
      with (S754_finite s m e).
    change (Number.add (S754_finite s m e) (S754_zero sd))
      with (S754_finite s m e).
    rewrite sub_diag_finite.
    destruct (unit_interval_shape r Hr) as [[sr ->] | (mr & er & ->)].
    + change (Number.add (Number.mul (S754_zero sr) (S754_zero false))
                (S754_finite s m e)) with (S754_finite s m e).
      apply (eqb_refl_finite (S754_finite s m e)). reflexivity.
    + change (Number.add (Number.mul (S754_finite false mr er) (S754_zero false))
                (S754_finite s m e)) with (S754_finite s m e).
      apply (eqb_refl_finite (S754_finite s m e)). reflexivity.
Qed.

(** With a diameter of zero and a finite centre, the sampled point is the
    centre. *)
Lemma randomPointInCity_zero_diameter (city : CityConfig) (src : Source)
    (sd : bool) :
  diameter city = S754_zero sd ->
  Number.is_finite (fst (lonlat city)) = true ->
  Number.is_finite (snd (lonlat city)) = true ->
  Number.unit_interval (src 0%nat) = true ->
  Number.unit_interval (src 1%nat) = true ->
  exists p, fst (randomPointInCity city src) = Some p
            /\ Number.eqb (fst p) (fst (lonlat city)) = true
            /\ Number.eqb (snd p) (snd (lonlat city)) = true.
Proof.
  intros Hd Hlon Hlat H0 H1.
  unfold randomPointInCity. destruct (lonlat city) as [lon lat]. rewrite Hd.
  eexists. split; [reflexivity|]. cbn [fst snd].
  split; apply sample_zero_width; assumption.
Qed.

(** ** Rounding in binary64

    Facts about the rounding of [SpecFloat], proved from its definitions:
    the right shift that brings a mantissa to its format exponent, the
    round-to-nearest-even step, and the bound they give on a product. *)

Lemma digits2_pos_bounds (p : positive) :
  2 ^ (Z.pos (digits2_pos p) - 1) <= Z.pos p < 2 ^ Z.pos (digits2_pos p).
Proof.
  induction p as [p IH | p IH |]; cbn [digits2_pos].
  - rewrite Pos2Z.inj_succ, Pos2Z.inj_xI.
    replace (Z.succ (Z.pos (digits2_pos p)) - 1) with (Z.succ (Z.pos (digits2_pos p) - 1)) by lia.
    rewrite !Z.pow_succ_r by lia.
    generalize dependent (2 ^ (Z.pos (digits2_pos p) - 1)).
    generalize (2 ^ Z.pos (digits2_pos p)). lia.
  - rewrite Pos2Z.inj_succ. change (Z.pos p~0) with (2 * Z.pos p).
    replace (Z.succ (Z.pos (digits2_pos p)) - 1) with (Z.succ (Z.pos (digits2_pos p) - 1)) by lia.
    rewrite !Z.pow_succ_r by lia.
    generalize dependent (2 ^ (Z.pos (digits2_pos p) - 1)).
    generalize (2 ^ Z.pos (digits2_pos p)). lia.
  - simpl. lia.
Qed.

Lemma Zdigits2_bounds (m : Z) :
  0 < m -> 2 ^ (Zdigits2 m - 1) <= m < 2 ^ Zdigits2 m.
Proof. destruct m as [|p|p]; try lia. intros _. apply digits2_pos_bounds. Qed.

Lemma Zdigits2_nonneg (m : Z) : 0 <= Zdigits2 m.
Proof. destruct m; simpl; lia. Qed.

(** A number below [2 ^ d] has at most [d] digits. *)
Lemma Zdigits2_le (m d : Z) : 0 <= d -> 0 <= m < 2 ^ d -> Zdigits2 m <= d.
Proof.
  intros Hd Hm. destruct (Z.eq_dec m 0) as [-> | Hne]; [simpl; lia|].
  pose proof (Zdigits2_bounds m ltac:(lia)) as [Hlo _].
  destruct (Z_le_gt_dec (Zdigits2 m) d) as [|Hgt]; [assumption|].
  exfalso.
  assert (2 ^ d <= 2 ^ (Zdigits2 m - 1)) by (apply Z.pow_le_mono_r; lia).
  lia.
Qed.

Lemma iter_pos_nat {A} (f : A -> A) (p : positive) (x : A) :
  @SpecFloat.iter_pos A f p x = Nat.iter (Pos.to_nat p) f x.
Proof.
  revert x. induction p as [p IH | p IH |]; intros x; cbn [SpecFloat.iter_pos].
  - rewrite !IH, Pos2Nat.inj_xI.
    replace (S (2 * Pos.to_nat p)) with (Pos.to_nat p + (Pos.to_nat p + 1))%nat
      by lia.
    rewrite !Nat.iter_add. reflexivity.
  - rewrite !IH, Pos2Nat.inj_xO.
    replace (2 * Pos.to_nat p)%nat with (Pos.to_nat p + Pos.to_nat p)%nat by lia.
    rewrite Nat.iter_add. reflexivity.
  - reflexivity.
Qed.

Lemma shr_1_spec (mrs : shr_record) :
  0 <= shr_m mrs ->
  shr_m (shr_1 mrs) = shr_m mrs / 2
  /\ shr_r (shr_1 mrs) = Z.odd (shr_m mrs).
Proof.
  destruct mrs as [m r s]. cbn [shr_m]. intros Hm.
  destruct m as [|[p|p|]|p]; try lia; cbn [shr_1 shr_m shr_r].
  - split; reflexivity.
  - split; [|reflexivity]. rewrite Pos2Z.inj_xI.
    apply (Z.div_unique _ 2 _ 1); lia.
  - split; [|reflexivity]. change (Z.pos p~0) with (2 * Z.pos p).
    apply (Z.div_unique _ 2 _ 0); lia.
  - split; reflexivity.
Qed.

(** [n] shifts by one bit starting from an exact record. *)
Lemma shr_iter_spec (n : nat) (m : Z) (r s : bool) :
  0 <= m ->
  shr_m (Nat.iter n shr_1 (Build_shr_record m r s)) = m / 2 ^ Z.of_nat n
  /\ ((0 < n)%nat ->
      shr_r (Nat.iter n shr_1 (Build_shr_record m r s))
      = Z.testbit m (Z.of_nat n - 1)).
Proof.
  intros Hm. induction n as [|n [IHm IHr]].
  - cbn [Nat.iter shr_m]. rewrite Z.div_1_r. split; [reflexivity | lia].
  - change (Nat.iter (S n) shr_1 ?x) with (shr_1 (Nat.iter n shr_1 x)).
    assert (Hpos : 0 <= shr_m (Nat.iter n shr_1 (Build_shr_record m r s))).
    { rewrite IHm. apply Z.div_pos; [lia | apply Z.pow_pos_nonneg; lia]. }
    destruct (shr_1_spec _ Hpos) as [Hm' Hr'].
    split.
    + rewrite Hm', IHm, Nat2Z.inj_succ, Z.pow_succ_r by lia.
      rewrite Z.div_div by (try apply Z.pow_pos_nonneg; lia).
      f_equal. lia.
    + intros _. rewrite Hr', IHm.
      replace (Z.of_nat (S n) - 1) with (Z.of_nat n) by lia.
      rewrite Z.testbit_odd, Z.shiftr_div_pow2 by lia. reflexivity.
Qed.

(** The shift of an exact record by [n] places: the exponent grows by the
    places shifted, the mantissa loses its low bits, and the round bit is the
    last bit shifted out. *)
Lemma shr_spec (m e n : Z) :
  0 <= m ->
  snd (shr (Build_shr_record m false false) e n) = e + Z.max 0 n
  /\ shr_m (fst (shr (Build_shr_record m false false) e n))
     = m / 2 ^ Z.max 0 n
  /\ (0 < n ->
      shr_r (fst (shr (Build_shr_record m false false) e n))
      = Z.testbit m (n - 1))
  /\ (n <= 0 ->
      fst (shr (Build_shr_record m false false) e n)
      = Build_shr_record m false false).
Proof.
  intros Hm. destruct n as [|p|p]; cbn [shr fst snd shr_m].
  - rewrite Z.div_1_r. repeat split; lia.
  - rewrite iter_pos_nat.
    destruct (shr_iter_spec (Pos.to_nat p) m false false Hm) as [H1 H2].
    rewrite positive_nat_Z in *.
    replace (Z.max 0 (Z.pos p)) with (Z.pos p) by lia.
    repeat split; [exact H1 | | lia]. intros _. apply H2. lia.
  - replace (Z.max 0 (Z.neg p)) with 0 by lia.
    rewrite Z.div_1_r. repeat split; lia.
Qed.

Lemma round_nearest_even_spec (mrs : shr_record) :
  shr_m mrs
  <= round_nearest_even (shr_m mrs) (loc_of_shr_record mrs)
  <= shr_m mrs + 1
  /\ (round_nearest_even (shr_m mrs) (loc_of_shr_record mrs) = shr_m mrs + 1 ->
      shr_r mrs = true).
Proof.
  destruct mrs as [m [] []]; cbn [shr_m shr_r loc_of_shr_record round_nearest_even];
    try destruct (Z.even m); split; try lia; try reflexivity.
Qed.

(** Rounding a positive integer mantissa [M] at exponent [E]: the mantissa is
    cut by [k] places to [m1], which is the quotient or the quotient plus
    one, the latter only when the last bit cut is set; a second cut by [k2]
    places brings [m1] back to the format when it has grown a digit. *)
Lemma binary_round_aux_spec (M : positive) (E : Z) :
  let k := Z.max 0 (fexp64 (Zdigits2 (Z.pos M) + E) - E) in
  exists m1,
    Z.pos M / 2 ^ k <= m1 <= Z.pos M / 2 ^ k + 1
    /\ (m1 = Z.pos M / 2 ^ k + 1 ->
        0 < k /\ Z.testbit (Z.pos M) (k - 1) = true)
    /\ let k2 := Z.max 0 (fexp64 (Zdigits2 m1 + (E + k)) - (E + k)) in
       binary_round_aux 53 1024 false (Z.pos M) E loc_Exact
       = match m1 / 2 ^ k2 with
         | Z0 => S754_zero false
         | Z.pos m =>
             if E + k + k2 <=? 971 then S754_finite false m (E + k + k2)
             else S754_infinity false
         | Z.neg _ => S754_nan
         end.
Proof.
  intros k.
  set (n := fexp64 (Zdigits2 (Z.pos M) + E) - E).
  destruct (shr_spec (Z.pos M) E n ltac:(lia)) as (He & Hm & Hr & Hid).
  set (mrs := fst (shr (Build_shr_record (Z.pos M) false false) E n)) in *.
  destruct (round_nearest_even_spec mrs) as [Hrne Hup].
  set (m1 := round_nearest_even (shr_m mrs) (loc_of_shr_record mrs)) in *.
  change (Z.max 0 n) with k in Hm, He. rewrite Hm in Hrne, Hup.
  assert (Hm1 : 0 <= m1).
  { apply Z.le_trans with (Z.pos M / 2 ^ k); [|apply Hrne].
    apply Z.div_pos; [lia | apply Z.pow_pos_nonneg; unfold k; lia]. }
  exists m1. split; [exact Hrne|]. split.
  - intros Hplus. specialize (Hup Hplus).
    destruct (Z_lt_le_dec 0 n) as [Hn | Hn].
    + split; [unfold k; lia|].
      rewrite <- Hup. replace k with n by (unfold k; lia).
      symmetry. apply Hr. exact Hn.
    + exfalso. rewrite (Hid Hn) in Hup. discriminate.
  - intros k2.
    set (n2 := fexp64 (Zdigits2 m1 + (E + k)) - (E + k)) in *.
    destruct (shr_spec m1 (E + k) n2 Hm1) as (He2 & Hm2 & _).
    unfold binary_round_aux, shr_fexp.
    change (fexp 53 1024) with fexp64.
    change (shr_record_of_loc (Z.pos M) loc_Exact)
      with (Build_shr_record (Z.pos M) false false).
    fold n.
    destruct (shr (Build_shr_record (Z.pos M) false false) E n)
      as [mrs' e'] eqn:Eshr.
    cbn [fst snd] in He. subst e'. unfold mrs in m1. cbn [fst] in m1.
    fold m1.
    change (shr_record_of_loc m1 loc_Exact)
      with (Build_shr_record m1 false false).
    fold n2.
    destruct (shr (Build_shr_record m1 false false) (E + k) n2) as [mrs2 e2].
    cbn [fst snd] in He2, Hm2. subst e2. fold k2 in Hm2 |- *.
    rewrite Hm2. reflexivity.
Qed.

Lemma Zdigits2_unique (m d : Z) :
  2 ^ (d - 1) <= m < 2 ^ d -> 0 < d -> Zdigits2 m = d.
Proof.
  intros [Hlo Hhi] Hd.
  assert (Hm : 0 < m).
  { apply Z.lt_le_trans with (2 ^ (d - 1)); [apply Z.pow_pos_nonneg; lia | exact Hlo]. }
  pose proof (Zdigits2_bounds m Hm) as [Hlo' Hhi'].
  pose proof (Zdigits2_nonneg m) as Hnn.
  destruct (Z.lt_trichotomy (Zdigits2 m) d) as [Hlt | [Heq | Hgt]];
    [exfalso | exact Heq | exfalso].
  - assert (2 ^ Zdigits2 m <= 2 ^ (d - 1)) by (apply Z.pow_le_mono_r; lia). lia.
  - assert (2 ^ d <= 2 ^ (Zdigits2 m - 1)) by (apply Z.pow_le_mono_r; lia). lia.
Qed.

Lemma pos_iter_xO (c p : positive) :
  Z.pos (Pos.iter xO p c) = Z.pos p * 2 ^ Z.pos c.
Proof.
  induction c as [|c IH] using Pos.peano_ind.
  - cbn [Pos.iter]. change (Z.pos p~0) with (2 * Z.pos p).
    rewrite Z.pow_1_r. ring.
  - rewrite Pos.iter_succ, Pos2Z.inj_succ, Z.pow_succ_r by lia.
    change (Z.pos (Pos.iter xO p c)~0) with (2 * Z.pos (Pos.iter xO p c)).
    rewrite IH. ring.
Qed.

(** A mantissa of 53 digits at a small exponent rounds to itself. *)
Lemma binary_round_aux_canonical (M : positive) (E : Z) :
  2 ^ 52 <= Z.pos M < 2 ^ 53 -> - 1074 <= E <= 971 ->
  binary_round_aux 53 1024 false (Z.pos M) E loc_Exact = S754_finite false M E.
Proof.
  intros HM HE.
  assert (Hd : Zdigits2 (Z.pos M) = 53) by (apply Zdigits2_unique; lia).
  destruct (binary_round_aux_spec M E) as (m1 & Hm1 & Hplus & Hres).
  cbv zeta in *. rewrite Hd in *.
  assert (Hk : Z.max 0 (fexp64 (53 + E) - E) = 0) by (unfold fexp64; lia).
  rewrite Hk in *. rewrite Z.div_1_r in *.
  assert (m1 = Z.pos M) by lia. subst m1.
  rewrite Hd, Z.add_0_r, Hk, Z.div_1_r in Hres. rewrite Hres.
  destruct (Z.leb_spec (E + 0) 971); [f_equal; lia | lia].
Qed.

(** The binary64 number of an integer between one and [2 ^ 53]: the integer
    itself, its mantissa scaled to 53 digits. *)
Lemma of_Z_finite (n : Z) :
  1 <= n < 2 ^ 53 ->
  exists mn en,
    Number.of_Z n = S754_finite false mn en
    /\ 2 ^ 52 <= Z.pos mn < 2 ^ 53
    /\ - 52 <= en <= 0
    /\ Z.pos mn = n * 2 ^ (- en).
Proof.
  intros Hn. destruct n as [|p|p]; try lia.
  pose proof (digits2_pos_bounds p) as Hb.
  set (d := Z.pos (digits2_pos p)) in *.
  assert (Hd : 1 <= d <= 53).
  { split; [unfold d; lia|].
    destruct (Z_le_gt_dec d 53) as [|Hgt]; [assumption | exfalso].
    assert (2 ^ 53 <= 2 ^ (d - 1)) by (apply Z.pow_le_mono_r; lia). lia. }
  unfold Number.of_Z, binary_normalize, binary_round, Number.prec, Number.emax.
  change (fexp 53 1024) with fexp64. fold d.
  replace (fexp64 (d + 0)) with (d - 53) by (unfold fexp64; lia).
  unfold shl_align.
  destruct (d - 53 - 0) as [|c|c] eqn:Ec; try lia.
  - exists p, 0. assert (d = 53) by lia.
    rewrite binary_round_aux_canonical by (replace 52 with (d - 1) by lia; replace 53 with d by lia; lia).
    repeat split; try lia; replace 52 with (d - 1) by lia; replace 53 with d by lia; lia.
  - assert (Hc : Z.pos c = 53 - d) by lia.
    assert (Hmz : Z.pos (Pos.iter xO p c) = Z.pos p * 2 ^ (53 - d))
      by (rewrite pos_iter_xO, Hc; reflexivity).
    assert (Hrange : 2 ^ 52 <= Z.pos (Pos.iter xO p c) < 2 ^ 53).
    { rewrite Hmz.
      replace (2 ^ 52) with (2 ^ (d - 1) * 2 ^ (53 - d))
        by (rewrite <- Z.pow_add_r by lia; f_equal; lia).
      replace (2 ^ 53) with (2 ^ d * 2 ^ (53 - d))
        by (rewrite <- Z.pow_add_r by lia; f_equal; lia).
      assert (0 < 2 ^ (53 - d)) by (apply Z.pow_pos_nonneg; lia).
      split; [apply Z.mul_le_mono_nonneg_r | apply Z.mul_lt_mono_pos_r]; lia. }
    exists (Pos.iter xO p c), (d - 53).
    rewrite binary_round_aux_canonical by (try exact Hrange; lia).
    repeat split; try lia.
    rewrite Hmz. f_equal. f_equal. lia.
Qed.

Lemma pow2_double (k : Z) : 0 < k -> 2 ^ k = 2 * 2 ^ (k - 1).
Proof.
  intros Hk. rewrite <- Z.pow_succ_r by lia. f_equal. lia.
Qed.

Lemma testbit_mod_ge (a k : Z) :
  0 < k -> Z.testbit a (k - 1) = true -> 2 ^ (k - 1) <= a mod 2 ^ k.
Proof.
  intros Hk Hbit. apply Z.testbit_true in Hbit; [|lia].
  assert (Hh : 0 < 2 ^ (k - 1)) by (apply Z.pow_pos_nonneg; lia).
  rewrite (pow2_double k Hk), (Z.mul_comm 2).
  rewrite Z.rem_mul_r by lia. rewrite Hbit.
  pose proof (Z.mod_pos_bound a (2 ^ (k - 1)) Hh). lia.
Qed.

Lemma pow2_split (a b : Z) : 0 <= a -> 0 <= b -> 2 ^ (a + b) = 2 ^ a * 2 ^ b.
Proof. intros. apply Z.pow_add_r; assumption. Qed.

(** The rounded product of a number below one and a number [N] of 53
    digits stays below [N]: it is zero or a finite number [m2 * 2 ^ e2]
    with [m2 * 2 ^ e2 < mn * 2 ^ en], stated on integers by scaling with
    [2 ^ - (e + en)]. *)
Lemma product_rounds_below (m mn : positive) (e en : Z) :
  Z.pos m < 2 ^ 53 -> - 1074 <= e < 0 -> Z.pos m < 2 ^ (- e) ->
  2 ^ 52 <= Z.pos mn < 2 ^ 53 -> - 52 <= en <= 0 ->
  binary_round_aux 53 1024 false (Z.pos (m * mn)) (e + en) loc_Exact
  = S754_zero false
  \/ exists m2 e2,
       binary_round_aux 53 1024 false (Z.pos (m * mn)) (e + en) loc_Exact
       = S754_finite false m2 e2
       /\ e + en <= e2
       /\ Z.pos m2 * 2 ^ (e2 - (e + en)) < Z.pos mn * 2 ^ (- e).
Proof.
  intros Hm He Hr Hmn Hen.
  destruct (binary_round_aux_spec (m * mn) (e + en)) as (m1 & Hm1 & Hplus & Hres).
  cbv zeta in *. rewrite Hres. clear Hres.
  rewrite Pos2Z.inj_mul in *.
  set (M := Z.pos m * Z.pos mn) in *.
  set (E := e + en) in *.
  set (R := 2 ^ (- e)) in *.
  assert (HR : 0 < R) by (apply Z.pow_pos_nonneg; lia).
  assert (HMpos : 0 < M) by (unfold M; lia).
  assert (HMle : M <= Z.pos mn * R - Z.pos mn) by (unfold M; nia).
  assert (HM106 : M < 2 ^ 106).
  { change (2 ^ 106) with (2 ^ 53 * 2 ^ 53). unfold M. nia. }
  assert (HMhi : M < 2 ^ (53 - e)).
  { replace (53 - e) with (53 + - e) by lia. rewrite pow2_split by lia.
    fold R. unfold M. nia. }
  set (dM := Zdigits2 M) in *.
  assert (HdM : dM <= 53 - e) by (apply Zdigits2_le; lia).
  set (k := Z.max 0 (fexp64 (dM + E) - E)) in *.
  assert (Hk : 0 <= k <= - e) by (unfold k, fexp64, E; lia).
  set (j := - e - k).
  assert (Hj : 0 <= j) by (unfold j; lia).
  set (A := 2 ^ k) in *. set (B := 2 ^ j).
  assert (HA : 0 < A) by (apply Z.pow_pos_nonneg; lia).
  assert (HB : 0 < B) by (apply Z.pow_pos_nonneg; lia).
  assert (HRAB : R = A * B).
  { unfold R, A, B. rewrite <- pow2_split by lia. f_equal. unfold j. lia. }
  set (Q := M / A) in *.
  assert (HQ : Q * A <= M < Q * A + A).
  { pose proof (Z.div_mod M A ltac:(lia)) as Hdm.
    pose proof (Z.mod_pos_bound M A HA) as Hmod. fold Q in Hdm. lia. }
  set (T := Z.pos mn * B).
  assert (HQT : Q < T) by (unfold T; nia).
  assert (Hm1T : m1 < T).
  { destruct (Z_lt_le_dec m1 T) as [|Hge]; [assumption | exfalso].
    assert (Heq : m1 = Q + 1) by lia.
    destruct (Hplus Heq) as [Hkpos Hbit].
    pose proof (testbit_mod_ge M k Hkpos Hbit) as Hmod. fold A in Hmod.
    set (H := 2 ^ (k - 1)) in *.
    assert (HH : 0 < H) by (apply Z.pow_pos_nonneg; lia).
    assert (HAH : A = 2 * H).
    { unfold A, H. apply pow2_double. exact Hkpos. }
    assert (HMQ : M = Q * A + M mod A).
    { pose proof (Z.div_mod M A ltac:(lia)) as Hdm. fold Q in Hdm. lia. }
    assert (HmnH : Z.pos mn <= H) by (unfold T in *; nia).
    assert (Hk53 : 53 <= k).
    { destruct (Z_le_gt_dec 53 k) as [|Hlt]; [assumption | exfalso].
      assert (H < 2 ^ 52) by (apply Z.pow_lt_mono_r; lia). lia. }
    assert (HMA : M < A * 2 ^ 52).
    { rewrite HAH. change (2 ^ 52) with 4503599627370496.
      change (2 ^ 53) with 9007199254740992 in Hm. unfold M. nia. }
    assert (HdM' : dM <= k + 52).
    { apply Zdigits2_le; [lia|]. rewrite pow2_split by lia. fold A. lia. }
    assert (Hk' : k = - 1074 - E) by (unfold k, fexp64 in *; lia).
    assert (HB2 : 2 <= B).
    { change 2 with (2 ^ 1). apply Z.pow_le_mono_r; unfold j, E in *; lia. }
    assert (HQ52 : Q < 2 ^ 52) by nia.
    unfold T in Hge. nia. }
  set (d1 := Zdigits2 m1) in *.
  assert (Hm1pos : 0 <= m1).
  { assert (0 <= Q) by (apply Z.div_pos; lia). lia. }
  assert (Hd1 : d1 <= 107).
  { apply Zdigits2_le; [lia|]. split; [assumption|].
    assert (Q <= M) by nia.
    change (2 ^ 107) with (2 * 2 ^ 106). lia. }
  set (k2 := Z.max 0 (fexp64 (d1 + (E + k)) - (E + k))) in *.
  assert (Hk2 : 0 <= k2) by (unfold k2; lia).
  assert (He2 : E + k + k2 <= 971) by (unfold k2, fexp64, E in *; lia).
  set (C := 2 ^ k2) in *.
  assert (HC : 0 < C) by (apply Z.pow_pos_nonneg; lia).
  pose proof (Z.div_mod m1 C ltac:(lia)) as Hdm2.
  pose proof (Z.mod_pos_bound m1 C HC) as Hmod2.
  destruct (m1 / C) as [|m2|m2] eqn:Em2.
  - left. reflexivity.
  - right. exists m2, (E + k + k2).
    destruct (Z.leb_spec (E + k + k2) 971) as [_ | Hbad]; [|lia].
    split; [reflexivity|]. split; [lia|].
    replace (E + k + k2 - E) with (k2 + k) by lia.
    rewrite pow2_split by lia. fold C. fold A.
    rewrite HRAB. fold T in Hm1T. unfold T in Hm1T. nia.
  - exfalso. nia.
Qed.

Lemma of_Z_one : Number.of_Z 1 = S754_finite false 4503599627370496 (-52).
Proof. vm_compute. reflexivity. Qed.

Lemma pow2_52 : 2 ^ 52 = 4503599627370496.
Proof. vm_compute. reflexivity. Qed.

Lemma compare_cont_lt (p q : positive) :
  match Pos.compare_cont Eq p q with Lt => true | _ => false end = true ->
  Z.pos p < Z.pos q.
Proof.
  change (Pos.compare_cont Eq p q) with (Pos.compare p q).
  destruct (Pos.compare_spec p q); try discriminate.
  intros _. apply Pos2Z.pos_lt_pos. assumption.
Qed.

(** A positive draw: its mantissa has at most 53 digits and its value is
    below one. *)
Lemma unit_interval_finite (m : positive) (e : Z) :
  Number.unit_interval (S754_finite false m e) = true ->
  Z.pos m < 2 ^ 53 /\ - 1074 <= e < 0 /\ Z.pos m < 2 ^ (- e).
Proof.
  unfold Number.unit_interval. intros H.
  apply andb_prop in H as [H Hlt]. apply andb_prop in H as [Hvalid _].
  unfold valid_binary, bounded, canonical_mantissa in Hvalid.
  apply andb_prop in Hvalid as [Hcanon _]. apply Z.eqb_eq in Hcanon.
  change (fexp Number.prec Number.emax) with fexp64 in Hcanon.
  pose proof (digits2_pos_bounds m) as [Hlo Hhi].
  set (d := Z.pos (digits2_pos m)) in *.
  assert (Hd : 1 <= d <= 53)
    by (clear - Hcanon; unfold fexp64 in Hcanon; unfold d in *; lia).
  assert (Hm53 : Z.pos m < 2 ^ 53).
  { apply Z.lt_le_trans with (2 ^ d); [exact Hhi|]. apply Z.pow_le_mono_r; lia. }
  assert (He : - 1074 <= e <= - 53).
  { split; [clear - Hcanon; unfold fexp64 in Hcanon; lia|].
    unfold Number.ltb, SFltb in Hlt.
    rewrite of_Z_one in Hlt.
    cbn [SFcompare] in Hlt.
    destruct (Z.compare_spec e (-52)) as [Heq | Hlt' | Hgt]; try discriminate.
    - exfalso. subst e.
      apply compare_cont_lt in Hlt. rename Hlt into Ec.
      assert (d = 53) by (clear - Hcanon Hd; unfold fexp64 in Hcanon; lia).
      assert (2 ^ 52 <= Z.pos m) by (replace 52 with (d - 1) by lia; exact Hlo).
      rewrite pow2_52 in H0. clear - H0 Ec. lia.
    - clear - Hlt'. lia. }
  split; [exact Hm53|]. split; [clear - He; lia|].
  apply Z.lt_le_trans with (2 ^ 53); [exact Hm53|]. apply Z.pow_le_mono_r; lia.
Qed.

(** [Math.floor] of a non-negative finite number whose integer part is
    below [n] is an integral number between zero and [n]. *)
Lemma floor_to_Z (m : positive) (e n : Z) :
  n < 2 ^ 53 ->
  (if 0 <=? e then Z.pos m * 2 ^ e else Z.pos m / 2 ^ (- e)) < n ->
  exists q, Number.to_Z (Number.floor (S754_finite false m e)) = Some q
            /\ 0 <= q < n.
Proof.
  intros Hn Hlt. unfold Number.floor.
  destruct (Z.leb_spec 0 e) as [He | He].
  - exists (Z.pos m * 2 ^ e). unfold Number.to_Z.
    destruct (Z.leb_spec 0 e); [|lia]. split; [reflexivity|].
    assert (0 < 2 ^ e) by (apply Z.pow_pos_nonneg; lia). nia.
  - set (q := Z.pos m / 2 ^ (- e)) in *.
    assert (Hq : 0 <= q) by (apply Z.div_pos; [lia | apply Z.pow_pos_nonneg; lia]).
    exists q. split; [|lia].
    destruct (Z.eq_dec q 0) as [-> | Hne]; [reflexivity|].
    change (binary_normalize Number.prec Number.emax q 0 false)
      with (Number.of_Z q).
    destruct (of_Z_finite q ltac:(lia)) as (mq & eq & -> & _ & Heq & Hmq).
    unfold Number.to_Z. rewrite Hmq.
    assert (Hp : 0 < 2 ^ (- eq)) by (apply Z.pow_pos_nonneg; lia).
    destruct (Z.leb_spec 0 eq) as [H0 | H0].
    + replace eq with 0 by lia. cbn [cond_Zopp]. f_equal.
      change (- 0) with 0. change (2 ^ 0) with 1. lia.
    + rewrite Z.mod_mul by lia. cbn [Z.eqb cond_Zopp].
      rewrite Z.div_mul by lia. reflexivity.
Qed.

(** The index [Math.floor(r * n)] of a draw [r] lies in [[0, n)]. *)
Lemma floor_mul_index (r : number) (n : Z) :
  Number.unit_interval r = true -> 1 <= n < 2 ^ 53 ->
  exists q,
    Number.to_Z (Number.floor (Number.mul r (Number.of_Z n))) = Some q
    /\ 0 <= q < n.
Proof.
  intros Hr Hn.
  destruct (of_Z_finite n Hn) as (mn & en & -> & Hmn & Hen & Hval).
  destruct (unit_interval_shape r Hr) as [[s ->] | (m & e & ->)].
  - exists 0. split; [reflexivity | lia].
  - destruct (unit_interval_finite m e Hr) as (Hm & He & Hlt).
    change (Number.mul (S754_finite false m e) (S754_finite false mn en))
      with (binary_round_aux 53 1024 false (Z.pos (m * mn)) (e + en) loc_Exact).
    destruct (product_rounds_below m mn e en Hm He Hlt Hmn Hen)
      as [-> | (m2 & e2 & -> & He2 & Hbelow)].
    + exists 0. split; [reflexivity | lia].
    + apply floor_to_Z; [lia|].
      rewrite Hval in Hbelow.
      assert (HE : 0 < 2 ^ (- (e + en))) by (apply Z.pow_pos_nonneg; lia).
      assert (Hsplit : 2 ^ (- en) * 2 ^ (- e) = 2 ^ (- (e + en))).
      { rewrite <- pow2_split by lia. f_equal. lia. }
      assert (Hn' : Z.pos m2 * 2 ^ (e2 - (e + en)) < n * 2 ^ (- (e + en))).
      { rewrite <- Hsplit. lia. }
      destruct (Z.leb_spec 0 e2) as [H0 | H0].
      * replace (e2 - (e + en)) with (e2 + - (e + en)) in Hn' by lia.
        rewrite pow2_split in Hn' by lia.
        assert (0 < 2 ^ e2) by (apply Z.pow_pos_nonneg; lia). nia.
      * set (D := 2 ^ (- e2)).
        assert (HD : 0 < D) by (apply Z.pow_pos_nonneg; lia).
        pose proof (Z.mul_div_le (Z.pos m2) D HD) as Hdiv.
        assert (Hsplit2 : 2 ^ (- (e + en)) = D * 2 ^ (e2 - (e + en))).
        { unfold D. rewrite <- pow2_split by lia. f_equal. lia. }
        assert (HF : 0 < 2 ^ (e2 - (e + en))) by (apply Z.pow_pos_nonneg; lia).
        rewrite Hsplit2 in Hn'.
        set (F := 2 ^ (e2 - (e + en))) in *.
        set (q := Z.pos m2 / D) in *.
        assert (H1 : q * (D * F) <= Z.pos m2 * F) by nia.
        assert (H2 : q * (D * F) < n * (D * F)) by lia.
        apply Z.mul_lt_mono_pos_r in H2; [exact H2 | nia].
Qed.

(** ** Values of rounded sums

    A non-negative binary64 number with exponent at least [-1200] is written
    [v * 2 ^ -1200] for the integer [v] of [has_value].  Rounding to nearest
    does not cross a number of the grid it rounds to; this bounds
    [Math.random() * n + lo] and its floor. *)

(** A number of at most [d] binary digits is below [2 ^ d], and one of more
    than [d] digits is at least [2 ^ d]. *)
Lemma Zdigits2_lt_pow (m d : Z) : 0 <= m -> Zdigits2 m <= d -> m < 2 ^ d.
Proof.
  intros Hm Hd. destruct (Z.eq_dec m 0) as [-> | Hne].
  - apply Z.pow_pos_nonneg; [lia|]. pose proof (Zdigits2_nonneg 0). lia.
  - pose proof (Zdigits2_bounds m ltac:(lia)) as [_ Hhi].
    apply Z.lt_le_trans with (2 ^ Zdigits2 m); [exact Hhi|].
    apply Z.pow_le_mono_r; lia.
Qed.

Lemma Zdigits2_gt_pow (m d : Z) :
  0 <= m -> 0 <= d -> d < Zdigits2 m -> 2 ^ d <= m.
Proof.
  intros Hm0 Hd Hlt.
  assert (Hm : 0 < m) by (destruct m; simpl in *; lia).
  pose proof (Zdigits2_bounds m Hm) as [Hlo _].
  apply Z.le_trans with (2 ^ (Zdigits2 m - 1)); [|exact Hlo].
  apply Z.pow_le_mono_r; lia.
Qed.

(** The value of a rounded mantissa: when the exponent stays in range the
    result is zero or a finite number of at most 53 digits whose value is
    that of the cut mantissa [m1] at the exponent [E + k]. *)
Lemma binary_round_aux_value (M : positive) (E : Z) :
  Zdigits2 (Z.pos M) + E <= 1000 -> E <= 900 ->
  let k := Z.max 0 (fexp64 (Zdigits2 (Z.pos M) + E) - E) in
  exists m1,
    Z.pos M / 2 ^ k <= m1 <= Z.pos M / 2 ^ k + 1
    /\ (m1 = Z.pos M / 2 ^ k + 1 ->
        0 < k /\ Z.testbit (Z.pos M) (k - 1) = true)
    /\ (m1 = 0 ->
        binary_round_aux 53 1024 false (Z.pos M) E loc_Exact = S754_zero false)
    /\ (0 < m1 ->
        exists m2 e2,
          binary_round_aux 53 1024 false (Z.pos M) E loc_Exact
          = S754_finite false m2 e2
          /\ E + k <= e2
          /\ Z.pos m2 * 2 ^ (e2 - (E + k)) = m1
          /\ Z.pos m2 < 2 ^ 53).
Proof.
  intros Hrange HE k.
  destruct (binary_round_aux_spec M E) as (m1 & Hm1 & Hplus & Hres).
  cbv zeta in Hm1, Hplus, Hres. fold k in Hm1, Hplus, Hres.
  exists m1. split; [exact Hm1|]. split; [exact Hplus|].
  set (dM := Zdigits2 (Z.pos M)) in *.
  set (d1 := Zdigits2 m1) in *.
  set (E1 := E + k) in *.
  set (k2 := Z.max 0 (fexp64 (d1 + E1) - E1)) in *.
  assert (Hk : 0 <= k) by (unfold k; lia).
  assert (HA : 0 < 2 ^ k) by (apply Z.pow_pos_nonneg; lia).
  assert (HQ : 0 <= Z.pos M / 2 ^ k) by (apply Z.div_pos; lia).
  assert (HE1 : - 1074 <= E1 <= 947) by (unfold E1, k, fexp64; lia).
  assert (Hk2 : k2 = Z.max 0 (d1 - 53)) by (unfold k2, fexp64; lia).
  split.
  - intros ->. rewrite Hres. rewrite Z.div_0_l; [reflexivity|].
    apply Z.pow_nonzero; lia.
  - intros Hpos.
    destruct (Z_le_gt_dec d1 53) as [Hd1 | Hd1].
    + (* the cut mantissa fits the format *)
      assert (Hk20 : k2 = 0) by lia.
      rewrite Hk20, Z.div_1_r in Hres.
      destruct m1 as [|m2|m2]; try lia.
      exists m2, E1. rewrite Hres.
      destruct (Z.leb_spec (E1 + 0) 971); [|lia].
      replace (E1 + 0) with E1 by lia.
      split; [reflexivity|]. split; [lia|].
      replace (E1 - E1) with 0 by lia. split; [simpl; lia|].
      apply Zdigits2_lt_pow; [lia | exact Hd1].
    + (* the cut mantissa has grown to [2 ^ 53] *)
      assert (Hm1lo : 2 ^ 53 <= m1)
        by (apply Zdigits2_gt_pow; unfold d1 in *; lia).
      assert (Hkpos : 0 < k).
      { destruct (Z_lt_le_dec 0 k) as [|Hk0]; [assumption | exfalso].
        assert (k = 0) by lia.
        assert (HdM : dM <= 53) by (unfold k, fexp64 in *; lia).
        assert (m1 = Z.pos M).
        { destruct (Z.eq_dec m1 (Z.pos M / 2 ^ k + 1)) as [Heq | Hne].
          - destruct (Hplus Heq). lia.
          - replace k with 0 in Hm1 by lia. rewrite Z.div_1_r in Hm1.
            replace k with 0 in Hne by lia. rewrite Z.div_1_r in Hne. lia. }
        assert (Z.pos M < 2 ^ 53) by (apply Zdigits2_lt_pow; [lia | exact HdM]).
        lia. }
      assert (HkdM : dM - 53 <= k) by (unfold k, fexp64; lia).
      assert (HM : Z.pos M < 2 ^ dM) by (apply Zdigits2_lt_pow; unfold dM; lia).
      assert (HQ53 : Z.pos M / 2 ^ k < 2 ^ 53).
      { apply Z.div_lt_upper_bound; [lia|].
        rewrite <- pow2_split by lia.
        apply Z.lt_le_trans with (2 ^ dM); [exact HM|].
        apply Z.pow_le_mono_r; lia. }
      assert (Hm1eq : m1 = 2 ^ 53) by lia.
      assert (Hd154 : d1 = 54).
      { unfold d1. rewrite Hm1eq. reflexivity. }
      assert (Hk21 : k2 = 1) by lia.
      rewrite Hk21, Hm1eq in Hres.
      change (2 ^ 53 / 2 ^ 1) with (Z.pos 4503599627370496) in Hres.
      exists 4503599627370496%positive, (E1 + 1). rewrite Hres.
      destruct (Z.leb_spec (E1 + 1) 971); [|lia].
      split; [reflexivity|]. split; [lia|].
      replace (E1 + 1 - E1) with 1 by lia. rewrite Hm1eq.
      split; reflexivity.
Qed.

(** Rounding does not cross a number of the grid: the rounded value of
    [M * 2 ^ E] stays on the side of every [b * 2 ^ eb] whose exponent is at
    least the format exponent of [M * 2 ^ E]. *)
Lemma binary_round_aux_between (M : positive) (E : Z) :
  - 1200 <= E <= 900 -> Zdigits2 (Z.pos M) + E <= 1000 ->
  exists v,
    has_value (binary_round_aux 53 1024 false (Z.pos M) E loc_Exact) v
    /\ forall b eb,
         0 <= b -> E <= eb -> fexp64 (Zdigits2 (Z.pos M) + E) <= eb ->
         (Z.pos M * 2 ^ (E + 1200) <= b * 2 ^ (eb + 1200) ->
          v <= b * 2 ^ (eb + 1200))
         /\ (b * 2 ^ (eb + 1200) <= Z.pos M * 2 ^ (E + 1200) ->
             b * 2 ^ (eb + 1200) <= v).
Proof.
  intros HE Hrange.
  destruct (binary_round_aux_value M E Hrange ltac:(lia))
    as (m1 & Hm1 & Hplus & Hzero & Hfinite).
  cbv zeta in *.
  set (dM := Zdigits2 (Z.pos M)) in *.
  set (k := Z.max 0 (fexp64 (dM + E) - E)) in *.
  assert (Hk : 0 <= k) by (unfold k; lia).
  set (A := 2 ^ k) in *.
  assert (HA : 0 < A) by (apply Z.pow_pos_nonneg; lia).
  set (U := 2 ^ (E + 1200)).
  assert (HU : 0 < U) by (apply Z.pow_pos_nonneg; lia).
  set (Q := Z.pos M / A) in *.
  assert (HQ : Q * A <= Z.pos M < Q * A + A).
  { pose proof (Z.div_mod (Z.pos M) A ltac:(lia)) as Hdm.
    pose proof (Z.mod_pos_bound (Z.pos M) A HA) as Hmod. fold Q in Hdm. lia. }
  assert (HQ0 : 0 <= Q) by (apply Z.div_pos; lia).
  exists (m1 * A * U). split.
  - destruct (Z.eq_dec m1 0) as [Hz | Hnz].
    + left. split; [exists false; apply Hzero; exact Hz | rewrite Hz; lia].
    + right. destruct (Hfinite ltac:(lia)) as (m2 & e2 & -> & He2 & Hval & Hm2).
      exists m2, e2. split; [reflexivity|]. split; [unfold k in *; lia|].
      split; [|exact Hm2].
      rewrite <- Hval. unfold A, U.
      rewrite <- !Z.mul_assoc, <- !pow2_split by (unfold k in *; lia).
      f_equal. f_equal. lia.
  - intros b eb Hb HEeb Hfexp.
    assert (Hkeb : E + k <= eb) by (unfold k; lia).
    set (Bu := b * 2 ^ (eb - (E + k))).
    assert (HBu : b * 2 ^ (eb + 1200) = Bu * A * U).
    { unfold Bu, A, U. rewrite <- !Z.mul_assoc, <- !pow2_split by lia.
      f_equal. f_equal. lia. }
    rewrite HBu. fold U. split; intros Hcmp.
    + assert (HMB : Z.pos M <= Bu * A)
        by (apply Z.mul_le_mono_pos_r with U; [exact HU | lia]).
      assert (Hm1B : m1 <= Bu).
      { destruct (Z.eq_dec m1 (Q + 1)) as [Heq | Hne]; [|nia].
        destruct (Hplus Heq) as [Hkpos Hbit].
        pose proof (testbit_mod_ge (Z.pos M) k Hkpos Hbit) as Hmod.
        fold A in Hmod.
        assert (0 < 2 ^ (k - 1)) by (apply Z.pow_pos_nonneg; lia).
        pose proof (Z.div_mod (Z.pos M) A ltac:(lia)) as Hdm. fold Q in Hdm.
        nia. }
      apply Z.mul_le_mono_nonneg_r; [lia|].
      apply Z.mul_le_mono_nonneg_r; [lia | exact Hm1B].
    + assert (HMB : Bu * A <= Z.pos M)
        by (apply Z.mul_le_mono_pos_r with U; [exact HU | lia]).
      assert (Bu <= Q) by (apply Z.div_le_lower_bound; lia).
      apply Z.mul_le_mono_nonneg_r; [lia|].
      apply Z.mul_le_mono_nonneg_r; [lia | lia].
Qed.

Lemma Zdigits2_mul_pow2 (m c : Z) :
  0 < m -> 0 <= c -> Zdigits2 (m * 2 ^ c) = Zdigits2 m + c.
Proof.
  intros Hm Hc. pose proof (Zdigits2_bounds m Hm) as [Hlo Hhi].
  assert (Hd : 0 < Zdigits2 m) by (destruct m; simpl in *; lia).
  assert (HC : 0 < 2 ^ c) by (apply Z.pow_pos_nonneg; lia).
  apply Zdigits2_unique; [|lia].
  replace (Zdigits2 m + c - 1) with (Zdigits2 m - 1 + c) by lia.
  rewrite !pow2_split by lia. split.
  - apply Z.mul_le_mono_nonneg_r; lia.
  - apply Z.mul_lt_mono_pos_r; lia.
Qed.

(** Aligning a mantissa to a smaller exponent keeps its value. *)
Lemma shl_align_spec (mx : positive) (ex ez : Z) :
  snd (shl_align mx ex ez) = Z.min ex ez
  /\ Z.pos (fst (shl_align mx ex ez)) = Z.pos mx * 2 ^ (ex - Z.min ex ez).
Proof.
  unfold shl_align. destruct (ez - ex) as [|d|d] eqn:Ed; cbn [fst snd].
  - replace (Z.min ex ez) with ex by lia.
    rewrite Z.sub_diag. split; [reflexivity | simpl; lia].
  - replace (Z.min ex ez) with ex by lia.
    rewrite Z.sub_diag. split; [reflexivity | simpl; lia].
  - replace (Z.min ex ez) with ez by lia.
    split; [reflexivity|]. rewrite pos_iter_xO. f_equal. f_equal. lia.
Qed.

(** [binary_round] neither crosses a number of the grid. *)
Lemma binary_round_between (S : positive) (ez : Z) :
  - 1200 <= ez <= 900 -> Zdigits2 (Z.pos S) + ez <= 1000 ->
  exists v,
    has_value (binary_round 53 1024 false S ez) v
    /\ forall b eb,
         0 <= b -> fexp64 (Zdigits2 (Z.pos S) + ez) <= eb ->
         (Z.pos S * 2 ^ (ez + 1200) <= b * 2 ^ (eb + 1200) ->
          v <= b * 2 ^ (eb + 1200))
         /\ (b * 2 ^ (eb + 1200) <= Z.pos S * 2 ^ (ez + 1200) ->
             b * 2 ^ (eb + 1200) <= v).
Proof.
  intros Hez Hrange. unfold binary_round.
  change (fexp 53 1024) with fexp64.
  change (Z.pos (digits2_pos S)) with (Zdigits2 (Z.pos S)).
  set (t := fexp64 (Zdigits2 (Z.pos S) + ez)) in *.
  destruct (shl_align_spec S ez t) as [He' Hm'].
  destruct (shl_align S ez t) as [M E']. cbn [fst snd] in He', Hm'.
  assert (Ht : - 1074 <= t) by (unfold t, fexp64; lia).
  assert (Hshift : 0 <= ez - E') by lia.
  assert (HdM : Zdigits2 (Z.pos M) + E' = Zdigits2 (Z.pos S) + ez).
  { rewrite Hm', He', Zdigits2_mul_pow2 by lia. lia. }
  destruct (binary_round_aux_between M E' ltac:(lia) ltac:(lia))
    as (v & Hv & Hbounds).
  exists v. split; [exact Hv|].
  intros b eb Hb Hfexp.
  assert (Hscaled : Z.pos M * 2 ^ (E' + 1200) = Z.pos S * 2 ^ (ez + 1200)).
  { rewrite Hm', <- Z.mul_assoc, <- pow2_split by lia. f_equal. f_equal. lia. }
  rewrite <- Hscaled. apply Hbounds; [exact Hb | lia | rewrite HdM; exact Hfexp].
Qed.

(** The sum of two non-negative finite numbers, rounded: it stays on the
    side of every grid number [b * 2 ^ eb] fine enough for a sum below
    [2 ^ p]. *)
Lemma add_between (m1 m2 : positive) (e1 e2 : Z) :
  Z.pos m1 < 2 ^ 53 -> Z.pos m2 < 2 ^ 53 ->
  - 1200 <= e1 <= 900 -> - 1200 <= e2 <= 900 ->
  exists v,
    has_value (Number.add (S754_finite false m1 e1) (S754_finite false m2 e2)) v
    /\ forall b eb p,
         0 <= b -> fexp64 p <= eb ->
         Z.pos m1 * 2 ^ (e1 + 1200) + Z.pos m2 * 2 ^ (e2 + 1200)
         < 2 ^ (p + 1200) ->
         (Z.pos m1 * 2 ^ (e1 + 1200) + Z.pos m2 * 2 ^ (e2 + 1200)
          <= b * 2 ^ (eb + 1200) ->
          v <= b * 2 ^ (eb + 1200))
         /\ (b * 2 ^ (eb + 1200)
             <= Z.pos m1 * 2 ^ (e1 + 1200) + Z.pos m2 * 2 ^ (e2 + 1200) ->
             b * 2 ^ (eb + 1200) <= v).
Proof.
  intros Hm1 Hm2 He1 He2.
  unfold Number.add, SFadd. cbv zeta. cbn [cond_Zopp].
  set (ez := Z.min e1 e2).
  destruct (shl_align_spec m1 e1 ez) as [_ Ha].
  destruct (shl_align_spec m2 e2 ez) as [_ Hb].
  replace (Z.min e1 ez) with ez in Ha by (unfold ez; lia).
  replace (Z.min e2 ez) with ez in Hb by (unfold ez; lia).
  set (a1 := fst (shl_align m1 e1 ez)) in *.
  set (a2 := fst (shl_align m2 e2 ez)) in *.
  change (Z.pos a1 + Z.pos a2) with (Z.pos (a1 + a2)).
  cbn [binary_normalize].
  assert (Hsum : Z.pos (a1 + a2) * 2 ^ (ez + 1200)
                 = Z.pos m1 * 2 ^ (e1 + 1200) + Z.pos m2 * 2 ^ (e2 + 1200)).
  { rewrite Pos2Z.inj_add, Ha, Hb, Z.mul_add_distr_r.
    rewrite <- !Z.mul_assoc, <- !pow2_split by (unfold ez; lia).
    f_equal; f_equal; f_equal; lia. }
  assert (Hrange : Zdigits2 (Z.pos (a1 + a2)) + ez <= 1000).
  { set (top := 53 + (Z.max e1 e2 - ez)).
    assert (Htop : 0 <= top) by (unfold top, ez; lia).
    assert (H1 : Z.pos a1 < 2 ^ top).
    { apply Z.lt_le_trans with (2 ^ (53 + (e1 - ez))).
      - rewrite Ha, pow2_split by (unfold ez; lia).
        apply Z.mul_lt_mono_pos_r; [apply Z.pow_pos_nonneg; unfold ez; lia|].
        exact Hm1.
      - apply Z.pow_le_mono_r; unfold top, ez; lia. }
    assert (H2 : Z.pos a2 < 2 ^ top).
    { apply Z.lt_le_trans with (2 ^ (53 + (e2 - ez))).
      - rewrite Hb, pow2_split by (unfold ez; lia).
        apply Z.mul_lt_mono_pos_r; [apply Z.pow_pos_nonneg; unfold ez; lia|].
        exact Hm2.
      - apply Z.pow_le_mono_r; unfold top, ez; lia. }
    assert (Z.pos (a1 + a2) < 2 ^ (top + 1)).
    { rewrite Pos2Z.inj_add, pow2_split by lia. rewrite Z.pow_1_r. lia. }
    assert (Zdigits2 (Z.pos (a1 + a2)) <= top + 1)
      by (apply Zdigits2_le; lia).
    unfold top, ez in *. lia. }
  assert (Hdigits : forall p,
             Z.pos (a1 + a2) * 2 ^ (ez + 1200) < 2 ^ (p + 1200) ->
             Zdigits2 (Z.pos (a1 + a2)) + ez <= p).
  { intros p Hp.
    assert (Hpez : ez < p).
    { destruct (Z_lt_le_dec ez p) as [|Hge]; [assumption | exfalso].
      assert (2 ^ (p + 1200) <= 2 ^ (ez + 1200))
        by (apply Z.pow_le_mono_r; unfold ez in *; lia).
      assert (0 < 2 ^ (ez + 1200))
        by (apply Z.pow_pos_nonneg; unfold ez in *; lia).
      nia. }
    assert (Z.pos (a1 + a2) < 2 ^ (p - ez)).
    { apply Z.mul_lt_mono_pos_r with (2 ^ (ez + 1200)).
      - apply Z.pow_pos_nonneg; unfold ez; lia.
      - rewrite <- pow2_split by (unfold ez in *; lia).
        replace (p - ez + (ez + 1200)) with (p + 1200) by lia. exact Hp. }
    assert (Zdigits2 (Z.pos (a1 + a2)) <= p - ez)
      by (apply Zdigits2_le; lia).
    lia. }
  destruct (binary_round_between (a1 + a2) ez ltac:(unfold ez; lia) Hrange)
    as (v & Hv & Hbounds).
  exists v. split; [exact Hv|].
  intros b eb p Hb0 Hfexp Hp. rewrite <- Hsum in *.
  apply Hbounds; [exact Hb0|].
  specialize (Hdigits p Hp). unfold fexp64 in *. lia.
Qed.

(** [Math.floor] of a number [v * 2 ^ -1200] below [2 ^ 53] is the integer
    [v / 2 ^ 1200], and as an array length it is that many elements. *)
Lemma floor_value (x : number) (v : Z) :
  has_value x v -> v < 2 ^ 53 * 2 ^ 1200 ->
  Number.to_Z (Number.floor x) = Some (v / 2 ^ 1200)
  /\ ToLength (Number.floor x) = Z.to_nat (v / 2 ^ 1200).
Proof.
  set (P := 2 ^ 1200).
  assert (HP : 0 < P) by (apply Z.pow_pos_nonneg; lia).
  intros [[[s ->] ->] | (m & e & -> & He & -> & Hm)] Hv.
  - rewrite Z.div_0_l by lia. split; reflexivity.
  - assert (Hfv : Z.pos m * 2 ^ (e + 1200) / P
                  = if 0 <=? e then Z.pos m * 2 ^ e else Z.pos m / 2 ^ (- e)).
    { destruct (Z.leb_spec 0 e) as [H0 | H0].
      - rewrite pow2_split by lia. fold P.
        rewrite Z.mul_assoc, Z.div_mul by lia. reflexivity.
      - assert (Hsplit : P = 2 ^ (- e) * 2 ^ (e + 1200)).
        { unfold P. rewrite <- pow2_split by lia. f_equal. lia. }
        rewrite Hsplit.
        rewrite Z.div_mul_cancel_r; try (apply Z.pow_nonzero; lia).
        reflexivity. }
    rewrite Hfv.
    assert (Hq53 : (if 0 <=? e then Z.pos m * 2 ^ e else Z.pos m / 2 ^ (- e))
                   < 2 ^ 53).
    { rewrite <- Hfv. apply Z.div_lt_upper_bound; [exact HP|].
      rewrite (Z.mul_comm P). exact Hv. }
    unfold Number.floor.
    destruct (Z.leb_spec 0 e) as [H0 | H0].
    + unfold Number.to_Z, ToLength.
      destruct (Z.leb_spec 0 e); [|lia]. split; [reflexivity|].
      f_equal. change (2 ^ 53) with 9007199254740992 in *. lia.
    + set (q := Z.pos m / 2 ^ (- e)) in *.
      assert (Hq : 0 <= q)
        by (apply Z.div_pos; [lia | apply Z.pow_pos_nonneg; lia]).
      destruct (Z.eq_dec q 0) as [-> | Hne]; [split; reflexivity|].
      change (binary_normalize Number.prec Number.emax q 0 false)
        with (Number.of_Z q).
      destruct (of_Z_finite q ltac:(lia)) as (mq & eq & -> & _ & Heq & Hmq).
      unfold Number.to_Z, ToLength. rewrite Hmq.
      assert (Hp : 0 < 2 ^ (- eq)) by (apply Z.pow_pos_nonneg; lia).
      destruct (Z.leb_spec 0 eq) as [Hz | Hz].
      * replace eq with 0 by lia. cbn [cond_Zopp].
        change (- 0) with 0. change (2 ^ 0) with 1.
        rewrite !Z.mul_1_r. split; [reflexivity|].
        f_equal. change (2 ^ 53) with 9007199254740992 in *. lia.
      * rewrite Z.mod_mul by lia. cbn [Z.eqb cond_Zopp].
        rewrite Z.div_mul by lia. split; [reflexivity|].
        f_equal. change (2 ^ 53) with 9007199254740992 in *. lia.
Qed.

(** An integer literal below [2 ^ 53] denotes itself. *)
Lemma of_Z_value (n : Z) :
  1 <= n < 2 ^ 53 ->
  exists m e,
    Number.of_Z n = S754_finite false m e
    /\ Z.pos m < 2 ^ 53 /\ - 1200 <= e <= 900
    /\ Z.pos m * 2 ^ (e + 1200) = n * 2 ^ 1200.
Proof.
  intros Hn.
  destruct (of_Z_finite n Hn) as (mn & en & Heq & Hmn & Hen & Hval).
  exists mn, en. repeat split; try lia; [exact Heq|].
  rewrite Hval, <- Z.mul_assoc, <- pow2_split by lia.
  f_equal. f_equal. lia.
Qed.

(** The product of a draw in [[0, 1)] with an integer [n] is a number
    below [n]. *)
Lemma mul_unit_value (r : number) (n : Z) :
  Number.unit_interval r = true -> 1 <= n < 2 ^ 53 ->
  (exists s, Number.mul r (Number.of_Z n) = S754_zero s)
  \/ exists m2 e2,
       Number.mul r (Number.of_Z n) = S754_finite false m2 e2
       /\ Z.pos m2 < 2 ^ 53 /\ - 1200 <= e2 <= 900
       /\ Z.pos m2 * 2 ^ (e2 + 1200) < n * 2 ^ 1200.
Proof.
  intros Hr Hn.
  destruct (of_Z_finite n Hn) as (mn & en & -> & Hmn & Hen & Hval).
  destruct (unit_interval_shape r Hr) as [[s ->] | (m & e & ->)].
  - left. eexists. reflexivity.
  - destruct (unit_interval_finite m e Hr) as (Hm & He & Hlt).
    change (Number.mul (S754_finite false m e) (S754_finite false mn en))
      with (binary_round_aux 53 1024 false (Z.pos (m * mn)) (e + en) loc_Exact).
    destruct (product_rounds_below m mn e en Hm He Hlt Hmn Hen)
      as [-> | (m2 & e2 & Heq & He2 & Hbelow)].
    + left. eexists. reflexivity.
    + right. exists m2, e2.
      assert (Hdig : Zdigits2 (Z.pos (m * mn)) + (e + en) <= 1000).
      { assert (Zdigits2 (Z.pos (m * mn)) <= 106); [|lia].
        apply Zdigits2_le; [lia|]. split; [lia|].
        rewrite Pos2Z.inj_mul.
        change 106 with (53 + 53). rewrite pow2_split by lia.
        apply Z.mul_lt_mono_nonneg; lia. }
      destruct (binary_round_aux_between (m * mn) (e + en) ltac:(lia) Hdig)
        as (v & Hv & _).
      rewrite Heq in Hv.
      destruct Hv as [[[s Hs] _] | (m' & e' & Hx & He' & _ & Hm')];
        [discriminate|].
      injection Hx as <- <-.
      assert (Hvalue : Z.pos m2 * 2 ^ (e2 + 1200) < n * 2 ^ 1200).
      { rewrite Hval in Hbelow.
        set (B := 2 ^ (e + en + 1200)).
        assert (HB : 0 < B) by (apply Z.pow_pos_nonneg; lia).
        replace (e2 + 1200) with (e2 - (e + en) + (e + en + 1200)) by lia.
        rewrite pow2_split by lia. fold B.
        assert (H1200 : 2 ^ 1200 = 2 ^ (- en) * 2 ^ (- e) * B).
        { unfold B. rewrite <- !pow2_split by lia. f_equal. lia. }
        rewrite H1200, !Z.mul_assoc.
        apply Z.mul_lt_mono_pos_r; [exact HB|].
        rewrite <- Z.mul_assoc in Hbelow |- *. exact Hbelow. }
      repeat split; try assumption; try lia.
      assert (Hpow : 2 ^ (e2 + 1200) < 2 ^ (53 + 1200)).
      { rewrite (pow2_split 53 1200) by lia.
        set (P := 2 ^ 1200) in *.
        assert (0 < P) by (apply Z.pow_pos_nonneg; lia).
        set (Q := 2 ^ (e2 + 1200)) in *.
        assert (0 < Q) by (apply Z.pow_pos_nonneg; lia).
        apply Z.le_lt_trans with (Z.pos m2 * Q); [nia|].
        apply Z.lt_trans with (n * P); [assumption|].
        apply Z.mul_lt_mono_pos_r; lia. }
      apply Z.pow_lt_mono_r_iff in Hpow; lia.
Qed.

(** [Math.random() * n + lo] for integers [lo] and [n]: the sum is rounded
    from the number [X + lo] where [X], the product, is below [n]; a bound on
    [X + lo] that is representable at its exponent also bounds the sum. *)
Lemma sample_between (r : number) (lo n : Z) :
  Number.unit_interval r = true -> 1 <= n < 2 ^ 53 -> 1 <= lo < 2 ^ 53 ->
  exists v X,
    has_value (Number.add (Number.mul r (Number.of_Z n)) (Number.of_Z lo)) v
    /\ 0 <= X < n * 2 ^ 1200
    /\ (X = 0
        \/ exists m e,
             X = Z.pos m * 2 ^ (e + 1200) /\ Z.pos m < 2 ^ 53 /\ - 1200 <= e)
    /\ forall b eb p,
         0 <= b -> fexp64 p <= eb ->
         X + lo * 2 ^ 1200 < 2 ^ (p + 1200) ->
         (X + lo * 2 ^ 1200 <= b * 2 ^ (eb + 1200) ->
          v <= b * 2 ^ (eb + 1200))
         /\ (b * 2 ^ (eb + 1200) <= X + lo * 2 ^ 1200 ->
             b * 2 ^ (eb + 1200) <= v).
Proof.
  intros Hr Hn Hlo.
  destruct (of_Z_value lo Hlo) as (ml & el & Hl & Hml & Hel & Hvl).
  assert (HP : 0 < 2 ^ 1200) by (apply Z.pow_pos_nonneg; lia).
  destruct (mul_unit_value r n Hr Hn)
    as [[s ->] | (m2 & e2 & -> & Hm2 & He2 & Hbelow)].
  - rewrite Hl. exists (lo * 2 ^ 1200), 0. split; [|split; [|split]].
    + right. exists ml, el. repeat split; try assumption; lia.
    + split; [lia|]. apply Z.mul_pos_pos; lia.
    + left. reflexivity.
    + intros b eb p _ _ _. rewrite Z.add_0_l. split; intros H; exact H.
  - rewrite Hl.
    destruct (add_between m2 ml e2 el Hm2 Hml He2 Hel) as (v & Hv & Hbounds).
    exists v, (Z.pos m2 * 2 ^ (e2 + 1200)). split; [exact Hv|].
    split; [|split].
    + split; [|exact Hbelow].
      apply Z.mul_nonneg_nonneg; [lia|]. apply Z.pow_nonneg. lia.
    + right. exists m2, e2. repeat split; [assumption | lia].
    + intros b eb p Hb Hfexp Hp. rewrite <- Hvl in *.
      apply (Hbounds b eb p Hb Hfexp Hp).
Qed.

(** [Math.floor(Math.random() * n + lo)] is an integer between [lo] and
    [lo + n], both included. *)
Lemma floor_sample_range (r : number) (lo n : Z) :
  Number.unit_interval r = true -> 1 <= n -> 1 <= lo -> lo + n < 2 ^ 53 ->
  let x := Number.floor
             (Number.add (Number.mul r (Number.of_Z n)) (Number.of_Z lo)) in
  exists q,
    Number.to_Z x = Some q /\ ToLength x = Z.to_nat q /\ lo <= q <= lo + n.
Proof.
  intros Hr Hn Hlo Hsum x.
  destruct (sample_between r lo n Hr ltac:(lia) ltac:(lia))
    as (v & X & Hv & HX & _ & Hbounds).
  set (P := 2 ^ 1200) in *.
  assert (HP : 0 < P) by (apply Z.pow_pos_nonneg; lia).
  assert (Hp : X + lo * P < 2 ^ (53 + 1200)).
  { rewrite (pow2_split 53 1200) by lia. fold P.
    apply Z.lt_le_trans with ((lo + n) * P); [lia|].
    apply Z.mul_le_mono_nonneg_r; lia. }
  assert (Hf : fexp64 53 <= 0) by (vm_compute; discriminate).
  destruct (Hbounds lo 0 53 ltac:(lia) Hf Hp) as [_ Hlower].
  destruct (Hbounds (lo + n) 0 53 ltac:(lia) Hf Hp) as [Hupper _].
  change (2 ^ (0 + 1200)) with P in *.
  specialize (Hlower ltac:(lia)). specialize (Hupper ltac:(lia)).
  destruct (floor_value _ v Hv) as [Hq Hlen].
  { fold P. apply Z.le_lt_trans with ((lo + n) * P); [exact Hupper|].
    apply Z.mul_lt_mono_pos_r; lia. }
  fold P in Hq, Hlen. exists (v / P). split; [exact Hq|]. split; [exact Hlen|].
  split.
  - apply Z.div_le_lower_bound; [exact HP|]. rewrite Z.mul_comm. exact Hlower.
  - apply Z.div_le_upper_bound; [exact HP|]. rewrite Z.mul_comm. exact Hupper.
Qed.

(** [Math.floor(Math.random() * 13 + 2)], the bid, is an integer from [2]
    to [14]: a product below [13] is at most [13 - 2 ^ -49], or below [8], and
    the sum with [2] at most [15 - 2 ^ -49], a binary64 number. *)
Lemma floor_sample_bid (r : number) :
  Number.unit_interval r = true ->
  exists q,
    Number.to_Z
      (Number.floor
         (Number.add (Number.mul r (Number.of_Z 13)) (Number.of_Z 2)))
    = Some q
    /\ 2 <= q < 15.
Proof.
  intros Hr.
  destruct (floor_sample_range r 2 13 Hr ltac:(lia) ltac:(lia)
              ltac:(vm_compute; reflexivity)) as (q0 & Hq0 & _ & Hq0lo & _).
  cbv zeta in Hq0.
  destruct (sample_between r 2 13 Hr ltac:(split; [lia | vm_compute; reflexivity])
              ltac:(split; [lia | vm_compute; reflexivity]))
    as (v & X & Hv & HX & Hshape & Hbounds).
  assert (HP : 2 ^ 1200 = 2 ^ 49 * 2 ^ 1151)
    by (rewrite <- pow2_split by lia; reflexivity).
  assert (HQ : 0 < 2 ^ 1151) by (apply Z.pow_pos_nonneg; lia).
  assert (HT : 2 ^ 49 = 562949953421312) by reflexivity.
  set (Q := 2 ^ 1151) in *.
  assert (HXQ : X <= (13 * 2 ^ 49 - 1) * Q).
  { destruct Hshape as [-> | (m & e & -> & Hm & He)]; [rewrite HT; nia|].
    destruct (Z_le_gt_dec (- 49) e) as [Hge | Hlt].
    - replace (e + 1200) with (e + 49 + 1151) in * by lia.
      rewrite pow2_split in * by lia. fold Q in HX |- *.
      rewrite Z.mul_assoc in *.
      apply Z.mul_le_mono_nonneg_r; [lia|].
      rewrite HP in HX. rewrite Z.mul_assoc in HX.
      destruct HX as [_ HX]. apply Z.mul_lt_mono_pos_r in HX; [lia | exact HQ].
    - assert (Hpow : 2 ^ (e + 1200) * 2 <= Q).
      { change 2 with (2 ^ 1) at 2. rewrite <- pow2_split by lia.
        unfold Q. apply Z.pow_le_mono_r; lia. }
      assert (0 < 2 ^ (e + 1200)) by (apply Z.pow_pos_nonneg; lia).
      change (2 ^ 53) with 9007199254740992 in Hm. rewrite HT.
      set (F := 2 ^ (e + 1200)) in *. nia. }
  destruct (Hbounds (15 * 2 ^ 49 - 1) (- 49) 4) as [Hupper _].
  - rewrite HT. lia.
  - vm_compute. discriminate.
  - rewrite (pow2_split 4 1200), HP by lia. fold Q.
    change (2 ^ 4) with 16. rewrite HT in *. lia.
  - change (- 49 + 1200) with 1151 in Hupper. fold Q in Hupper.
    specialize (Hupper ltac:(rewrite HP; fold Q; rewrite HT in *; lia)).
    assert (Hlt : v < 15 * 2 ^ 1200).
    { rewrite HP. fold Q. rewrite HT in *. lia. }
    destruct (floor_value _ v Hv) as [Hq _].
    { apply Z.lt_trans with (15 * 2 ^ 1200); [exact Hlt|].
      apply Z.mul_lt_mono_pos_r; [apply Z.pow_pos_nonneg; lia|].
      vm_compute. reflexivity. }
    exists (v / 2 ^ 1200). split; [exact Hq|].
    rewrite Hq in Hq0. injection Hq0 as <-. split; [exact Hq0lo|].
    apply Z.div_lt_upper_bound; [apply Z.pow_pos_nonneg; lia|].
    rewrite Z.mul_comm. exact Hlt.
Qed.

(** ** The generator returns *)

Lemma unit_draws_tail (src : Source) :
  unit_draws src -> unit_draws (fun i => src (S i)).
Proof. intros H i. apply H. Qed.

(** A choice from a non-empty array never reads past its end. *)
Lemma randomChoice_returns {A} (arr : list A) (src : Source) :
  arr <> [] -> Z.of_nat (length arr) < 2 ^ 53 -> unit_draws src ->
  exists x, randomChoice arr src = (Some x, fun i => src (S i)) /\ In x arr.
Proof.
  intros Hne Hlen Hsrc.
  assert (Hn : 1 <= Z.of_nat (length arr) < 2 ^ 53).
  { destruct arr; [contradiction|]. cbn [length] in *. lia. }
  destruct (floor_mul_index (src 0%nat) _ (Hsrc 0%nat) Hn) as (q & Hq & Hrange).
  unfold randomChoice, bind, random, element. rewrite Hq.
  destruct (Z.leb_spec 0 q) as [_|]; [|lia].
  destruct (nth_error arr (Z.to_nat q)) as [x|] eqn:Ex.
  - exists x. split; [reflexivity|]. eapply nth_error_In. exact Ex.
  - exfalso. apply nth_error_None in Ex. lia.
Qed.

Lemma randomPointInCity_draws (city : CityConfig) (src : Source) :
  unit_draws src ->
  exists p src', randomPointInCity city src = (Some p, src') /\ unit_draws src'.
Proof.
  intros Hsrc. destruct (randomPointInCity_returns city src) as [p Hp].
  exists p. eexists. split; [exact Hp|]. intros i. apply Hsrc.
Qed.

Lemma array_from_returns {A} (f : Gen A) (P : A -> Prop) :
  (forall src, unit_draws src ->
     exists x src', f src = (Some x, src') /\ unit_draws src' /\ P x) ->
  forall n src, unit_draws src ->
    exists xs src',
      array_from n f src = (Some xs, src')
      /\ length xs = n /\ unit_draws src' /\ Forall P xs.
Proof.
  intros Hf. induction n as [|n IH]; intros src Hsrc.
  - exists [], src. repeat split; [exact Hsrc | constructor].
  - destruct (Hf src Hsrc) as (x & src1 & Hx & Hsrc1 & HP).
    destruct (IH src1 Hsrc1) as (xs & src2 & Hxs & Hlen & Hsrc2 & HPs).
    exists (x :: xs), src2. cbn [array_from]. unfold bind at 1. rewrite Hx.
    unfold bind at 1. rewrite Hxs. cbn [length].
    repeat split; [lia | exact Hsrc2 | constructor; assumption].
Qed.

(** The differences [3 - 1] and [15 - 2] of [randomOffer] are exact. *)
Lemma sub_3_1 :
  Number.sub (Number.of_Z 3) (Number.of_Z 1) = Number.of_Z 2.
Proof. vm_compute. reflexivity. Qed.

Lemma sub_15_2 :
  Number.sub (Number.of_Z 15) (Number.of_Z 2) = Number.of_Z 13.
Proof. vm_compute. reflexivity. Qed.

Section GeneratorFacts.

Variable VENDORS : list Vendor.
Variable encode : number -> number -> nat -> string.
Variable decode : string -> CodeArea.
Variable boundsToWKTPolygon : Bounds -> string.
Variable ToString : number -> string.

Hypothesis VENDORS_nonempty : VENDORS <> [].
Hypothesis VENDORS_length : Z.of_nat (length VENDORS) < 2 ^ 53.

(** [randomSegment] returns a segment for every city. *)
Lemma randomSegment_returns (city : CityConfig) (src : Source) :
  unit_draws src ->
  exists seg src',
    randomSegment VENDORS encode city src = (Some seg, src')
    /\ unit_draws src' /\ True.
Proof using VENDORS_nonempty VENDORS_length.
  intros Hsrc. unfold randomSegment, randomSegmentKind, randomSegmentInterval.
  destruct (randomChoice_returns SegmentKinds src ltac:(discriminate)
              ltac:(vm_compute; reflexivity) Hsrc) as (k & Hk & _).
  pose proof (unit_draws_tail src Hsrc) as Hsrc1.
  destruct (randomChoice_returns SegmentIntervals _ ltac:(discriminate)
              ltac:(vm_compute; reflexivity) Hsrc1) as (i & Hi & _).
  pose proof (unit_draws_tail _ Hsrc1) as Hsrc2.
  unfold bind at 1. rewrite Hk. unfold bind at 1. rewrite Hi.
  destruct (randomChoice_returns VENDORS _ VENDORS_nonempty VENDORS_length Hsrc2)
    as (v & Hv & _).
  destruct (randomPointInCity_draws city _ Hsrc2) as ([lon lat] & src3 & Hp & Hsrc3).
  destruct k.
  - unfold bind. rewrite Hp. eexists _, _. split; [reflexivity | split; [exact Hsrc3 | exact I]].
  - unfold bind. rewrite Hp. eexists _, _. split; [reflexivity | split; [exact Hsrc3 | exact I]].
  - unfold bind, randomVendor. rewrite Hv. eexists _, _.
    split; [reflexivity | split; [intros j; apply Hsrc | exact I]].
  - unfold bind, randomVendor. rewrite Hv. eexists _, _.
    split; [reflexivity | split; [intros j; apply Hsrc | exact I]].
Qed.

(** [randomOffer] returns an offer for every city. *)
Lemma randomOffer_returns (city : CityConfig) (src : Source) :
  unit_draws src ->
  exists offer src',
    randomOffer VENDORS encode decode boundsToWKTPolygon ToString city src
    = (Some offer, src')
    /\ unit_draws src' /\ drawn offer.
Proof using VENDORS_nonempty VENDORS_length.
  intros Hsrc. unfold randomOffer, randomIntegerInRange.
  unfold bind at 1. unfold bind at 1. rewrite randomFloatInRange_returns.
  cbn [ret].
  pose proof (unit_draws_tail src Hsrc) as Hsrc1.
  rewrite sub_3_1.
  destruct (floor_sample_range (src 0%nat) 1 2 (Hsrc 0%nat) ltac:(lia)
              ltac:(lia) ltac:(vm_compute; reflexivity))
    as (num & _ & Hnum & Hrange).
  cbv zeta in Hnum. rewrite Hnum.
  destruct (array_from_returns (randomSegment VENDORS encode city)
              (fun _ => True) (randomSegment_returns city)
              (Z.to_nat num) _ Hsrc1)
    as (segs & src2 & Hsegs & Hlength & Hsrc2 & _).
  unfold bind at 1. rewrite Hsegs.
  destruct (randomChoice_returns VENDORS _ VENDORS_nonempty VENDORS_length Hsrc2)
    as (v & Hv & _).
  unfold bind at 1. unfold randomVendor. rewrite Hv.
  pose proof (unit_draws_tail _ Hsrc2) as Hsrc3.
  unfold bind at 1. unfold bind at 1. rewrite randomFloatInRange_returns. cbn [ret].
  unfold bind at 1. unfold bind at 1. rewrite randomFloatInRange_returns. cbn [ret].
  pose proof (unit_draws_tail _ (unit_draws_tail _ Hsrc3)) as Hsrc5.
  destruct (randomPointInCity_draws city _ Hsrc5) as ([lon lat] & src6 & Hp & Hsrc6).
  unfold bind at 1. rewrite Hp.
  destruct (randomChoice_returns [8; 10]%nat src6 ltac:(discriminate)
              ltac:(vm_compute; reflexivity) Hsrc6) as (len & Hlen & _).
  unfold bind at 1. rewrite Hlen.
  unfold bind at 1. unfold bind at 1. rewrite randomFloatInRange_returns. cbn [ret].
  eexists _, _. split; [reflexivity|].
  split; [intros j; apply Hsrc6|].
  split; cbn [segments maximumBidCents].
  - rewrite Hlength. lia.
  - rewrite sub_15_2. apply floor_sample_bid. apply Hsrc6.
Qed.

(** [randomOffers] returns as many offers as it is asked for, each with one
    to three segments and a bid from [2] to [14]. *)
Lemma randomOffers_returns (city : CityConfig) (numOffers : number)
    (src : Source) :
  unit_draws src ->
  exists offers src',
    randomOffers VENDORS encode decode boundsToWKTPolygon ToString city
      numOffers src = (Some offers, src')
    /\ length offers = ToLength numOffers
    /\ Forall drawn offers.
Proof using VENDORS_nonempty VENDORS_length.
  intros Hsrc. unfold randomOffers.
  destruct (array_from_returns _ drawn (randomOffer_returns city)
              (ToLength numOffers) src Hsrc)
    as (offers & src' & H & Hlen & _ & Hall).
  exists offers, src'. repeat split; assumption.
Qed.

End GeneratorFacts.

(** ** Cities are not validated *)

(** C7: the generator validates no city.  For every city, whatever the sign
    or size of its diameter, [randomPointInCity], [randomSegment] and
    [randomOffer] return normally (given a vendor catalogue that is not
    empty and draws in [[0, 1)]); and for a diameter of zero and a finite
    centre the sampled point is the centre itself. *)
Theorem generator_accepts_degenerate_city (VENDORS : list Vendor)
    (encode : number -> number -> nat -> string) (decode : string -> CodeArea)
    (boundsToWKTPolygon : Bounds -> string) (ToString : number -> string)
    (city : CityConfig) (src : Source) :
  VENDORS <> [] -> Z.of_nat (length VENDORS) < 2 ^ 53 -> unit_draws src ->
  (exists p src', randomPointInCity city src = (Some p, src'))
  /\ (exists seg src',
        randomSegment VENDORS encode city src = (Some seg, src'))
  /\ (exists offer src',
        randomOffer VENDORS encode decode boundsToWKTPolygon ToString city src
        = (Some offer, src'))
  /\ (forall sd,
        diameter city = S754_zero sd ->
        Number.is_finite (fst (lonlat city)) = true ->
        Number.is_finite (snd (lonlat city)) = true ->
        exists p, fst (randomPointInCity city src) = Some p
                  /\ Number.eqb (fst p) (fst (lonlat city)) = true
                  /\ Number.eqb (snd p) (snd (lonlat city)) = true).
Proof.
  intros Hne Hlen Hsrc. split; [|split; [|split]].
  - destruct (randomPointInCity_returns city src) as [p Hp]. eauto.
  - destruct (randomSegment_returns VENDORS encode Hne Hlen city src Hsrc)
      as (seg & src' & H & _). eauto.
  - destruct (randomOffer_returns VENDORS encode decode boundsToWKTPolygon
                ToString Hne Hlen city src Hsrc) as (offer & src' & H & _).
    eauto.
  - intros sd Hd Hlon Hlat.
    apply (randomPointInCity_zero_diameter city src sd); auto.
Qed.

Lemma generator_accepts_degenerate_city_witness :
  let acme := {| vendor := "Acme"; tld := "com" |} in
  let encode := fun (_ _ : number) (n : nat) => "87G8P27Q+" in
  let decode := fun (_ : string) =>
    {| latitudeLo := Number.of_Z 40; longitudeLo := Number.of_Z (-74);
       latitudeHi := Number.of_Z 41; longitudeHi := Number.of_Z (-73) |} in
  let point := {| name := "Point"; lonlat := lonlat DEFAULT_CITY;
                  diameter := Number.of_Z 0 |} in
  let inverted := {| name := "Inverted"; lonlat := lonlat DEFAULT_CITY;
                     diameter := Number.of_Z (-1) |} in
  let src : Source := fun _ => Number.of_Z 0 in
  fst (randomPointInCity point src) = Some (lonlat DEFAULT_CITY)
  /\ (exists seg src',
        randomSegment [acme] encode inverted src = (Some seg, src'))
  /\ (exists offer src',
        randomOffer [acme] encode decode (fun _ => "POLYGON(())")
          (fun _ => "7") inverted src = (Some offer, src')).
Proof.
  intros acme encode decode point inverted src.
  assert (Hne : [acme] <> []) by discriminate.
  assert (Hlen : Z.of_nat (length [acme]) < 2 ^ 53) by (vm_compute; reflexivity).
  assert (Hsrc : unit_draws src) by (intros i; reflexivity).
  split.
  - destruct (generator_accepts_degenerate_city [acme] encode decode
                (fun _ => "POLYGON(())") (fun _ => "7") point src Hne Hlen Hsrc)
      as (_ & _ & _ & Hzero).
    destruct (Hzero false eq_refl eq_refl eq_refl) as (p & Hp & _).
    rewrite Hp. vm_compute in Hp. injection Hp as <-. reflexivity.
  - destruct (generator_accepts_degenerate_city [acme] encode decode
                (fun _ => "POLYGON(())") (fun _ => "7") inverted src Hne Hlen Hsrc)
      as (_ & Hseg & Hoffer & _).
    split; assumption.
Defined.

(** ** The generator at the largest draw below one *)

(** C6, the number of segments: when [Math.random] returns
    [0.9999999999999999], the largest binary64 value below one, on the first
    draw of an offer, [randomIntegerInRange(1, 3)] computes
    [0.9999999999999999 * 2 + 1], which rounds to [3], and the offer gets
    three segments. *)
Theorem randomOffers_three_segments (v : Vendor)
    (encode : number -> number -> nat -> string) (decode : string -> CodeArea)
    (boundsToWKTPolygon : Bounds -> string) (ToString : number -> string) :
  let source : Source :=
    fun i => match i with O => below_one | _ => Number.of_Z 0 end in
  Number.unit_interval below_one = true
  /\ Number.unit_interval (Number.of_Z 0) = true
  /\ fst (randomIntegerInRange (Number.of_Z 1) (Number.of_Z 3) source)
     = Some (Number.of_Z 3)
  /\ option_map (map (fun o => length (segments o)))
       (fst (randomOffers [v] encode decode boundsToWKTPolygon ToString
               DEFAULT_CITY (Number.of_Z 1) source))
     = Some [3%nat].
Proof.
  intros source. repeat split; vm_compute; reflexivity.
Qed.

(** ** Geocode segments *)

Lemma substring_chars (n : nat) (s : string) :
  list_ascii_of_string (substring 0 n s) = firstn n (list_ascii_of_string s).
Proof.
  revert s. induction n as [|n IH]; intros [|c s]; simpl; try reflexivity.
  rewrite IH. reflexivity.
Qed.

Lemma string_length_chars (s : string) :
  String.length s = length (list_ascii_of_string s).
Proof. induction s as [|c s IH]; simpl; [reflexivity | rewrite IH; reflexivity]. Qed.

Lemma olc_digit_not_padding (c : ascii) :
  olc_digit c = true -> c <> "+"%char /\ c <> "0"%char.
Proof. intros H. split; intros ->; discriminate H. Qed.

(** The first [n] characters of a code of [n] digits are its digits. *)
Lemma olc_code_prefix (n : nat) (code : string) :
  (n <= 8)%nat -> olc_code n code = true ->
  String.length (substring 0 n code) = n
  /\ Forall (fun c => olc_digit c = true /\ c <> "+"%char /\ c <> "0"%char)
       (list_ascii_of_string (substring 0 n code)).
Proof.
  intros Hn H. unfold olc_code in H.
  apply andb_prop in H as [H _]. apply andb_prop in H as [H _].
  apply andb_prop in H as [Hlen Hdigits].
  apply Nat.eqb_eq in Hlen.
  rewrite string_length_chars, substring_chars. split.
  - rewrite length_take. lia.
  - rewrite forallb_forall in Hdigits. apply List.Forall_forall.
    intros c Hc. split; [|apply olc_digit_not_padding]; apply Hdigits, Hc.
Qed.

(** C10: a segment produced by [randomSegment] with kind [olc_8] has a value
    of exactly 8 characters and one with kind [olc_6] a value of exactly 6:
    the value is the code returned by the encoder for that length, cut by
    [substring] to the same length, so it consists of code digits only,
    without the separator and without padding.  The encoder is the Open
    Location Code library; it is assumed to return codes of the specified
    shape. *)
Theorem randomSegment_geocode_length (VENDORS : list Vendor)
    (encode : number -> number -> nat -> string) (city : CityConfig)
    (src src' : Source) (seg : Segment) :
  (forall lat lon n, n = 6%nat \/ n = 8%nat ->
     olc_code n (encode lat lon n) = true) ->
  randomSegment VENDORS encode city src = (Some seg, src') ->
  let digits text :=
    Forall (fun c => olc_digit c = true /\ c <> "+"%char /\ c <> "0"%char)
      (list_ascii_of_string text) in
  (kind seg = olc_8 ->
   String.length (value seg) = 8%nat
   /\ (exists lat lon, value seg = substring 0 8 (encode lat lon 8%nat))
   /\ digits (value seg))
  /\ (kind seg = olc_6 ->
      String.length (value seg) = 6%nat
      /\ (exists lat lon, value seg = substring 0 6 (encode lat lon 6%nat))
      /\ digits (value seg)).
Proof.
  intros Hencode Hrun digits. unfold randomSegment in Hrun.
  apply gen_bind_Some in Hrun as (k & src1 & _ & Hrun).
  apply gen_bind_Some in Hrun as (i & src2 & _ & Hrun).
  assert (Hgeo : forall n, n = 6%nat \/ n = 8%nat ->
            forall lat lon,
              String.length (substring 0 n (encode lat lon n)) = n
              /\ digits (substring 0 n (encode lat lon n))).
  { intros n Hn lat lon. apply olc_code_prefix; [lia | auto]. }
  destruct k.
  - apply gen_bind_Some in Hrun as ([lon lat] & src3 & _ & Hrun).
    injection Hrun as <- _. cbn [kind value olcLen].
    destruct (Hgeo 8%nat (or_intror eq_refl) lat lon) as [Hl Hc].
    split; [|discriminate]. intros _.
    split; [exact Hl | split; [eauto | exact Hc]].
  - apply gen_bind_Some in Hrun as ([lon lat] & src3 & _ & Hrun).
    injection Hrun as <- _. cbn [kind value olcLen].
    destruct (Hgeo 6%nat (or_introl eq_refl) lat lon) as [Hl Hc].
    split; [discriminate|]. intros _.
    split; [exact Hl | split; [eauto | exact Hc]].
  - apply gen_bind_Some in Hrun as (v & src3 & _ & Hrun).
    injection Hrun as <- _. split; discriminate.
  - apply gen_bind_Some in Hrun as (v & src3 & _ & Hrun).
    injection Hrun as <- _. split; discriminate.
Qed.

Lemma randomSegment_geocode_length_witness :
  let encode := fun (_ _ : number) (n : nat) =>
    (substring 0 n "87G8P27Q" ++ substring 0 (8 - n) "00" ++ "+")%string in
  let zero : Source := fun _ => Number.of_Z 0 in
  let quarter : Source := fun _ => S754_finite false 4503599627370496 (-54) in
  let seg8 := {| interval := minute; kind := olc_8; value := "87G8P27Q" |} in
  let seg6 := {| interval := hour; kind := olc_6; value := "87G8P2" |} in
  fst (randomSegment [] encode DEFAULT_CITY zero) = Some seg8
  /\ String.length (value seg8) = 8%nat
  /\ fst (randomSegment [] encode DEFAULT_CITY quarter) = Some seg6
  /\ String.length (value seg6) = 6%nat.
Proof.
  intros encode zero quarter seg8 seg6.
  assert (Hencode : forall (lat lon : number) n, n = 6%nat \/ n = 8%nat ->
            olc_code n (encode lat lon n) = true)
    by (intros lat lon n [-> | ->]; vm_compute; reflexivity).
  assert (Hrun8 : randomSegment [] encode DEFAULT_CITY zero
                  = (Some seg8, fun i => zero (S (S (S (S i))))))
    by (vm_compute; reflexivity).
  assert (Hrun6 : randomSegment [] encode DEFAULT_CITY quarter
                  = (Some seg6, fun i => quarter (S (S (S (S i))))))
    by (vm_compute; reflexivity).
  split; [rewrite Hrun8; reflexivity|].
  split.
  - exact (proj1 (proj1 (randomSegment_geocode_length [] encode DEFAULT_CITY
                           zero _ seg8 Hencode Hrun8) eq_refl)).
  - split; [rewrite Hrun6; reflexivity|].
    exact (proj1 (proj2 (randomSegment_geocode_length [] encode DEFAULT_CITY
                           quarter _ seg6 Hencode Hrun6) eq_refl)).
Defined.

(** ** The key of a segment *)

(** X1: the string [interval-kind-value] that [segmentId] hashes determines
    the segment: the names of the intervals and of the kinds hold no dash,
    so two segments with the same key string are the same segment, and two
    identifiers can only coincide through the hash. *)
Theorem segmentKey_injective (s t : Segment) :
  segmentKey s = segmentKey t -> s = t.
Proof.
  destruct s as [i k v], t as [i' k' v']. unfold segmentKey. cbn [interval kind value].
  intros H.
  destruct i, i', k, k'; vm_compute in H; try discriminate H;
    injection H as ->; reflexivity.
Qed.

Lemma segmentKey_injective_witness :
  let s := {| interval := day; kind := olc_8; value := "87G8Q2PQ" |} in
  let t := {| interval := day; kind := olc_8;
              value := substring 0 8 "87G8Q2PQ+" |} in
  s = t.
Proof.
  intros s t. apply (segmentKey_injective s t). reflexivity.
Defined.

(** ** The sizes of the batches *)

(** Every batch but the last is full, and no batch is empty or larger than
    [MAX_OFFERS_PER_BATCH]. *)
Lemma batches_from_sizes (offers : list Offer) :
  forall cur i b,
    (length cur < MAX_OFFERS_PER_BATCH)%nat ->
    nth_error (batches_from cur offers) i = Some b ->
    (1 <= length b <= MAX_OFFERS_PER_BATCH)%nat
    /\ (S i < length (batches_from cur offers) ->
        length b = MAX_OFFERS_PER_BATCH)%nat.
Proof.
  assert (HM : MAX_OFFERS_PER_BATCH = 500%nat) by reflexivity.
  induction offers as [|o rest IH]; intros cur i b Hcur Hb;
    cbn [batches_from] in *.
  - destruct cur as [|x cur]; [destruct i; discriminate|].
    destruct i as [|i]; [|destruct i; discriminate].
    injection Hb as <-. cbn [length] in *. split; [lia|]. lia.
  - destruct (Nat.leb_spec MAX_OFFERS_PER_BATCH (length (cur ++ [o])))
      as [Hfull | Hroom].
    + rewrite length_app in Hfull. cbn [length] in Hfull.
      destruct i as [|i].
      * injection Hb as <-. rewrite length_app. cbn [length]. lia.
      * cbn [nth_error] in Hb.
        destruct (IH [] i b ltac:(cbn [length]; lia) Hb) as [H1 H2].
        split; [exact H1|]. cbn [length]. intros Hi. apply H2. lia.
    + apply (IH (cur ++ [o]) i b Hroom Hb).
Qed.

Lemma nth_error_firstn_Some {A} (k i : nat) (l : list A) (x : A) :
  nth_error (firstn k l) i = Some x ->
  nth_error l i = Some x /\ (i < k)%nat.
Proof.
  revert i l. induction k as [|k IH]; intros i l H.
  - destruct i; discriminate.
  - destruct l as [|y l]; [destruct i; discriminate|].
    destruct i as [|i]; [split; [exact H | lia]|].
    destruct (IH i l H). split; [assumption | lia].
Qed.

(** X2: whatever the database answers, no offers statement that
    [createOffers] issues is empty or has more than 500 rows, and every
    offers statement but the last one issued has exactly 500. *)
Theorem createOffers_batch_sizes (rejects : Trace -> Statement -> bool)
    (offers : list Offer) (customerId : option number) (tr : Trace) :
  let sent :=
    List.filter is_offers
      (issued tr (snd (createOffers rejects offers customerId tr))) in
  forall i st,
    nth_error sent i = Some st ->
    (1 <= length (rows st) <= 500)%nat
    /\ (S i < length sent -> length (rows st) = 500)%nat.
Proof.
  intros sent i st Hst. unfold sent in *. clear sent.
  destruct (createOffers_run rejects offers customerId tr) as (b' & E & _).
  set (c := default DEFAULT_CUSTOMER_ID customerId) in *.
  destruct (run_batches_prefix rejects c (batches offers) tr)
    as (k & Hk & Htr & _).
  rewrite E in *. cbn [fst snd] in *.
  rewrite Htr, issued_app, flushes_offers in *.
  rewrite length_map. rewrite nth_error_map in Hst.
  destruct (nth_error (firstn k (batches offers)) i) as [b|] eqn:Hb;
    [|discriminate].
  injection Hst as <-. cbn [rows offers_write]. rewrite length_map.
  apply nth_error_firstn_Some in Hb as [Hb Hik].
  destruct (batches_from_sizes offers [] i b ltac:(unfold MAX_OFFERS_PER_BATCH; cbn [length]; lia) Hb) as [H1 H2].
  change MAX_OFFERS_PER_BATCH with 500%nat in *.
  split; [exact H1|]. intros Hi. apply H2.
  rewrite length_firstn in Hi. fold (batches offers). lia.
Qed.

Lemma createOffers_batch_sizes_witness :
  let offer :=
    {| segments := [{| interval := day; kind := purchase; value := "Acme" |}];
       notificationZone := "POLYGON((0 0,0 1,1 1,1 0,0 0))";
       notificationContent := "10% off at Acme";
       notificationTarget := "https://acme.com/s2cellular?offerId=1";
       maximumBidCents := Number.of_Z 5 |} in
  let sent :=
    List.filter is_offers
      (issued [] (snd (createOffers (fun _ _ => false) (repeat offer 501)
                         None []))) in
  exists st, nth_error sent 0 = Some st /\ length (rows st) = 500%nat.
Proof.
  intros offer sent.
  assert (Hlen : length sent = 2%nat) by (vm_compute; reflexivity).
  destruct (nth_error sent 0) as [st|] eqn:Hst.
  - exists st. split; [reflexivity|].
    apply (createOffers_batch_sizes (fun _ _ => false) (repeat offer 501)
             None [] 0%nat st Hst).
    fold sent. rewrite Hlen. lia.
  - apply nth_error_None in Hst. rewrite Hlen in Hst. lia.
Defined.

(** ** The shape of the rows *)


(** ** The segments sent with the offers *)

Lemma flushes_segments_rows (c : number) (bs : list (list Offer)) :
  segments_rows (concat (map (flush c) bs))
  = map segment_row (concat (map segments (concat bs))).
Proof.
  unfold segments_rows. rewrite flushes_segments.
  induction bs as [|b bs IH]; [reflexivity|].
  cbn [map concat]. rewrite IH, map_app, concat_app, map_app. reflexivity.
Qed.


Lemma In_firstn_In {A} (k : nat) (l : list A) (x : A) :
  In x (firstn k l) -> In x l.
Proof.
  intros H. rewrite <- (firstn_skipn k l). apply in_or_app. left. exact H.
Qed.

(** X5: offers without segments still bring a segments write with every
    flush: when no offer of the input has a segment, [createOffers] issues
    as many segments statements as offers statements, and none of them
    carries a row. *)
Theorem createOffers_no_segments (rejects : Trace -> Statement -> bool)
    (offers : list Offer) (customerId : option number) (tr : Trace) :
  Forall (fun o => segments o = []) offers ->
  let new := issued tr (snd (createOffers rejects offers customerId tr)) in
  length (List.filter is_segments new) = length (List.filter is_offers new)
  /\ Forall (fun st => rows st = []) (List.filter is_segments new).
Proof.
  intros Hnone new. unfold new. clear new.
  destruct (createOffers_run rejects offers customerId tr) as (b' & E & _).
  set (c := default DEFAULT_CUSTOMER_ID customerId) in *.
  destruct (run_batches_prefix rejects c (batches offers) tr)
    as (k & _ & Htr & _).
  rewrite E. cbn [fst snd]. rewrite Htr, issued_app.
  rewrite flushes_offers, flushes_segments, !length_map.
  split; [reflexivity|].
  apply List.Forall_forall. intros st Hst.
  apply in_map_iff in Hst as (b & <- & Hb).
  cbn [rows segments_write].
  assert (Hsub : forall o, In o b -> In o offers).
  { intros o Ho. rewrite <- (batches_concat offers).
    apply in_concat. exists b. split; [|exact Ho].
    apply (In_firstn_In k). exact Hb. }
  replace (concat (map segments b)) with (@nil Segment); [reflexivity|].
  symmetry. clear Hb. induction b as [|o b IH]; [reflexivity|].
  cbn [map concat]. rewrite IH by (intros x Hx; apply Hsub; right; exact Hx).
  rewrite (proj1 (List.Forall_forall _ _) Hnone o (Hsub o (or_introl eq_refl))).
  reflexivity.
Qed.

Lemma createOffers_no_segments_witness :
  let offer :=
    {| segments := [];
       notificationZone := "POLYGON((0 0,0 1,1 1,1 0,0 0))";
       notificationContent := "10% off at Acme";
       notificationTarget := "https://acme.com/s2cellular?offerId=1";
       maximumBidCents := Number.of_Z 5 |} in
  let new := issued [] (snd (createOffers (fun _ _ => false) [offer] None [])) in
  length (List.filter is_segments new) = 1%nat
  /\ Forall (fun st => rows st = []) (List.filter is_segments new).
Proof.
  intros offer new.
  destruct (createOffers_no_segments (fun _ _ => false) [offer] None [])
    as [Hlen Hrows].
  - repeat constructor.
  - split; [|exact Hrows]. fold new in Hlen. rewrite Hlen. reflexivity.
Defined.

(** ** A rejected call *)

Lemma run_batches_stops (rejects : Trace -> Statement -> bool) (c : number)
    (bs : list (list Offer)) :
  forall tr batch tr',
    run_batches rejects c bs tr = (Rejected, batch, tr') ->
    exists k,
      nth_error bs k = Some batch
      /\ tr' = tr ++ concat (map (flush c) (firstn k bs)) ++ flush c batch
      /\ flush_rejected rejects c batch
           (tr ++ concat (map (flush c) (firstn k bs))) = true
      /\ forall j b,
           (j < k)%nat -> nth_error bs j = Some b ->
           flush_rejected rejects c b
             (tr ++ concat (map (flush c) (firstn j bs))) = false.
Proof.
  induction bs as [|b0 bs IH]; intros tr batch tr' Hrun;
    cbn [run_batches] in Hrun.
  - discriminate.
  - destruct (flush_rejected rejects c b0 tr) eqn:Hrej.
    + injection Hrun as <- <-. exists 0%nat. cbn [firstn map concat nth_error].
      rewrite app_nil_r. repeat split; [exact Hrej|]. intros j b Hj. lia.
    + destruct (IH _ _ _ Hrun) as (k & Hk & Htr & Hlast & Hbefore).
      exists (S k). cbn [firstn map concat nth_error].
      rewrite !app_assoc in *. repeat split; try assumption.
      intros [|j] b Hj Hb; cbn [firstn map concat nth_error] in *.
      * injection Hb as <-. rewrite app_nil_r. exact Hrej.
      * rewrite app_assoc. apply Hbefore; [lia | exact Hb].
Qed.

(** X6: a call of [createOffers] that ends rejected stopped at the first
    flush the database rejected: the flushes of the batches before it were
    all accepted, the last two statements issued are the offers and the
    segments statement of the batch that failed, nothing was issued for the
    batches after it, and the call still holds the failed batch. *)
Theorem createOffers_stops_at_rejection
    (rejects : Trace -> Statement -> bool) (offers : list Offer)
    (customerId : option number) (tr : Trace) (b' : Batch) (tr' : Trace) :
  createOffers rejects offers customerId tr = (Rejected, b', tr') ->
  let c := default DEFAULT_CUSTOMER_ID customerId in
  let before k := tr ++ concat (map (flush c) (firstn k (batches offers))) in
  exists k batch,
    nth_error (batches offers) k = Some batch
    /\ tr' = before k ++ flush c batch
    /\ flush_rejected rejects c batch (before k) = true
    /\ (forall j b,
          (j < k)%nat -> nth_error (batches offers) j = Some b ->
          flush_rejected rejects c b (before j) = false)
    /\ holds c batch b'.
Proof.
  intros Hrun c before.
  destruct (createOffers_run rejects offers customerId tr) as (b'' & E & Hh).
  fold c in E, Hh. rewrite Hrun in E. injection E as Hr Hb Ht. subst b''.
  destruct (run_batches rejects c (batches offers) tr) as [[r batch] tr1] eqn:Er.
  cbn [fst snd] in *. subst r tr1.
  destruct (run_batches_stops rejects c _ _ _ _ Er)
    as (k & Hk & Htr & Hlast & Hbefore).
  exists k, batch. unfold before. rewrite <- app_assoc.
  split; [exact Hk|]. split; [exact Htr|]. split; [exact Hlast|].
  split; [exact Hbefore | exact Hh].
Qed.

Lemma createOffers_stops_at_rejection_witness :
  let offer :=
    {| segments := [{| interval := day; kind := purchase; value := "Acme" |}];
       notificationZone := "POLYGON((0 0,0 1,1 1,1 0,0 0))";
       notificationContent := "10% off at Acme";
       notificationTarget := "https://acme.com/s2cellular?offerId=1";
       maximumBidCents := Number.of_Z 5 |} in
  let full := fun (tr : Trace) (st : Statement) => (2 <=? length tr)%nat in
  let res := createOffers full (repeat offer 501) None [] in
  fst (fst res) = Rejected
  /\ exists k batch,
       nth_error (batches (repeat offer 501)) k = Some batch
       /\ snd res
          = concat (map (flush DEFAULT_CUSTOMER_ID)
                      (firstn k (batches (repeat offer 501))))
            ++ flush DEFAULT_CUSTOMER_ID batch.
Proof.
  intros offer full res.
  assert (Hr : fst (fst res) = Rejected) by (vm_compute; reflexivity).
  split; [exact Hr|].
  assert (Hres : res = (Rejected, snd (fst res), snd res))
    by (rewrite <- Hr; destruct res as [[r b] t]; reflexivity).
  destruct (createOffers_stops_at_rejection full (repeat offer 501) None []
              _ _ Hres) as (k & batch & Hk & Htr & _).
  exists k, batch. split; [exact Hk | exact Htr].
Defined.

(** ** Writing the offers in two calls *)

Lemma batches_from_app (xs ys : list Offer) :
  forall cur k,
    (length cur < MAX_OFFERS_PER_BATCH)%nat ->
    (length cur + length xs = k * MAX_OFFERS_PER_BATCH)%nat ->
    batches_from cur (xs ++ ys) = batches_from cur xs ++ batches_from [] ys.
Proof.
  assert (HM : MAX_OFFERS_PER_BATCH = 500%nat) by reflexivity.
  induction xs as [|o rest IH]; intros cur k Hcur Hk.
  - cbn [length] in Hk. rewrite HM in *.
    assert (length cur = 0)%nat by lia.
    destruct cur; [reflexivity | discriminate].
  - cbn [app batches_from].
    destruct (Nat.leb_spec MAX_OFFERS_PER_BATCH (length (cur ++ [o])))
      as [Hfull | Hroom]; rewrite length_app in *; cbn [length] in *.
    + cbn [app]. f_equal. apply (IH [] (k - 1)%nat); cbn [length]; lia.
    + apply (IH (cur ++ [o]) k); rewrite length_app; cbn [length]; lia.
Qed.

Lemma run_batches_app (rejects : Trace -> Statement -> bool) (c : number)
    (bs1 bs2 : list (list Offer)) :
  forall tr,
    fst (fst (run_batches rejects c bs1 tr)) = Fulfilled ->
    run_batches rejects c (bs1 ++ bs2) tr
    = run_batches rejects c bs2 (snd (run_batches rejects c bs1 tr)).
Proof.
  induction bs1 as [|b bs1 IH]; intros tr Hok; cbn [app run_batches] in *.
  - reflexivity.
  - destruct (flush_rejected rejects c b tr); [discriminate|].
    apply IH. exact Hok.
Qed.

(** X7: writing the offers in two calls.  When the first part of the
    input holds a multiple of 500 offers and its call is fulfilled, a
    single call of [createOffers] on the whole input settles the same way
    and issues the same statements as the call on the first part followed
    by a call on the rest. *)
Theorem createOffers_split (rejects : Trace -> Statement -> bool)
    (xs ys : list Offer) (customerId : option number) (tr : Trace) (k : nat) :
  length xs = (k * 500)%nat ->
  fst (fst (createOffers rejects xs customerId tr)) = Fulfilled ->
  let first := createOffers rejects xs customerId tr in
  let second := createOffers rejects ys customerId (snd first) in
  fst (fst (createOffers rejects (xs ++ ys) customerId tr)) = fst (fst second)
  /\ snd (createOffers rejects (xs ++ ys) customerId tr) = snd second.
Proof.
  intros Hlen Hok first second. unfold second, first. clear first second.
  destruct (createOffers_run rejects xs customerId tr) as (b1 & E1 & _).
  destruct (createOffers_run rejects (xs ++ ys) customerId tr) as (b & E & _).
  set (c := default DEFAULT_CUSTOMER_ID customerId) in *.
  rewrite E1 in Hok |- *. cbn [fst snd] in Hok |- *.
  destruct (createOffers_run rejects ys customerId
              (snd (run_batches rejects c (batches xs) tr))) as (b2 & E2 & _).
  fold c in E2. rewrite E, E2. cbn [fst snd].
  assert (Hsplit : batches (xs ++ ys) = batches xs ++ batches ys).
  { unfold batches. apply (batches_from_app xs ys [] k).
    - unfold MAX_OFFERS_PER_BATCH. cbn [length]. lia.
    - exact Hlen. }
  rewrite Hsplit.
  rewrite (run_batches_app rejects c _ _ tr Hok). split; reflexivity.
Qed.

Lemma createOffers_split_witness :
  let offer :=
    {| segments := [{| interval := day; kind := purchase; value := "Acme" |}];
       notificationZone := "POLYGON((0 0,0 1,1 1,1 0,0 0))";
       notificationContent := "10% off at Acme";
       notificationTarget := "https://acme.com/s2cellular?offerId=1";
       maximumBidCents := Number.of_Z 5 |} in
  let accepts := fun (_ : Trace) (_ : Statement) => false in
  snd (createOffers accepts (repeat offer 500 ++ [offer]) None [])
  = snd (createOffers accepts [offer] None
           (snd (createOffers accepts (repeat offer 500) None []))).
Proof.
  intros offer accepts.
  apply (createOffers_split accepts (repeat offer 500) [offer] None [] 1).
  - rewrite repeat_length. reflexivity.
  - apply createOffers_accepting. reflexivity.
Defined.

(** ** Exact results

    A sum, difference or product that is an integer below [2 ^ 53] is
    computed exactly: the result is the number of that integer. *)

Lemma Zdigits2_53 (n : Z) : 1 <= n < 2 ^ 53 -> 1 <= Zdigits2 n <= 53.
Proof.
  intros Hn. pose proof (Zdigits2_bounds n ltac:(lia)) as [Hlo Hhi].
  split.
  - destruct n; simpl in *; lia.
  - apply Zdigits2_le; lia.
Qed.

Lemma binary_round_aux_exact (M : positive) (E n : Z) :
  1 <= n < 2 ^ 53 -> - 1200 <= E <= 0 ->
  Z.pos M = n * 2 ^ (- E) ->
  E <= fexp64 (Zdigits2 (Z.pos M) + E) ->
  binary_round_aux 53 1024 false (Z.pos M) E loc_Exact = Number.of_Z n.
Proof.
  intros Hn HE HM Hfexp.
  pose proof (Zdigits2_53 n Hn) as Hdn.
  set (dn := Zdigits2 n) in *.
  assert (HdM : Zdigits2 (Z.pos M) = dn - E).
  { rewrite HM, Zdigits2_mul_pow2 by lia. unfold dn. lia. }
  rewrite HdM in Hfexp.
  replace (dn - E + E) with dn in Hfexp by lia.
  assert (Hf : fexp64 dn = dn - 53) by (unfold fexp64; lia).
  rewrite Hf in Hfexp.
  destruct (binary_round_aux_spec M E) as (m1 & Hm1 & Hplus & Hres).
  cbv zeta in *. rewrite HdM in *.
  replace (dn - E + E) with dn in * by lia. rewrite Hf in *.
  replace (Z.max 0 (dn - 53 - E)) with (dn - 53 - E) in * by lia.
  set (k := dn - 53 - E) in *.
  set (q := n * 2 ^ (53 - dn)).
  assert (HMq : Z.pos M = q * 2 ^ k).
  { rewrite HM. unfold q. rewrite <- Z.mul_assoc, <- pow2_split by (unfold k; lia).
    f_equal. f_equal. unfold k. lia. }
  assert (Hk2 : 0 < 2 ^ k) by (apply Z.pow_pos_nonneg; unfold k; lia).
  assert (Hdiv : Z.pos M / 2 ^ k = q) by (rewrite HMq; apply Z.div_mul; lia).
  rewrite Hdiv in *.
  assert (Hm1q : m1 = q).
  { destruct (Z.eq_dec m1 q) as [|Hne]; [assumption | exfalso].
    destruct (Hplus ltac:(lia)) as [Hkpos Hbit].
    rewrite HMq in Hbit. rewrite Z.mul_pow2_bits_low in Hbit by lia.
    discriminate. }
  subst m1.
  assert (Hq0 : 0 < q).
  { unfold q. apply Z.mul_pos_pos; [lia | apply Z.pow_pos_nonneg; lia]. }
  assert (Hdq : Zdigits2 q = 53).
  { unfold q. rewrite Zdigits2_mul_pow2 by lia. fold dn. lia. }
  rewrite Hdq in Hres.
  replace (E + k) with (dn - 53) in Hres by (unfold k; lia).
  replace (Z.max 0 (fexp64 (53 + (dn - 53)) - (dn - 53))) with 0 in Hres
    by (unfold fexp64; lia).
  rewrite Z.div_1_r, Z.add_0_r in Hres. rewrite Hres.
  destruct (of_Z_finite n Hn) as (mn & en & -> & Hmn & Hen & Hval).
  assert (Hden : Zdigits2 (Z.pos mn) = 53) by (apply Zdigits2_unique; lia).
  rewrite Hval, Zdigits2_mul_pow2 in Hden by lia. fold dn in Hden.
  assert (en = dn - 53) by lia. subst en.
  destruct q as [|pq|pq] eqn:Eq; try lia.
  destruct (Z.leb_spec (dn - 53) 971); [|lia].
  f_equal. apply Pos2Z.inj. rewrite Hval. unfold q in Eq. rewrite <- Eq.
  f_equal. f_equal. lia.
Qed.

Lemma binary_round_exact (D : positive) (E n : Z) :
  1 <= n < 2 ^ 53 -> - 1200 <= E <= 0 ->
  Z.pos D = n * 2 ^ (- E) ->
  binary_round 53 1024 false D E = Number.of_Z n.
Proof.
  intros Hn HE HD.
  pose proof (Zdigits2_53 n Hn) as Hdn.
  unfold binary_round.
  change (fexp 53 1024) with fexp64.
  change (Z.pos (digits2_pos D)) with (Zdigits2 (Z.pos D)).
  assert (HdD : Zdigits2 (Z.pos D) + E = Zdigits2 n).
  { rewrite HD, Zdigits2_mul_pow2 by lia. lia. }
  rewrite HdD.
  set (t := fexp64 (Zdigits2 n)).
  assert (Ht : t = Zdigits2 n - 53) by (unfold t, fexp64; lia).
  destruct (shl_align_spec D E t) as [He' Hm'].
  destruct (shl_align D E t) as [M E']. cbn [fst snd] in He', Hm'.
  assert (HM : Z.pos M = n * 2 ^ (- E')).
  { rewrite Hm', HD, <- Z.mul_assoc, <- pow2_split by lia.
    f_equal. f_equal. lia. }
  apply binary_round_aux_exact; [exact Hn | lia | exact HM |].
  rewrite HM, Zdigits2_mul_pow2 by lia.
  unfold fexp64. lia.
Qed.

(** The product of two positive integers is exact when it is below
    [2 ^ 53]. *)
Lemma mul_of_Z_exact (a b : Z) :
  1 <= a -> 1 <= b -> a * b < 2 ^ 53 ->
  Number.mul (Number.of_Z a) (Number.of_Z b) = Number.of_Z (a * b).
Proof.
  intros Ha Hb Hab.
  assert (Ha' : a < 2 ^ 53) by nia.
  assert (Hb' : b < 2 ^ 53) by nia.
  destruct (of_Z_finite a ltac:(lia)) as (ma & ea & -> & Hma & Hea & Hva).
  destruct (of_Z_finite b ltac:(lia)) as (mb & eb & -> & Hmb & Heb & Hvb).
  change (Number.mul (S754_finite false ma ea) (S754_finite false mb eb))
    with (binary_round_aux 53 1024 false (Z.pos (ma * mb)) (ea + eb) loc_Exact).
  assert (HM : Z.pos (ma * mb) = a * b * 2 ^ (- (ea + eb))).
  { rewrite Pos2Z.inj_mul, Hva, Hvb.
    replace (- (ea + eb)) with (- ea + - eb) by lia.
    rewrite pow2_split by lia. ring. }
  apply binary_round_aux_exact; [nia | lia | exact HM |].
  assert (53 <= Zdigits2 (Z.pos (ma * mb))).
  { destruct (Z_le_gt_dec 53 (Zdigits2 (Z.pos (ma * mb)))) as [|Hgt];
      [assumption | exfalso].
    pose proof (Zdigits2_lt_pow (Z.pos (ma * mb)) 52 ltac:(lia) ltac:(lia)).
    rewrite Pos2Z.inj_mul in *.
    assert (2 ^ 52 * 1 <= Z.pos ma * Z.pos mb)
      by (apply Z.mul_le_mono_nonneg; lia).
    lia. }
  unfold fexp64. lia.
Qed.

(** The difference of two positive integers below [2 ^ 53] is exact. *)
Lemma sub_of_Z_exact (hi lo : Z) :
  1 <= lo < hi -> hi < 2 ^ 53 ->
  Number.sub (Number.of_Z hi) (Number.of_Z lo) = Number.of_Z (hi - lo).
Proof.
  intros Hlo Hhi.
  destruct (of_Z_finite hi ltac:(lia)) as (mh & eh & -> & Hmh & Heh & Hvh).
  destruct (of_Z_finite lo ltac:(lia)) as (ml & el & -> & Hml & Hel & Hvl).
  unfold Number.sub, SFsub. cbv zeta. cbn [cond_Zopp].
  set (ez := Z.min eh el).
  destruct (shl_align_spec mh eh ez) as [_ Ha].
  destruct (shl_align_spec ml el ez) as [_ Hb].
  replace (Z.min eh ez) with ez in Ha by (unfold ez; lia).
  replace (Z.min el ez) with ez in Hb by (unfold ez; lia).
  set (a1 := fst (shl_align mh eh ez)) in *.
  set (a2 := fst (shl_align ml el ez)) in *.
  assert (Hdiff : Z.pos a1 - Z.pos a2 = (hi - lo) * 2 ^ (- ez)).
  { rewrite Ha, Hb, Hvh, Hvl, Z.mul_sub_distr_r.
    rewrite <- !Z.mul_assoc, <- !pow2_split by (unfold ez; lia).
    f_equal; f_equal; f_equal; lia. }
  assert (Hpos : 0 < Z.pos a1 - Z.pos a2).
  { rewrite Hdiff. apply Z.mul_pos_pos; [lia|].
    apply Z.pow_pos_nonneg; unfold ez; lia. }
  destruct (Z.pos a1 - Z.pos a2) as [|d|d] eqn:Ed; try lia.
  cbn [binary_normalize].
  apply binary_round_exact; [lia | unfold ez; lia | exact Hdiff].
Qed.

(** ** Integers drawn from a range *)

(** [Math.floor(Math.random() * n + lo)] stays below [lo + n] when [n] is
    more than half of a power of two [2 ^ p] that bounds [lo + n]: a product
    below [n] is then at most [n - 2 ^ (p - 53)], or below [2 ^ (p - 1)], and
    its sum with [lo] is at most [lo + n - 2 ^ (p - 53)], a binary64
    number. *)
Lemma floor_sample_strict (r : number) (lo n p : Z) :
  Number.unit_interval r = true -> 1 <= n -> 1 <= lo ->
  lo + n <= 2 ^ p -> 2 ^ (p - 1) < n -> p <= 53 ->
  exists q,
    Number.to_Z
      (Number.floor
         (Number.add (Number.mul r (Number.of_Z n)) (Number.of_Z lo)))
    = Some q
    /\ lo <= q < lo + n.
Proof.
  intros Hr Hn Hlo Hsum Hhalf Hp53.
  assert (Hp1 : 1 <= p).
  { destruct (Z_le_gt_dec 1 p) as [|Hp0]; [assumption | exfalso].
    assert (2 ^ p <= 2 ^ 0) by (apply Z.pow_le_mono_r; lia).
    change (2 ^ 0) with 1 in *. lia. }
  assert (Hpow53 : 2 ^ p <= 2 ^ 53) by (apply Z.pow_le_mono_r; lia).
  assert (H53 : lo + n < 2 ^ 53 \/ lo + n = 2 ^ 53) by lia.
  assert (Hn53 : n < 2 ^ 53) by lia.
  assert (Hlo53 : lo < 2 ^ 53) by lia.
  destruct (sample_between r lo n Hr ltac:(lia) ltac:(lia))
    as (v & X & Hv & HX & Hshape & Hbounds).
  set (g := 53 - p).
  assert (Hg : 0 <= g <= 52) by (unfold g; lia).
  assert (HP : 2 ^ 1200 = 2 ^ g * 2 ^ (p - 53 + 1200)).
  { rewrite <- pow2_split by (unfold g; lia). f_equal. unfold g. lia. }
  assert (HQ : 0 < 2 ^ (p - 53 + 1200)) by (apply Z.pow_pos_nonneg; lia).
  assert (HG : 0 < 2 ^ g) by (apply Z.pow_pos_nonneg; lia).
  assert (H52 : 2 ^ 52 = 2 ^ (p - 1) * 2 ^ g).
  { rewrite <- pow2_split by lia. f_equal. unfold g. lia. }
  assert (Hp : 2 ^ (p + 1200) = 2 ^ p * (2 ^ g * 2 ^ (p - 53 + 1200))).
  { rewrite <- HP. apply pow2_split; lia. }
  set (Q := 2 ^ (p - 53 + 1200)) in *.
  set (G := 2 ^ g) in *.
  assert (HnG : 2 ^ 52 + 1 <= n * G).
  { rewrite H52. fold G.
    apply Z.le_trans with ((2 ^ (p - 1) + 1) * G); [nia|].
    apply Z.mul_le_mono_nonneg_r; lia. }
  assert (HXQ : X <= (n * G - 1) * Q).
  { destruct Hshape as [-> | (m & e & -> & Hm & He)]; [nia|].
    destruct (Z_le_gt_dec (p - 53) e) as [Hge | Hlt].
    - replace (e + 1200) with (e - (p - 53) + (p - 53 + 1200)) in * by lia.
      rewrite pow2_split in * by lia. fold Q in HX |- *.
      rewrite Z.mul_assoc in *.
      apply Z.mul_le_mono_nonneg_r; [lia|].
      rewrite HP in HX. rewrite Z.mul_assoc in HX.
      destruct HX as [_ HX]. apply Z.mul_lt_mono_pos_r in HX; [lia | exact HQ].
    - assert (Hpow : 2 ^ (e + 1200) * 2 <= Q).
      { change 2 with (2 ^ 1) at 2. rewrite <- pow2_split by lia.
        unfold Q. apply Z.pow_le_mono_r; lia. }
      assert (0 < 2 ^ (e + 1200)) by (apply Z.pow_pos_nonneg; lia).
      set (F := 2 ^ (e + 1200)) in *.
      assert (H53' : 2 ^ 53 = 2 * 2 ^ 52) by reflexivity.
      rewrite H53' in Hm.
      set (T := 2 ^ 52) in *.
      assert (Z.pos m * F <= (2 * T - 1) * F) by nia.
      assert ((2 * T - 1) * F * 2 <= (2 * T - 1) * Q) by nia.
      assert ((2 * T) * Q <= (n * G - 1) * Q * 2) by nia.
      nia. }
  assert (Hfexp : fexp64 p <= p - 53) by (unfold fexp64; lia).
  assert (Hbelow : X + lo * 2 ^ 1200 < 2 ^ (p + 1200)).
  { rewrite Hp, HP.
    apply Z.lt_le_trans with ((lo + n) * (G * Q)).
    - rewrite HP in HX. lia.
    - apply Z.mul_le_mono_nonneg_r; [|exact Hsum].
      apply Z.lt_le_incl, Z.mul_pos_pos; assumption. }
  destruct (Hbounds lo 0 p ltac:(lia) ltac:(unfold fexp64; lia) Hbelow)
    as [_ Hlower].
  destruct (Hbounds ((lo + n) * G - 1) (p - 53) p ltac:(nia) Hfexp Hbelow)
    as [Hupper _].
  change (2 ^ (0 + 1200)) with (2 ^ 1200) in Hlower.
  fold Q in Hupper.
  specialize (Hlower ltac:(lia)).
  specialize (Hupper ltac:(rewrite HP; clear - HXQ; lia)).
  assert (Hlt : v < (lo + n) * 2 ^ 1200) by (rewrite HP; clear - Hupper HQ; lia).
  assert (HPpos : 0 < 2 ^ 1200) by (apply Z.pow_pos_nonneg; lia).
  destruct (floor_value _ v Hv) as [Hq _].
  { apply Z.lt_le_trans with ((lo + n) * 2 ^ 1200); [exact Hlt|].
    apply Z.mul_le_mono_nonneg_r; lia. }
  exists (v / 2 ^ 1200). split; [exact Hq|]. split.
  - apply Z.div_le_lower_bound; [exact HPpos|]. rewrite Z.mul_comm. exact Hlower.
  - apply Z.div_lt_upper_bound; [exact HPpos|]. rewrite Z.mul_comm. exact Hlt.
Qed.

(** X8: for integers [1 <= lo < hi < 2 ^ 53] and a draw in [[0, 1)],
    [randomIntegerInRange(lo, hi)] returns an integer from [lo] to [hi],
    [hi] included; it stays below [hi] whenever [hi - lo] is more than half
    of a power of two that is at least [hi], as in the ranges [(10, 50)],
    [(1, 1000)] and [(2, 15)] of [randomOffer]. *)
Theorem randomIntegerInRange_bounds (lo hi : Z) (src : Source) :
  Number.unit_interval (src 0%nat) = true ->
  1 <= lo < hi -> hi < 2 ^ 53 ->
  exists x q,
    randomIntegerInRange (Number.of_Z lo) (Number.of_Z hi) src
    = (Some x, fun i => src (S i))
    /\ Number.to_Z x = Some q
    /\ lo <= q <= hi
    /\ forall p, hi <= 2 ^ p -> 2 ^ (p - 1) < hi - lo -> q < hi.
Proof.
  intros Hr Hlo Hhi.
  unfold randomIntegerInRange, bind. rewrite randomFloatInRange_returns.
  cbn [ret]. rewrite sub_of_Z_exact by lia.
  destruct (floor_sample_range (src 0%nat) lo (hi - lo) Hr ltac:(lia)
              ltac:(lia) ltac:(lia)) as (q & Hq & _ & Hrange).
  cbv zeta in Hq.
  eexists _, q. split; [reflexivity|]. split; [exact Hq|].
  split; [lia|]. intros p Hp Hhalf.
  assert (Hp53 : p <= 53).
  { destruct (Z_le_gt_dec p 53) as [|Hgt]; [assumption | exfalso].
    assert (2 ^ 53 <= 2 ^ (p - 1)) by (apply Z.pow_le_mono_r; lia). lia. }
  destruct (floor_sample_strict (src 0%nat) lo (hi - lo) p Hr ltac:(lia)
              ltac:(lia) ltac:(lia) Hhalf Hp53) as (q' & Hq' & Hstrict).
  rewrite Hq in Hq'. injection Hq' as <-. lia.
Qed.

Lemma randomIntegerInRange_bounds_witness :
  let src : Source := fun _ => below_one in
  exists x q,
    randomIntegerInRange (Number.of_Z 10) (Number.of_Z 50) src
    = (Some x, fun i => src (S i))
    /\ Number.to_Z x = Some q /\ 10 <= q < 50.
Proof.
  intros src.
  destruct (randomIntegerInRange_bounds 10 50 src)
    as (x & q & Hrun & Hq & Hrange & Hstrict).
  - vm_compute. reflexivity.
  - lia.
  - vm_compute. reflexivity.
  - exists x, q. split; [exact Hrun|]. split; [exact Hq|].
    split; [lia|]. apply (Hstrict 6); [vm_compute; discriminate|].
    vm_compute. reflexivity.
Defined.

(** ** Choosing from an array *)

Lemma element_nil {A} (x : number) : element (@nil A) x = None.
Proof.
  unfold element. destruct (Number.to_Z x) as [z|]; [|reflexivity].
  destruct (0 <=? z); [|reflexivity]. destruct (Z.to_nat z); reflexivity.
Qed.

Lemma randomChoice_nil {A} (src : Source) :
  randomChoice (@nil A) src = (None, fun i => src (S i)).
Proof. unfold randomChoice, bind, random. rewrite element_nil. reflexivity. Qed.

(** X9: with a draw in [[0, 1)], [randomChoice] takes one draw and returns
    an element of the array when the array is not empty: the index
    [Math.floor(Math.random() * arr.length)] is never [arr.length], for any
    length below [2 ^ 53]; on the empty array it reads [arr[0]], which is
    [undefined]. *)
Theorem randomChoice_element {A} (arr : list A) (src : Source) :
  Number.unit_interval (src 0%nat) = true ->
  Z.of_nat (length arr) < 2 ^ 53 ->
  snd (randomChoice arr src) = (fun i => src (S i))
  /\ match arr with
     | [] => fst (randomChoice arr src) = None
     | _ :: _ => exists x, fst (randomChoice arr src) = Some x /\ In x arr
     end.
Proof.
  intros Hr Hlen. destruct arr as [|a arr].
  - rewrite randomChoice_nil. split; reflexivity.
  - set (l := a :: arr) in *.
    assert (Hn : 1 <= Z.of_nat (length l) < 2 ^ 53)
      by (unfold l in *; cbn [length] in *; lia).
    destruct (floor_mul_index (src 0%nat) _ Hr Hn) as (q & Hq & Hrange).
    unfold randomChoice, bind, random, element. rewrite Hq.
    destruct (Z.leb_spec 0 q) as [_|]; [|lia].
    destruct (nth_error l (Z.to_nat q)) as [x|] eqn:Ex.
    + split; [reflexivity|]. exists x. split; [reflexivity|].
      eapply nth_error_In. exact Ex.
    + exfalso. apply nth_error_None in Ex. lia.
Qed.

Lemma randomChoice_element_witness :
  let src : Source := fun _ => below_one in
  exists x,
    fst (randomChoice SegmentIntervals src) = Some x /\ In x SegmentIntervals.
Proof.
  intros src.
  destruct (randomChoice_element SegmentIntervals src) as [_ H].
  - vm_compute. reflexivity.
  - vm_compute. reflexivity.
  - exact H.
Defined.

(** ** The vendor catalogue *)

Section Catalogue.

Variable VENDORS : list Vendor.
Variable encode : number -> number -> nat -> string.
Variable decode : string -> CodeArea.
Variable boundsToWKTPolygon : Bounds -> string.
Variable ToString : number -> string.

(** X10: with an empty vendor catalogue [randomOffer] never returns an
    offer: whatever the city and the draws, [randomVendor()] is [undefined]
    and the offer cannot be built. *)
Theorem randomOffer_empty_catalogue (city : CityConfig) (src : Source) :
  fst (randomOffer [] encode decode boundsToWKTPolygon ToString city src)
  = None.
Proof.
  unfold randomOffer. unfold bind at 1.
  destruct (randomIntegerInRange _ _ src) as [[numSegments|] src1];
    [|reflexivity].
  unfold bind at 1.
  destruct (array_from _ _ src1) as [[segs|] src2]; [|reflexivity].
  unfold bind at 1. unfold randomVendor. rewrite randomChoice_nil. reflexivity.
Qed.

Hypothesis VENDORS_nonempty : VENDORS <> [].
Hypothesis VENDORS_length : Z.of_nat (length VENDORS) < 2 ^ 53.


(** X12: what [randomOffer] puts in an offer besides its segments and its
    bid, for draws in [[0, 1)] and a catalogue that is not empty: the
    content and the target name one and the same vendor of the catalogue,
    the percentage is an integer from 10 to 49 and the offer id an integer
    from 1 to 999, and the zone is the polygon of the area decoded from a
    code of length 8 or 10, its north-east corner the high latitude and
    longitude and its south-west corner the low ones. *)
Theorem randomOffer_notification (city : CityConfig) (src : Source) :
  unit_draws src ->
  exists offer src' v pctOff vendorOfferId pct id lon lat codeLength,
    randomOffer VENDORS encode decode boundsToWKTPolygon ToString city src
    = (Some offer, src')
    /\ In v VENDORS
    /\ Number.to_Z pctOff = Some pct /\ 10 <= pct < 50
    /\ Number.to_Z vendorOfferId = Some id /\ 1 <= id < 1000
    /\ notificationContent offer
       = (ToString pctOff ++ "% off at " ++ vendor v)%string
    /\ notificationTarget offer
       = ("https://" ++ vendorDomain v ++ "/s2cellular?offerId="
            ++ ToString vendorOfferId)%string
    /\ In codeLength [8; 10]%nat
    /\ notificationZone offer
       = boundsToWKTPolygon
           (let area := decode (encode lat lon codeLength) in
            {| ne := (latitudeHi area, longitudeHi area);
               sw := (latitudeLo area, longitudeLo area) |}).
Proof using VENDORS_nonempty VENDORS_length.
  intros Hsrc.
  pose proof (unit_draws_tail src Hsrc) as Hsrc1.
  destruct (array_from_returns (randomSegment VENDORS encode city)
              (fun _ => True)
              (randomSegment_returns VENDORS encode VENDORS_nonempty
                 VENDORS_length city)
              (ToLength (Number.floor
                 (Number.add (Number.mul (src 0%nat)
                    (Number.sub (Number.of_Z 3) (Number.of_Z 1)))
                    (Number.of_Z 1)))) _ Hsrc1)
    as (segs & src2 & Hsegs & _ & Hsrc2 & _).
  destruct (randomChoice_returns VENDORS _ VENDORS_nonempty VENDORS_length Hsrc2)
    as (v & Hv & Hin).
  pose proof (unit_draws_tail _ Hsrc2) as Hsrc3.
  pose proof (unit_draws_tail _ (unit_draws_tail _ Hsrc3)) as Hsrc5.
  destruct (randomPointInCity_draws city _ Hsrc5) as ([lon lat] & src6 & Hp & Hsrc6).
  destruct (randomChoice_returns [8; 10]%nat src6 ltac:(discriminate)
              ltac:(vm_compute; reflexivity) Hsrc6) as (len & Hlen & Hinlen).
  set (pctOff :=
         Number.floor
           (Number.add (Number.mul (src2 1%nat) (Number.of_Z 40))
              (Number.of_Z 10))).
  set (vendorOfferId :=
         Number.floor
           (Number.add (Number.mul (src2 2%nat) (Number.of_Z 999))
              (Number.of_Z 1))).
  destruct (floor_sample_strict (src2 1%nat) 10 40 6 (Hsrc2 1%nat)
              ltac:(lia) ltac:(lia) ltac:(vm_compute; discriminate)
              ltac:(vm_compute; reflexivity) ltac:(lia))
    as (pct & Hpct & Hpct_range).
  destruct (floor_sample_strict (src2 2%nat) 1 999 10 (Hsrc2 2%nat)
              ltac:(lia) ltac:(lia) ltac:(vm_compute; discriminate)
              ltac:(vm_compute; reflexivity) ltac:(lia))
    as (id & Hid & Hid_range).
  eexists _, _, v, pctOff, vendorOfferId, pct, id, lon, lat, len.
  split.
  - unfold randomOffer, randomIntegerInRange.
    unfold bind at 1. unfold bind at 1. rewrite randomFloatInRange_returns.
    cbn [ret]. unfold bind at 1. rewrite Hsegs.
    unfold bind at 1. unfold randomVendor. rewrite Hv.
    unfold bind at 1. unfold bind at 1. rewrite randomFloatInRange_returns.
    cbn [ret].
    unfold bind at 1. unfold bind at 1. rewrite randomFloatInRange_returns.
    cbn [ret].
    unfold bind at 1. rewrite Hp.
    unfold bind at 1. rewrite Hlen.
    unfold bind at 1. unfold bind at 1. rewrite randomFloatInRange_returns.
    cbn [ret]. reflexivity.
  - cbn [notificationContent notificationTarget notificationZone].
    rewrite (sub_of_Z_exact 50 10), (sub_of_Z_exact 1000 1)
      by (split; try lia; vm_compute; reflexivity).
    change (50 - 10) with 40. change (1000 - 1) with 999.
    fold pctOff. fold vendorOfferId.
    split; [exact Hin|]. split; [exact Hpct|]. split; [lia|].
    split; [exact Hid|]. split; [lia|].
    split; [reflexivity|]. split; [reflexivity|].
    split; [exact Hinlen | reflexivity].
Qed.

End Catalogue.


Lemma randomOffer_notification_witness :
  let catalogue := [{| vendor := "Acme"; tld := "com" |}] in
  let encode := fun (_ _ : number) (_ : nat) => "87G8Q2PQ+" in
  let decode := fun (_ : string) =>
    {| latitudeLo := Number.of_Z 40; longitudeLo := Number.of_Z 73;
       latitudeHi := Number.of_Z 41; longitudeHi := Number.of_Z 74 |} in
  let polygon := fun (_ : Bounds) => "POLYGON((0 0,0 1,1 1,1 0,0 0))" in
  let text := fun (_ : number) => "7" in
  let src : Source := fun _ => S754_finite false 4503599627370496 (-53) in
  exists offer src',
    randomOffer catalogue encode decode polygon text DEFAULT_CITY src
    = (Some offer, src')
    /\ notificationContent offer = "7% off at Acme".
Proof.
  intros catalogue encode decode polygon text src.
  destruct (randomOffer_notification catalogue encode decode polygon text
              ltac:(discriminate) ltac:(vm_compute; reflexivity)
              DEFAULT_CITY src)
    as (offer & src' & v & x & y & pct & id & lon & lat & len & Hrun & Hin
        & _ & _ & _ & _ & Hcontent & _).
  - intros i. vm_compute. reflexivity.
  - exists offer, src'. split; [exact Hrun|]. rewrite Hcontent.
    destruct Hin as [<- | []]. reflexivity.
Defined.

(** ** The offers drawn *)

(** As an array length an integer below [2 ^ 53] is itself. *)
Lemma ToLength_of_Z (n : Z) :
  0 <= n < 2 ^ 53 -> ToLength (Number.of_Z n) = Z.to_nat n.
Proof.
  intros Hn. destruct (Z.eq_dec n 0) as [-> | Hne]; [reflexivity|].
  destruct (of_Z_finite n ltac:(lia)) as (mn & en & -> & Hmn & Hen & Hval).
  unfold ToLength. f_equal.
  assert (Hp : 0 < 2 ^ (- en)) by (apply Z.pow_pos_nonneg; lia).
  destruct (Z.leb_spec 0 en) as [H0 | H0].
  - replace en with 0 in * by lia. change (2 ^ (- 0)) with 1 in Hval.
    change (2 ^ 0) with 1. lia.
  - rewrite Hval, Z.div_mul by lia. lia.
Qed.

(** X13: for an integer count [n] from [0] to the largest length of an
    array, a catalogue that is not empty and draws in [[0, 1)],
    [randomOffers(city, n)] returns exactly [n] offers, for every city,
    and each of them has one, two or three segments and a bid that is an
    integer from 2 to 14. *)
Theorem randomOffers_count (VENDORS : list Vendor)
    (encode : number -> number -> nat -> string) (decode : string -> CodeArea)
    (boundsToWKTPolygon : Bounds -> string) (ToString : number -> string)
    (city : CityConfig) (n : Z) (src : Source) :
  VENDORS <> [] -> Z.of_nat (length VENDORS) < 2 ^ 53 ->
  0 <= n < 2 ^ 32 -> unit_draws src ->
  exists offers src',
    randomOffers VENDORS encode decode boundsToWKTPolygon ToString city
      (Number.of_Z n) src = (Some offers, src')
    /\ Z.of_nat (length offers) = n
    /\ Forall (fun offer =>
                 (1 <= length (segments offer) <= 3)%nat
                 /\ exists bid,
                      Number.to_Z (maximumBidCents offer) = Some bid
                      /\ 2 <= bid < 15) offers.
Proof.
  intros Hne Hlen Hn Hsrc.
  assert (H32 : 2 ^ 32 < 2 ^ 53) by (vm_compute; reflexivity).
  destruct (randomOffers_returns VENDORS encode decode boundsToWKTPolygon
              ToString Hne Hlen city (Number.of_Z n) src Hsrc)
    as (offers & src' & Hrun & Hcount & Hall).
  rewrite ToLength_of_Z in Hcount by lia.
  exists offers, src'. split; [exact Hrun|]. split.
  - rewrite Hcount. apply Z2Nat.id. lia.
  - exact Hall.
Qed.

Lemma randomOffers_count_witness :
  let catalogue := [{| vendor := "Acme"; tld := "com" |}] in
  let encode := fun (_ _ : number) (_ : nat) => "87G8Q2PQ+" in
  let decode := fun (_ : string) =>
    {| latitudeLo := Number.of_Z 40; longitudeLo := Number.of_Z 73;
       latitudeHi := Number.of_Z 41; longitudeHi := Number.of_Z 74 |} in
  let polygon := fun (_ : Bounds) => "POLYGON((0 0,0 1,1 1,1 0,0 0))" in
  let text := fun (_ : number) => "7" in
  let src : Source := fun _ => below_one in
  exists offers src',
    randomOffers catalogue encode decode polygon text DEFAULT_CITY
      (Number.of_Z 3) src = (Some offers, src')
    /\ Z.of_nat (length offers) = 3.
Proof.
  intros catalogue encode decode polygon text src.
  destruct (randomOffers_count catalogue encode decode polygon text
              DEFAULT_CITY 3 src)
    as (offers & src' & Hrun & Hcount & _).
  - discriminate.
  - vm_compute. reflexivity.
  - split; [lia | vm_compute; reflexivity].
  - intros i. vm_compute. reflexivity.
  - exists offers, src'. split; [exact Hrun | exact Hcount].
Defined.

(** ** Seeding a city *)

Lemma ceil_batches_hundreds (p : Z) :
  0 <= p -> ceil_batches (Z.to_nat (100 * p)) = Z.to_nat ((p + 4) / 5).
Proof.
  intros Hp. unfold ceil_batches.
  change MAX_OFFERS_PER_BATCH with 500%nat.
  apply Nat2Z.inj. rewrite Nat2Z.inj_div, Nat2Z.inj_add, !Z2Nat.id
    by (try apply Z.div_pos; lia).
  change (Z.of_nat (500 - 1)) with 499. change (Z.of_nat 500) with 500.
  pose proof (Z.div_mod (p + 4) 5 ltac:(lia)) as Hd.
  pose proof (Z.mod_pos_bound (p + 4) 5 ltac:(lia)) as Hm.
  symmetry. apply (Z.div_unique _ 500 _ (100 * ((p + 4) mod 5) + 99)); lia.
Qed.

Section SeedingFacts.

Variable rejects : Trace -> Statement -> bool.
Variable VENDORS : list Vendor.
Variable encode : number -> number -> nat -> string.
Variable decode : string -> CodeArea.
Variable boundsToWKTPolygon : Bounds -> string.
Variable ToString : number -> string.

Hypothesis VENDORS_nonempty : VENDORS <> [].
Hypothesis VENDORS_length : Z.of_nat (length VENDORS) < 2 ^ 53.

(** X14: for a scale factor of [p] partitions, [100 * p] within the
    length of an array, a catalogue that is not empty and draws in [[0, 1)],
    [seedCityWithOffers] draws exactly [100 * p] offers and hands them to
    [createOffers] without a customer id; when that call is fulfilled it has
    sent their rows, in order and for the default customer, in
    [ceil (p / 5)] flushes. *)
Theorem seedCityWithOffers_rows (city : CityConfig)
    (scaleFactor : ScaleFactor.t) (p : Z) (tr : Trace) (src : Source) :
  ScaleFactor.partitions scaleFactor = Number.of_Z p ->
  0 <= p -> 100 * p < 2 ^ 32 ->
  unit_draws src ->
  exists offers src',
    seedCityWithOffers rejects VENDORS encode decode boundsToWKTPolygon
      ToString city scaleFactor tr src
    = (Some (createOffers rejects offers None tr), src')
    /\ Z.of_nat (length offers) = 100 * p
    /\ Forall drawn offers
    /\ let res := createOffers rejects offers None tr in
       fst (fst res) = Fulfilled ->
       offers_rows (issued tr (snd res))
       = map (offer_row DEFAULT_CUSTOMER_ID) offers
       /\ length (List.filter is_offers (issued tr (snd res)))
          = Z.to_nat ((p + 4) / 5).
Proof using VENDORS_nonempty VENDORS_length.
  intros Hparts Hp Hbound Hsrc.
  assert (H32 : 2 ^ 32 < 2 ^ 53) by (vm_compute; reflexivity).
  assert (Hnum : Number.mul (Number.of_Z 100)
                   (ScaleFactor.partitions scaleFactor)
                 = Number.of_Z (100 * p)).
  { rewrite Hparts. destruct (Z.eq_dec p 0) as [-> | Hne]; [reflexivity|].
    apply mul_of_Z_exact; lia. }
  destruct (randomOffers_returns VENDORS encode decode boundsToWKTPolygon
              ToString VENDORS_nonempty VENDORS_length city
              (Number.of_Z (100 * p)) src Hsrc)
    as (offers & src' & Hrun & Hlen & Hall).
  rewrite ToLength_of_Z in Hlen by lia.
  exists offers, src'. split; [|split; [|split]].
  - unfold seedCityWithOffers, bind. rewrite Hnum, Hrun. reflexivity.
  - rewrite Hlen. apply Z2Nat.id. lia.
  - exact Hall.
  - intros res Hok. unfold res in *.
    destruct (createOffers_run rejects offers None tr) as (b' & E & _).
    rewrite E in *. cbn [fst snd default] in *.
    rewrite run_batches_fulfilled by exact Hok.
    rewrite issued_app, flushes_rows, flushes_offers, length_map,
      batches_concat, batches_length, Hlen.
    split; [reflexivity|]. apply ceil_batches_hundreds. exact Hp.
Qed.

End SeedingFacts.

Lemma seedCityWithOffers_rows_witness :
  let catalogue := [{| vendor := "Acme"; tld := "com" |}] in
  let encode := fun (_ _ : number) (_ : nat) => "87G8Q2PQ+" in
  let decode := fun (_ : string) =>
    {| latitudeLo := Number.of_Z 40; longitudeLo := Number.of_Z 73;
       latitudeHi := Number.of_Z 41; longitudeHi := Number.of_Z 74 |} in
  let polygon := fun (_ : Bounds) => "POLYGON((0 0,0 1,1 1,1 0,0 0))" in
  let text := fun (_ : number) => "7" in
  let src : Source := fun _ => S754_finite false 4503599627370496 (-53) in
  let scale := {| ScaleFactor.prefix := "v2/100k-2p";
                  ScaleFactor.partitions := Number.of_Z 2 |} in
  exists offers src',
    seedCityWithOffers (fun _ _ => false) catalogue encode decode polygon
      text DEFAULT_CITY scale [] src
    = (Some (createOffers (fun _ _ => false) offers None []), src')
    /\ Z.of_nat (length offers) = 200.
Proof.
  intros catalogue encode decode polygon text src scale.
  destruct (seedCityWithOffers_rows (fun _ _ => false) catalogue encode decode
              polygon text ltac:(discriminate) ltac:(vm_compute; reflexivity)
              DEFAULT_CITY scale 2 [] src)
    as (offers & src' & Hrun & Hlen & _).
  - reflexivity.
  - lia.
  - vm_compute. reflexivity.
  - intros i. vm_compute. reflexivity.
  - exists offers, src'. split; [exact Hrun | exact Hlen].
Defined.

(** ** The schema objects *)

Lemma fromEntries_fold {V} (entries : list (string * V)) (m : gmap string V)
    (k : string) :
  fold_left (fun (m : gmap string V) entry => <[fst entry := snd entry]> m)
    entries m !! k
  = match fromEntries entries !! k with
    | Some v => Some v
    | None => m !! k
    end.
Proof.
  unfold fromEntries.
  revert m. induction entries as [|[k' v'] entries IH]; intros m; cbn [fold_left].
  - rewrite lookup_empty. reflexivity.
  - rewrite IH. rewrite (IH (<[_ := _]> ∅)). cbn [fst snd].
    destruct (fold_left _ entries ∅ !! k) as [v|]; [reflexivity|].
    destruct (decide (k' = k)) as [-> | Hne].
    + rewrite !lookup_insert_eq. reflexivity.
    + rewrite !lookup_insert_ne by exact Hne. rewrite lookup_empty.
      destruct (m !! k); reflexivity.
Qed.

(** A later entry wins over an earlier one with the same key. *)
Lemma fromEntries_cons {V} (k' : string) (v' : V)
    (entries : list (string * V)) (k : string) :
  fromEntries ((k', v') :: entries) !! k
  = match fromEntries entries !! k with
    | Some v => Some v
    | None => if decide (k' = k) then Some v' else None
    end.
Proof.
  unfold fromEntries at 1. cbn [fold_left]. rewrite fromEntries_fold.
  cbn [fst snd]. destruct (fromEntries entries !! k); [reflexivity|].
  destruct (decide (k' = k)) as [-> | Hne].
  - apply lookup_insert_eq.
  - rewrite lookup_insert_ne by exact Hne. apply lookup_empty.
Qed.

(** Every value of the object is the value of one of the entries. *)
Lemma fromEntries_lookup_In {V} (entries : list (string * V)) (k : string)
    (v : V) :
  fromEntries entries !! k = Some v -> In (k, v) entries.
Proof.
  induction entries as [|[k' v'] entries IH].
  - unfold fromEntries. cbn [fold_left]. rewrite lookup_empty. discriminate.
  - rewrite fromEntries_cons.
    destruct (fromEntries entries !! k) as [w|] eqn:E.
    + intros [= ->]. right. apply IH. reflexivity.
    + destruct (decide (k' = k)) as [-> | Hne]; [|discriminate].
      intros [= ->]. left. reflexivity.
Qed.

(** Every key of the entries is a key of the object. *)
Lemma fromEntries_lookup_key {V} (entries : list (string * V)) (k : string)
    (v : V) :
  In (k, v) entries -> exists w, fromEntries entries !! k = Some w.
Proof.
  induction entries as [|[k' v'] entries IH]; [intros []|].
  intros [E | Hin]; rewrite fromEntries_cons.
  - injection E as -> ->.
    destruct (fromEntries entries !! k) as [w|]; [eauto|].
    destruct (decide (k = k)); [eauto | contradiction].
  - destruct (IH Hin) as (w & ->). eauto.
Qed.

(** With keys that are all different the object holds every entry. *)
Lemma fromEntries_lookup_NoDup {V} (entries : list (string * V)) (k : string)
    (v : V) :
  List.NoDup (map fst entries) -> In (k, v) entries ->
  fromEntries entries !! k = Some v.
Proof.
  intros Hnd Hin. destruct (fromEntries_lookup_key entries k v Hin) as (w & Hw).
  rewrite Hw. f_equal.
  apply fromEntries_lookup_In in Hw.
  clear - Hnd Hin Hw.
  induction entries as [|[k' v'] entries IH]; [destruct Hin|].
  cbn [map fst] in Hnd. apply List.NoDup_cons_iff in Hnd as [Hnotin Hnd].
  destruct Hin as [E1 | Hin], Hw as [E2 | Hw].
  - congruence.
  - injection E1 as -> ->. exfalso. apply Hnotin.
    apply in_map_iff. exists (k, w). auto.
  - injection E2 as -> ->. exfalso. apply Hnotin.
    apply in_map_iff. exists (k, v). auto.
  - apply IH; assumption.
Qed.

Lemma forallb_values {V} (p : V -> bool) (m : gmap string V) :
  forallb p (map snd (map_to_list m)) = true
  <-> forall k v, m !! k = Some v -> p v = true.
Proof.
  rewrite forallb_forall. split.
  - intros H k v Hkv. apply H. apply in_map_iff. exists (k, v).
    split; [reflexivity|]. apply list_elem_of_In, elem_of_map_to_list. exact Hkv.
  - intros H v Hv. apply in_map_iff in Hv as ([k v'] & <- & Hin).
    apply list_elem_of_In, elem_of_map_to_list in Hin. apply (H k). exact Hin.
Qed.

(** The reducer sorts the names of the rows by their type. *)
Lemma reduce_objects_valid (rows : list (string * string)) :
  forall acc,
    Forall (fun row => In (fst row) ["tables"; "procedures"; "functions"])
      rows ->
    exists objs,
      reduce_objects rows acc = Some objs
      /\ (forall n, In n (tables objs)
                    <-> In n (tables acc) \/ In ("tables", n) rows)
      /\ (forall n, In n (procedures objs)
                    <-> In n (procedures acc) \/ In ("procedures", n) rows)
      /\ (forall n, In n (functions objs)
                    <-> In n (functions acc) \/ In ("functions", n) rows).
Proof.
  induction rows as [|[type name] rows IH]; intros acc Hvalid.
  - exists acc. cbn [reduce_objects In]. repeat split; tauto.
  - apply List.Forall_cons_iff in Hvalid as [Htype Hvalid].
    cbn [fst In] in Htype. cbn [reduce_objects push_object].
    destruct Htype as [<- | [<- | [<- | []]]]; cbn [String.eqb Ascii.eqb Bool.eqb];
      match goal with
      | |- context [reduce_objects rows ?acc'] =>
          destruct (IH acc' Hvalid) as (objs & -> & Ht & Hp & Hf)
      end;
      exists objs; (split; [reflexivity|]);
      cbn [tables procedures functions] in *;
      repeat split; intros H;
      try (apply Ht in H); try (apply Hp in H); try (apply Hf in H);
      try (apply Ht); try (apply Hp); try (apply Hf);
      cbn [In] in *; rewrite ?in_app_iff in *; cbn [In] in *;
      intuition congruence.
Qed.

Lemma includes_In (list : list string) (n : string) :
  includes list n = true <-> In n list.
Proof.
  unfold includes. rewrite existsb_exists. split.
  - intros (x & Hin & Heq). apply String.eqb_eq in Heq. subst. exact Hin.
  - intros Hin. exists n. split; [exact Hin | apply String.eqb_refl].
Qed.

Section SchemaFacts.

Variable TABLES PROCEDURES FUNCTIONS : list SchemaObject.t.

Lemma presence_truthy (list : list string) (n : string) :
  truthy (presence list n) = true <-> n <> "" /\ In n list.
Proof.
  unfold presence. destruct (String.eqb_spec n "") as [-> | Hne]; cbn [truthy].
  - split; [discriminate | intros [H _]; contradiction].
  - rewrite includes_In. tauto.
Qed.

Lemma schema_entries_In (objs : schemaObjInfo) (k : string) (v : Presence) :
  In (k, v) (schema_entries TABLES PROCEDURES FUNCTIONS objs)
  <-> (exists o, In o TABLES /\ k = SchemaObject.name o
                 /\ v = presence (tables objs) k)
      \/ (exists o, In o PROCEDURES /\ k = SchemaObject.name o
                    /\ v = presence (procedures objs) k)
      \/ (exists o, In o FUNCTIONS /\ k = SchemaObject.name o
                    /\ v = presence (functions objs) k).
Proof.
  unfold schema_entries. cbn [concat]. rewrite app_nil_r, !in_app_iff, !in_map_iff.
  split.
  - intros [(o & E & Ho) | [(o & E & Ho) | (o & E & Ho)]];
      injection E as <- <-; [left | right; left | right; right];
      exists o; auto.
  - intros [(o & Ho & -> & ->) | [(o & Ho & -> & ->) | (o & Ho & -> & ->)]];
      [left | right; left | right; right]; exists o; auto.
Qed.

Lemma schema_entries_keys (objs : schemaObjInfo) :
  map fst (schema_entries TABLES PROCEDURES FUNCTIONS objs)
  = map SchemaObject.name (TABLES ++ PROCEDURES ++ FUNCTIONS).
Proof.
  unfold schema_entries. cbn [concat].
  rewrite app_nil_r, !map_app, !map_map. reflexivity.
Qed.

(** X15: when the database reports rows of the three types only,
    [hasSchema] is fulfilled with [true] if every table, procedure and
    function of the schema has a name and is reported under its type; and
    when the names of the schema are all different, only then. *)
Theorem hasSchema_complete (rows : list (string * string)) :
  Forall (fun row => In (fst row) ["tables"; "procedures"; "functions"]) rows ->
  (schema_present TABLES PROCEDURES FUNCTIONS rows ->
   hasSchema TABLES PROCEDURES FUNCTIONS (Returned rows) = Returned true)
  /\ (List.NoDup (map SchemaObject.name (TABLES ++ PROCEDURES ++ FUNCTIONS)) ->
      hasSchema TABLES PROCEDURES FUNCTIONS (Returned rows) = Returned true ->
      schema_present TABLES PROCEDURES FUNCTIONS rows).
Proof.
  intros Hvalid.
  destruct (reduce_objects_valid rows
              {| tables := []; procedures := []; functions := [] |} Hvalid)
    as (objs & Hred & Ht & Hp & Hf).
  cbn [tables procedures functions In] in Ht, Hp, Hf.
  unfold hasSchema, schemaObjects. rewrite Hred. split.
  - intros (HT & HP & HF). f_equal. apply forallb_values. intros k v Hkv.
    apply fromEntries_lookup_In, schema_entries_In in Hkv.
    destruct Hkv as [(o & Ho & -> & ->) | [(o & Ho & -> & ->) | (o & Ho & -> & ->)]];
      apply presence_truthy;
      [destruct (HT o Ho) | destruct (HP o Ho) | destruct (HF o Ho)];
      (split; [assumption|]);
      [apply Ht | apply Hp | apply Hf]; right; assumption.
  - intros Hnd [= Hall].
    rewrite forallb_values in Hall.
    assert (Hentry : forall k v,
               In (k, v) (schema_entries TABLES PROCEDURES FUNCTIONS objs) ->
               truthy v = true).
    { intros k v Hin. apply (Hall k).
      apply fromEntries_lookup_NoDup; [|exact Hin].
      rewrite schema_entries_keys. exact Hnd. }
    unfold schema_present. split; [|split]; intros o Ho.
    + pose proof (Hentry _ _ (proj2 (schema_entries_In objs _ _)
                    (or_introl (ex_intro _ o (conj Ho (conj eq_refl eq_refl)))))) as H.
      apply presence_truthy in H as [Hne Hin].
      split; [exact Hne|]. apply Ht in Hin. tauto.
    + pose proof (Hentry _ _ (proj2 (schema_entries_In objs _ _)
                    (or_intror (or_introl
                       (ex_intro _ o (conj Ho (conj eq_refl eq_refl))))))) as H.
      apply presence_truthy in H as [Hne Hin].
      split; [exact Hne|]. apply Hp in Hin. tauto.
    + pose proof (Hentry _ _ (proj2 (schema_entries_In objs _ _)
                    (or_intror (or_intror
                       (ex_intro _ o (conj Ho (conj eq_refl eq_refl))))))) as H.
      apply presence_truthy in H as [Hne Hin].
      split; [exact Hne|]. apply Hf in Hin. tauto.
Qed.

(** X16: what [hasSchema] does with a failed query: an [SQLError] for an
    unknown or recovering database is swallowed and the schema is reported
    missing, unless nothing at all is expected, in which case it is reported
    complete; every other thrown value is thrown again. *)
Theorem hasSchema_failed_query (e : Thrown) :
  hasSchema TABLES PROCEDURES FUNCTIONS (Threw e)
  = match e with
    | ThrownSQLError s =>
        if isUnknownDatabase s || isDatabaseRecovering s
        then Returned match TABLES ++ PROCEDURES ++ FUNCTIONS with
                      | [] => true
                      | _ :: _ => false
                      end
        else Threw e
    | _ => Threw e
    end.
Proof.
  destruct e as [s| |msg]; try reflexivity.
  unfold hasSchema, schemaObjects.
  destruct (isUnknownDatabase s || isDatabaseRecovering s); [|reflexivity].
  f_equal.
  set (objs := {| tables := []; procedures := []; functions := [] |}).
  destruct (TABLES ++ PROCEDURES ++ FUNCTIONS) as [|o rest] eqn:Eall.
  - apply forallb_values. intros k v Hkv.
    apply fromEntries_lookup_In in Hkv.
    apply (in_map fst) in Hkv. rewrite schema_entries_keys, Eall in Hkv.
    destruct Hkv.
  - destruct (forallb truthy _) eqn:Hall; [exfalso | reflexivity].
    rewrite forallb_values in Hall.
    assert (Hkey : In (SchemaObject.name o)
                     (map fst (schema_entries TABLES PROCEDURES FUNCTIONS objs))).
    { rewrite schema_entries_keys, Eall. left. reflexivity. }
    apply in_map_iff in Hkey as ([k v] & Hk & Hin). cbn [fst] in Hk. subst k.
    destruct (fromEntries_lookup_key _ _ _ Hin) as (w & Hw).
    pose proof (Hall _ _ Hw) as Htrue.
    apply fromEntries_lookup_In, schema_entries_In in Hw.
    destruct Hw as [(o' & _ & _ & ->) | [(o' & _ & _ & ->) | (o' & _ & _ & ->)]];
      apply presence_truthy in Htrue as [_ []].
Qed.

End SchemaFacts.

Lemma hasSchema_complete_witness :
  let tables :=
    [{| SchemaObject.name := "offers";
        SchemaObject.statement := "CREATE TABLE offers" |}] in
  let procedures :=
    [{| SchemaObject.name := "update_segments";
        SchemaObject.statement := "CREATE PROCEDURE update_segments" |}] in
  let rows := [("tables", "offers"); ("procedures", "update_segments");
               ("tables", "cities")] in
  hasSchema tables procedures [] (Returned rows) = Returned true.
Proof.
  intros tables procedures rows.
  apply (hasSchema_complete tables procedures [] rows).
  - repeat (apply List.Forall_cons; [cbn; auto 10|]). apply List.Forall_nil.
  - unfold schema_present. split; [|split]; intros o Ho; cbn in Ho.
    + destruct Ho as [<- | []]. cbn. split; [discriminate | auto 10].
    + destruct Ho as [<- | []]. cbn. split; [discriminate | auto 10].
    + destruct Ho.
Defined.

(** ** Rows of another type *)

Lemma reduce_objects_invalid (rows : list (string * string)) :
  Exists (fun row => ~ In (fst row) ["tables"; "procedures"; "functions"])
    rows ->
  forall acc, reduce_objects rows acc = None.
Proof.
  induction rows as [|[type name] rows IH]; intros Hbad acc.
  - inversion Hbad.
  - cbn [reduce_objects push_object].
    destruct (String.eqb_spec type "tables") as [-> | Ht];
      [|destruct (String.eqb_spec type "procedures") as [-> | Hp];
        [|destruct (String.eqb_spec type "functions") as [-> | Hf]]];
      try reflexivity; apply IH;
      apply List.Exists_cons in Hbad as [Hbad | Hbad]; try exact Hbad;
      exfalso; apply Hbad; cbn [fst In]; auto.
Qed.

(** X17: a row whose type is none of [tables], [procedures] and
    [functions] makes the reducer of [schemaObjects] call [push] on
    [undefined]; the [TypeError] is no [SQLError], so it is thrown again, by
    [schemaObjects] and by [hasSchema], whatever the other rows say. *)
Theorem schemaObjects_other_type
    (TABLES PROCEDURES FUNCTIONS : list SchemaObject.t)
    (rows : list (string * string)) :
  Exists (fun row => ~ In (fst row) ["tables"; "procedures"; "functions"])
    rows ->
  schemaObjects TABLES PROCEDURES FUNCTIONS (Returned rows)
  = Threw ThrownTypeError
  /\ hasSchema TABLES PROCEDURES FUNCTIONS (Returned rows)
     = Threw ThrownTypeError.
Proof.
  intros Hbad. unfold hasSchema, schemaObjects.
  rewrite (reduce_objects_invalid rows Hbad). split; reflexivity.
Qed.

Lemma schemaObjects_other_type_witness :
  hasSchema [] [] [] (Returned [("tables", "offers"); ("aggregates", "total")])
  = Threw ThrownTypeError.
Proof.
  apply (schemaObjects_other_type [] [] []).
  apply List.Exists_cons_tl, List.Exists_cons_hd. cbn [fst In].
  intros [H | [H | [H | []]]]; discriminate H.
Defined.

(** ** The variables of a pipeline statement *)

Lemma string_app_nil_r (a : string) : (a ++ "")%string = a.
Proof.
  induction a as [|x a IH]; [reflexivity|].
  rewrite string_app_cons, IH. reflexivity.
Qed.

(** Text without a closing brace completes no match. *)
Lemma replaceAll_no_brace (replacer : string -> Settled string)
    (text : string) :
  occurs "}" text = false ->
  forall st,
    replaceAll replacer text st = Returned (unmatched st ++ text)%string.
Proof.
  induction text as [|c rest IH]; intros Hno st.
  - cbn [replaceAll]. rewrite string_app_nil_r. reflexivity.
  - cbn [occurs] in Hno. apply orb_false_elim in Hno as [Hc Hrest].
    cbn [replaceAll]. destruct st as [| |key].
    + destruct (Ascii.eqb_spec c "$") as [-> | _].
      * rewrite (IH Hrest). reflexivity.
      * rewrite (IH Hrest). reflexivity.
    + destruct (Ascii.eqb_spec c "{") as [-> | _].
      * rewrite (IH Hrest). reflexivity.
      * destruct (Ascii.eqb_spec c "$") as [-> | _];
          rewrite (IH Hrest); reflexivity.
    + rewrite Hc, (IH Hrest). unfold unmatched.
      rewrite !string_app_assoc. reflexivity.
Qed.

(** Text without a dollar is copied. *)
Lemma replaceAll_prefix (replacer : string -> Settled string)
    (pre rest : string) :
  occurs "$" pre = false ->
  replaceAll replacer (pre ++ rest) Outside
  = match replaceAll replacer rest Outside with
    | Returned out => Returned (pre ++ out)%string
    | Threw e => Threw e
    end.
Proof.
  induction pre as [|c pre IH]; intros Hno.
  - change ("" ++ rest)%string with rest.
    destruct (replaceAll replacer rest Outside); reflexivity.
  - cbn [occurs] in Hno. apply orb_false_elim in Hno as [Hc Hpre].
    rewrite string_app_cons. cbn [replaceAll]. rewrite Hc, (IH Hpre).
    destruct (replaceAll replacer rest Outside); reflexivity.
Qed.

(** The key of a match runs to the first closing brace. *)
Lemma replaceAll_key (replacer : string -> Settled string)
    (key rest : string) :
  occurs "}" key = false ->
  forall read,
    replaceAll replacer (key ++ String "}" rest) (Key read)
    = replaceAll replacer (String "}" rest) (Key (read ++ key)).
Proof.
  induction key as [|c key IH]; intros Hno read.
  - rewrite string_app_nil_r. reflexivity.
  - cbn [occurs] in Hno. apply orb_false_elim in Hno as [Hc Hkey].
    rewrite string_app_cons. cbn [replaceAll]. rewrite Hc, (IH Hkey).
    rewrite string_app_assoc. reflexivity.
Qed.

(** One match: the text before it is copied, the replacer is called on the
    key, and the scan goes on after the closing brace, so that what the
    replacer returns is not scanned. *)
Lemma replaceAll_match (replacer : string -> Settled string)
    (pre key post : string) :
  occurs "$" pre = false -> occurs "}" key = false -> key <> "" ->
  replaceAll replacer (pre ++ "${" ++ key ++ "}" ++ post) Outside
  = match replacer key with
    | Returned value =>
        match replaceAll replacer post Outside with
        | Returned out => Returned (pre ++ value ++ out)%string
        | Threw e => Threw e
        end
    | Threw e => Threw e
    end.
Proof.
  intros Hpre Hkey Hne.
  rewrite (replaceAll_prefix replacer pre _ Hpre).
  change ("${" ++ key ++ "}" ++ post)%string
    with (String "$" (String "{" (key ++ String "}" post))).
  cbn [replaceAll]. cbn [Ascii.eqb Bool.eqb]. cbn [andb].
  rewrite (replaceAll_key replacer key post Hkey "").
  change ("" ++ key)%string with key.
  cbn [replaceAll]. cbn [Ascii.eqb Bool.eqb andb].
  destruct (String.eqb_spec key "") as [E | _]; [contradiction|].
  destruct (replacer key) as [value|e]; [|reflexivity].
  destruct (replaceAll replacer post Outside); reflexivity.
Qed.

Section PipelineFacts.

Variable ToString : number -> string.

(** X18: a statement that has no dollar, or that has no closing brace, has
    no variable, and [getPipelineSQL] returns it as it is: a dollar alone,
    a [${] that is not closed and braces without a dollar are all kept. *)
Theorem getPipelineSQL_plain (statement : string)
    (scaleFactor : ScaleFactor.t) (maxPartitions : number) :
  occurs "$" statement = false \/ occurs "}" statement = false ->
  getPipelineSQL ToString statement scaleFactor maxPartitions
  = Returned statement.
Proof.
  unfold getPipelineSQL. intros [Hno | Hno].
  - rewrite <- (string_app_nil_r statement) at 1.
    rewrite (replaceAll_prefix _ statement "" Hno).
    cbn [replaceAll unmatched]. rewrite string_app_nil_r. reflexivity.
  - rewrite (replaceAll_no_brace _ statement Hno). reflexivity.
Qed.

(** X19: the first variable of a statement: the text before it is kept,
    [${SCALE_FACTOR}] becomes the prefix of the scale factor and
    [${PARTITIONS}] the smaller of the partitions of the cluster and of the
    scale factor, and the rest of the statement is filled in the same way,
    the inserted text not being scanned; any other name between [${] and the
    first [}] makes [getPipelineSQL] throw [Unknown variable] with that
    name, whatever follows. *)
Theorem getPipelineSQL_variable (pre key post : string)
    (scaleFactor : ScaleFactor.t) (maxPartitions : number) :
  occurs "$" pre = false -> occurs "}" key = false -> key <> "" ->
  let value :=
    if String.eqb key "SCALE_FACTOR" then
      Returned (ScaleFactor.prefix scaleFactor)
    else if String.eqb key "PARTITIONS" then
      Returned (ToString (Math.min maxPartitions
                            (ScaleFactor.partitions scaleFactor)))
    else Threw (ThrownError ("Unknown variable: " ++ key)%string) in
  getPipelineSQL ToString (pre ++ "${" ++ key ++ "}" ++ post) scaleFactor
    maxPartitions
  = match value with
    | Returned text =>
        match getPipelineSQL ToString post scaleFactor maxPartitions with
        | Returned out => Returned (pre ++ text ++ out)%string
        | Threw e => Threw e
        end
    | Threw e => Threw e
    end.
Proof.
  intros Hpre Hkey Hne value. unfold getPipelineSQL.
  rewrite (replaceAll_match _ pre key post Hpre Hkey Hne).
  reflexivity.
Qed.

End PipelineFacts.

Lemma getPipelineSQL_plain_witness :
  getPipelineSQL (fun _ => "8") "SELECT '{', '$' FROM t WHERE a = '${b'"
    {| ScaleFactor.prefix := "v2/100k-2p";
       ScaleFactor.partitions := Number.of_Z 2 |} (Number.of_Z 8)
  = Returned "SELECT '{', '$' FROM t WHERE a = '${b'".
Proof.
  apply getPipelineSQL_plain. right. reflexivity.
Defined.

Lemma getPipelineSQL_variable_witness :
  let scale := {| ScaleFactor.prefix := "v2/100k-2p";
                  ScaleFactor.partitions := Number.of_Z 2 |} in
  getPipelineSQL (fun _ => "2")
    ("LOAD DATA S3 'bucket/" ++ "${" ++ "SCALE_FACTOR" ++ "}"
       ++ "/locations.*' INTO TABLE locations")
    scale (Number.of_Z 8)
  = Returned "LOAD DATA S3 'bucket/v2/100k-2p/locations.*' INTO TABLE locations".
Proof.
  intros scale.
  rewrite (getPipelineSQL_variable (fun _ => "2") "LOAD DATA S3 'bucket/"
             "SCALE_FACTOR" "/locations.*' INTO TABLE locations" scale
             (Number.of_Z 8) eq_refl eq_refl ltac:(discriminate)).
  reflexivity.
Defined.

(** ** The state of the pipelines *)


(** ** Resetting the schema *)

Section ResetFacts.

Variable refuses : list Event -> Event -> bool.

Lemma refused_app_l (log new1 new2 : list Event) :
  refused refuses log new1 -> refused refuses log (new1 ++ new2).
Proof.
  intros (before & ev & after & -> & Hsql & Hrej).
  exists before, ev, (after ++ new2). rewrite <- app_assoc. auto.
Qed.

Lemma refused_app_r (log new1 new2 : list Event) :
  refused refuses (log ++ new1) new2 -> refused refuses log (new1 ++ new2).
Proof.
  intros (before & ev & after & -> & Hsql & Hrej).
  exists (new1 ++ before), ev, after. rewrite <- !app_assoc in *. auto.
Qed.

Lemma refused_app_inv (log new1 new2 : list Event) :
  refused refuses log (new1 ++ new2) ->
  refused refuses log new1 \/ refused refuses (log ++ new1) new2.
Proof.
  intros (before & ev & after & E & Hsql & Hrej).
  revert log before E Hrej.
  induction new1 as [|x new1 IH]; intros log before E Hrej.
  - right. rewrite app_nil_r. exists before, ev, after. auto.
  - destruct before as [|y before].
    + injection E as <- _. left. exists [], x, new1. auto.
    + injection E as -> E.
      destruct (IH (log ++ [y]) before E) as [H | H].
      * rewrite <- app_assoc. exact Hrej.
      * left. destruct H as (b & e & a & -> & Hs & Hr).
        exists (y :: b), e, a. rewrite <- app_assoc in Hr. auto.
      * right. rewrite <- app_assoc in H. exact H.
Qed.

Lemma refused_nil (log : list Event) : ~ refused refuses log [].
Proof. intros (before & ev & after & E & _). destruct before; discriminate. Qed.

Lemma firstn_app_le {A} (k : nat) (p1 p2 : list A) :
  exists k', firstn k p1 = firstn k' (p1 ++ p2).
Proof.
  exists (Nat.min k (length p1)).
  rewrite firstn_app.
  replace (Nat.min k (length p1) - length p1)%nat with 0%nat by lia.
  cbn [firstn]. rewrite app_nil_r.
  destruct (Nat.le_ge_cases k (length p1)) as [Hle | Hge].
  - rewrite Nat.min_l by exact Hle. reflexivity.
  - rewrite Nat.min_r by exact Hge.
    rewrite !firstn_all2 by lia. reflexivity.
Qed.

Lemma follows_skip : follows refuses skip [].
Proof.
  intros log. exists []. cbn. rewrite app_nil_r.
  split; [reflexivity|]. split; [|discriminate].
  intros _. split; [apply refused_nil | reflexivity].
Qed.

Lemma follows_progress (message status : string) :
  follows refuses (progress message status) [].
Proof.
  intros log. exists [Progress message status]. cbn.
  split; [reflexivity|]. split; [|discriminate].
  intros _. split; [|reflexivity].
  intros (before & ev & after & E & Hsql & _).
  destruct before as [|x [|y before]]; try discriminate.
  injection E as <- _. discriminate.
Qed.

Lemma follows_send (ev : Event) :
  is_sql ev = true -> follows refuses (send refuses ev) [ev].
Proof.
  intros Hsql log. exists [ev]. unfold send. cbn [fst snd].
  split; [reflexivity|].
  destruct (refuses log ev) eqn:Hrej; split; try discriminate; intros _.
  - split; [|split].
    + exists [], ev, []. rewrite app_nil_r. auto.
    + exists 1%nat. cbn. rewrite Hsql. reflexivity.
    + exists ev. split; [reflexivity | exact Hsql].
  - split.
    + intros (before & ev' & after & E & _ & Hrej').
      destruct before as [|x [|y before]]; try discriminate.
      injection E as <- _. rewrite app_nil_r in Hrej'. congruence.
    + cbn. rewrite Hsql. reflexivity.
Qed.

Lemma follows_andThen (first second : Task) (p1 p2 : list Event) :
  follows refuses first p1 -> follows refuses second p2 ->
  follows refuses (andThen first second) (p1 ++ p2).
Proof.
  intros H1 H2 log. unfold andThen.
  destruct (H1 log) as (new1 & E1 & Hok1 & Hrej1).
  destruct (first log) as [[] log1] eqn:Efirst; cbn [fst snd] in *; subst log1.
  - destruct (Hok1 eq_refl) as [Hnone1 Hplan1].
    destruct (H2 (log ++ new1)) as (new2 & E2 & Hok2 & Hrej2).
    exists (new1 ++ new2). rewrite E2, <- app_assoc.
    split; [reflexivity|]. rewrite List.filter_app, Hplan1. split.
    + intros Hok. destruct (Hok2 Hok) as [Hnone2 Hplan2].
      split; [|rewrite Hplan2; reflexivity].
      intros H. apply refused_app_inv in H as [H | H]; contradiction.
    + intros Hrej. destruct (Hrej2 Hrej) as (Href & (k & Hk) & ev & Hlast & Hsql).
      split; [apply refused_app_r; exact Href|]. split.
      * exists (length p1 + k)%nat. rewrite Hk, firstn_app.
        replace (length p1 + k - length p1)%nat with k by lia.
        f_equal. symmetry. apply firstn_all2. lia.
      * exists ev. split; [|exact Hsql].
        rewrite last_app, Hlast. reflexivity.
  - exists new1. split; [reflexivity|]. split; [discriminate|].
    intros _. destruct (Hrej1 eq_refl) as (Href & (k & Hk) & Hlast).
    split; [exact Href|]. split; [|exact Hlast].
    destruct (firstn_app_le k p1 p2) as (k' & Hk'). exists k'.
    rewrite Hk, Hk'. reflexivity.
Qed.

Lemma follows_forEach {A} (body : A -> Task) (plan : A -> list Event)
    (xs : list A) :
  (forall x, follows refuses (body x) (plan x)) ->
  follows refuses (forEach body xs) (concat (map plan xs)).
Proof.
  intros Hbody. induction xs as [|x xs IH]; cbn [forEach map concat].
  - apply follows_skip.
  - apply follows_andThen; [apply Hbody | exact IH].
Qed.

Lemma all_sends (statements : list Event) :
  forall log,
    snd (all refuses statements log) = log ++ statements
    /\ (fst (all refuses statements log) = Rejected
        <-> exists before ev after,
              statements = before ++ ev :: after
              /\ refuses (log ++ before) ev = true).
Proof.
  induction statements as [|ev rest IH]; intros log; cbn [all].
  - cbn. rewrite app_nil_r. split; [reflexivity|]. split; [discriminate|].
    intros (before & ev & after & E & _). destruct before; discriminate.
  - destruct (IH (log ++ [ev])) as [Hlog Hrej].
    destruct (all refuses rest (log ++ [ev])) as [r log'] eqn:Erest.
    cbn [fst snd] in *. subst log'. unfold send.
    destruct (refuses log ev) eqn:Hverdict; cbn [fst snd];
      rewrite <- app_assoc; (split; [reflexivity|]).
    + split; [|reflexivity]. intros _. exists [], ev, rest.
      rewrite app_nil_r. auto.
    + rewrite Hrej. split.
      * intros (before & ev' & after & -> & Hv).
        exists (ev :: before), ev', after. rewrite <- app_assoc in Hv. auto.
      * intros (before & ev' & after & E & Hv).
        destruct before as [|x before].
        -- injection E as <- _. rewrite app_nil_r in Hv. congruence.
        -- injection E as <- ->. exists before, ev', after.
           rewrite <- app_assoc. auto.
Qed.

Lemma filter_all_true {A} (p : A -> bool) (l : list A) :
  Forall (fun x => p x = true) l -> List.filter p l = l.
Proof.
  induction 1 as [|x l Hx _ IH]; [reflexivity|].
  cbn [List.filter]. rewrite Hx, IH. reflexivity.
Qed.

Lemma follows_all (statements : list Event) :
  Forall (fun ev => is_sql ev = true) statements ->
  follows refuses (all refuses statements) statements.
Proof.
  intros Hsql log. destruct (all_sends statements log) as [Hlog Hrej].
  exists statements. split; [exact Hlog|].
  rewrite (filter_all_true _ _ Hsql). split.
  - intros Hok. split; [|reflexivity].
    intros (before & ev & after & E & _ & Hv).
    assert (fst (all refuses statements log) = Rejected)
      by (apply Hrej; eauto).
    congruence.
  - intros Hr. apply Hrej in Hr as (before & ev & after & E & Hv).
    split; [|split].
    + exists before, ev, after. repeat split; [exact E | | exact Hv].
      apply (proj1 (List.Forall_forall _ _) Hsql). rewrite E.
      apply in_or_app. right. left. reflexivity.
    + exists (length statements). rewrite firstn_all. reflexivity.
    + destruct (last statements) as [e|] eqn:El.
      * exists e. split; [reflexivity|].
        apply (proj1 (List.Forall_forall _ _) Hsql).
        apply last_Some in El as (l' & ->).
        apply in_or_app. right. left. reflexivity.
      * apply last_None in El. subst statements.
        destruct before; discriminate.
Qed.

Lemma follows_plan (task : Task) (plan plan' : list Event) :
  follows refuses task plan -> plan = plan' -> follows refuses task plan'.
Proof. intros H <-. exact H. Qed.

Lemma announces_progress (message status : string) :
  announces (progress message status) (Progress message status).
Proof. intros log _. exists []. reflexivity. Qed.

Lemma announces_andThen (first second : Task) (plan : list Event)
    (ev : Event) :
  follows refuses first plan -> announces second ev ->
  announces (andThen first second) ev.
Proof.
  intros H1 H2 log. unfold andThen.
  destruct (H1 log) as (new1 & E1 & _).
  destruct (first log) as [[] log1] eqn:Efirst; cbn [fst snd] in *;
    [|discriminate].
  subst log1. intros Hok. destruct (H2 _ Hok) as (new2 & ->).
  exists (new1 ++ new2). rewrite <- !app_assoc. reflexivity.
Qed.

Variable FUNCTIONS TABLES PROCEDURES SEED : list SchemaObject.t.
Variable database : string.
Variable ToString : number -> string.

Lemma concat_singletons {A B} (f : A -> B) (l : list A) :
  concat (map (fun x => [f x]) l) = map f l.
Proof. induction l as [|x l IH]; [reflexivity|]. cbn. rewrite IH. reflexivity. Qed.

Lemma follows_create (what : string) (objs : list SchemaObject.t) :
  follows refuses (forEach (create refuses what) objs)
    (map (fun obj => Sql true (SchemaObject.statement obj) []) objs).
Proof.
  eapply follows_plan.
  - apply (follows_forEach _
             (fun obj => [Sql true (SchemaObject.statement obj) []])).
    intros obj. apply (follows_andThen _ _ [] _);
      [apply follows_progress | apply follows_send; reflexivity].
  - apply concat_singletons.
Qed.

Lemma follows_seed :
  follows refuses (insertSeedData refuses SEED)
    (map (fun obj => Sql true (SchemaObject.statement obj) []) SEED).
Proof.
  eapply follows_plan.
  - apply (follows_forEach _
             (fun obj => [Sql true (SchemaObject.statement obj) []])).
    intros obj. apply follows_send. reflexivity.
  - apply concat_singletons.
Qed.

Lemma follows_truncateData :
  follows refuses (truncateData refuses)
    (map (fun text => Sql true text [])
       ["TRUNCATE TABLE cities";
        "TRUNCATE TABLE locations";
        "TRUNCATE TABLE notifications";
        "TRUNCATE TABLE offers";
        "TRUNCATE TABLE purchases";
        "TRUNCATE TABLE requests";
        "TRUNCATE TABLE segments";
        "TRUNCATE TABLE sessions";
        "TRUNCATE TABLE subscriber_segments";
        "TRUNCATE TABLE subscribers";
        "TRUNCATE TABLE subscribers_last_notification"]).
Proof.
  apply follows_all. apply List.Forall_forall. intros ev Hev.
  apply in_map_iff in Hev as (text & <- & _). reflexivity.
Qed.

Lemma follows_dropPipelines :
  follows refuses (dropPipelines refuses)
    (Sql true "STOP ALL PIPELINES" []
     :: map (fun pipeline =>
               Sql true ("DROP PIPELINE IF EXISTS " ++ pipeline)%string [])
          pipelineNames).
Proof.
  apply (follows_andThen _ _ [_] _).
  - apply follows_send. reflexivity.
  - apply follows_all. apply List.Forall_forall. intros ev Hev.
    apply in_map_iff in Hev as (text & <- & _). reflexivity.
Qed.

Lemma follows_new_database (resetDataOnly : bool) :
  follows refuses
    (if negb resetDataOnly then
       andThen (progress "Dropping existing schema" "info")
         (andThen (dropDatabase refuses database)
            (andThen (progress "Creating database" "info")
               (send refuses
                  (Sql false
                     ("CREATE DATABASE `" ++ database ++ "`")%string []))))
     else skip)
    (if resetDataOnly then []
     else
       [Sql false ("DROP DATABASE IF EXISTS `" ++ database ++ "`")%string [];
        Sql false ("CREATE DATABASE `" ++ database ++ "`")%string []]).
Proof.
  destruct resetDataOnly; cbn [negb]; [apply follows_skip|].
  apply (follows_andThen _ _ [] _); [apply follows_progress|].
  apply (follows_andThen _ _ [_] _); [apply follows_send; reflexivity|].
  apply (follows_andThen _ _ [] _); [apply follows_progress|].
  apply follows_send. reflexivity.
Qed.

Lemma follows_reset_data (resetDataOnly : bool) :
  follows refuses
    (if resetDataOnly then
       andThen
         (progress
            "Resetting data. This might take a while. Thanks for your patience"
            "info")
         (andThen (dropPipelines refuses) (truncateData refuses))
     else skip)
    (if resetDataOnly then
       Sql true "STOP ALL PIPELINES" []
       :: map (fun pipeline =>
                 Sql true ("DROP PIPELINE IF EXISTS " ++ pipeline)%string [])
            pipelineNames
       ++ map (fun text => Sql true text [])
            ["TRUNCATE TABLE cities";
             "TRUNCATE TABLE locations";
             "TRUNCATE TABLE notifications";
             "TRUNCATE TABLE offers";
             "TRUNCATE TABLE purchases";
             "TRUNCATE TABLE requests";
             "TRUNCATE TABLE segments";
             "TRUNCATE TABLE sessions";
             "TRUNCATE TABLE subscriber_segments";
             "TRUNCATE TABLE subscribers";
             "TRUNCATE TABLE subscribers_last_notification"]
     else []).
Proof.
  destruct resetDataOnly; [|apply follows_skip].
  apply (follows_andThen _ _ [] _); [apply follows_progress|].
  apply (follows_andThen _ _ (_ :: _) _);
    [apply follows_dropPipelines | apply follows_truncateData].
Qed.

Lemma follows_sample_data (includeSeedData : bool) :
  follows refuses
    (if includeSeedData then
       andThen (progress "Creating sample data" "info")
         (insertSeedData refuses SEED)
     else skip)
    (if includeSeedData
     then map (fun obj => Sql true (SchemaObject.statement obj) []) SEED
     else []).
Proof.
  destruct includeSeedData; [|apply follows_skip].
  apply (follows_andThen _ _ [] _); [apply follows_progress | apply follows_seed].
Qed.

(** [resetSchema] sends the statements of its plan. *)
Lemma resetSchema_follows (includeSeedData resetDataOnly : bool) :
  follows refuses
    (resetSchema refuses FUNCTIONS TABLES PROCEDURES SEED database ToString
       includeSeedData resetDataOnly)
    (reset_plan FUNCTIONS TABLES PROCEDURES SEED database ToString
       includeSeedData resetDataOnly).
Proof.
  unfold resetSchema. eapply follows_plan.
  - apply follows_andThen; [apply follows_new_database|].
    apply follows_andThen; [apply follows_reset_data|].
    apply follows_andThen; [apply follows_create|].
    apply follows_andThen; [apply follows_create|].
    apply follows_andThen; [apply follows_create|].
    apply follows_andThen; [apply follows_progress|].
    apply follows_andThen; [apply follows_send; reflexivity|].
    apply follows_andThen; [apply follows_sample_data|].
    apply follows_progress.
  - unfold reset_plan. rewrite !map_app.
    destruct resetDataOnly; cbn [app]; rewrite ?app_nil_r, <- ?app_assoc;
      reflexivity.
Qed.

(** X21: [resetSchema] is fulfilled exactly when the database refuses none
    of the statements it sends, and it reports [Schema initialized] exactly
    when it is fulfilled; a rejected call ends on a statement, so nothing is
    reported after the failure. *)
Theorem resetSchema_settles (includeSeedData resetDataOnly : bool)
    (log : list Event) :
  let res :=
    resetSchema refuses FUNCTIONS TABLES PROCEDURES SEED database ToString
      includeSeedData resetDataOnly log in
  exists new,
    snd res = log ++ new
    /\ (fst res = Fulfilled <-> ~ refused refuses log new)
    /\ (fst res = Fulfilled
        <-> last new = Some (Progress "Schema initialized" "success"))
    /\ (fst res = Rejected
        <-> exists text params onDatabase,
              last new = Some (Sql onDatabase text params)).
Proof.
  intros res. unfold res. clear res.
  destruct (resetSchema_follows includeSeedData resetDataOnly log)
    as (new & E & Hok & Hrej).
  exists new. split; [exact E|].
  assert (Hlast : fst (resetSchema refuses FUNCTIONS TABLES PROCEDURES SEED
                         database ToString includeSeedData resetDataOnly log)
                  = Fulfilled ->
                  last new = Some (Progress "Schema initialized" "success")).
  { intros Hful.
    assert (Ha : announces
                   (resetSchema refuses FUNCTIONS TABLES PROCEDURES SEED
                      database ToString includeSeedData resetDataOnly)
                   (Progress "Schema initialized" "success")).
    { unfold resetSchema.
      eapply announces_andThen; [apply follows_new_database|].
      eapply announces_andThen; [apply follows_reset_data|].
      eapply announces_andThen; [apply follows_create|].
      eapply announces_andThen; [apply follows_create|].
      eapply announces_andThen; [apply follows_create|].
      eapply announces_andThen; [apply follows_progress|].
      eapply announces_andThen; [apply follows_send; reflexivity|].
      eapply announces_andThen; [apply follows_sample_data|].
      apply announces_progress. }
    destruct (Ha log Hful) as (new' & E').
    rewrite E in E'. apply app_inv_head in E'. subst new.
    rewrite last_app. reflexivity. }
  destruct (fst (resetSchema _ _ _ _ _ _ _ _ _ _)) eqn:Er.
  - destruct (Hok eq_refl) as [Hnone _].
    split; [split; auto|]. split; [split; auto|]. split; [discriminate|].
    intros (text & params & onDatabase & Hsql).
    rewrite (Hlast eq_refl) in Hsql. discriminate.
  - destruct (Hrej eq_refl) as (Href & _ & ev & Hev & Hsql).
    split; [split; [discriminate | intros Hnone; contradiction]|].
    split.
    + split; [discriminate|].
      intros Hl. rewrite Hev in Hl. injection Hl as ->. discriminate.
    + split; [|reflexivity]. intros _.
      destruct ev as [message status | onDatabase text params];
        [discriminate|].
      exists text, params, onDatabase. exact Hev.
Qed.

(** X22: the statements [resetSchema] sends.  Whatever the database
    answers they are the first statements of one list, and all of it when
    the call is fulfilled: with [resetDataOnly] the pipelines are stopped
    and dropped and the eleven tables truncated, and the database is
    neither dropped nor created; without it the database is dropped and
    created; then come the functions, the tables and the procedures of the
    schema in this order, the city of New York, and the seed when
    [includeSeedData] is set. *)
Theorem resetSchema_statements (includeSeedData resetDataOnly : bool)
    (log : list Event) :
  let res :=
    resetSchema refuses FUNCTIONS TABLES PROCEDURES SEED database ToString
      includeSeedData resetDataOnly log in
  let plan :=
    reset_plan FUNCTIONS TABLES PROCEDURES SEED database ToString
      includeSeedData resetDataOnly in
  exists new k,
    snd res = log ++ new
    /\ List.filter is_sql new = firstn k plan
    /\ (fst res = Fulfilled -> List.filter is_sql new = plan).
Proof.
  intros res plan. unfold res, plan. clear res plan.
  destruct (resetSchema_follows includeSeedData resetDataOnly log)
    as (new & E & Hok & Hrej).
  destruct (fst (resetSchema _ _ _ _ _ _ _ _ _ _)) eqn:Er.
  - destruct (Hok eq_refl) as [_ Hplan].
    exists new, (length (reset_plan FUNCTIONS TABLES PROCEDURES SEED database
                           ToString includeSeedData resetDataOnly)).
    rewrite firstn_all. auto.
  - destruct (Hrej eq_refl) as (_ & (k & Hk) & _).
    exists new, k. split; [exact E|]. split; [exact Hk | discriminate].
Qed.

End ResetFacts.
